(** * kovlive: the phrase-based rewriting decoder of [kovlive.py]

    A shallow embedding of class [KovLang]: the two model loaders, the two
    smoothed scoring functions, the lattice search with its backtrace, and
    [convert]; then the properties of the specification, each proved of the
    embedding or refuted on a concrete input.

    Conventions of the embedding.
    - A Python [float] is idealised as a real number; [math.log] is the real
      natural logarithm and raises [ValueError] outside its domain.
    - A Python [str] is a [string]; a character is one [ascii].
    - A Python [dict] is an association list kept in insertion order, because
      the search iterates over dictionaries and ties are broken by that order.
    - Exceptions are values of an error monad [result]; the [while] loop of
      the backtrace runs on fuel, and [search] is shown to end within it.
    - [search] and [convert] are embedded without their [verbose] argument;
      [search_logged] and [convert_logged] are the same functions with it,
      the calls of the logger being kept in a log. The command-line driver
      is left out. *)

From Stdlib Require Import Reals Lra List String Ascii Lia ZArith Bool Arith.
Import ListNotations.
Open Scope string_scope.
Open Scope list_scope.

(** ** Exceptions *)

Inductive exn : Set :=
| IndexError
| KeyError
| ValueError
| ZeroDivisionError.

Inductive result (A : Type) : Type :=
| Ok (a : A)
| Raise (e : exn).

Arguments Ok {A} a.
Arguments Raise {A} e.

Definition bind {A B : Type} (c : result A) (k : A -> result B) : result B :=
  match c with
  | Ok a => k a
  | Raise e => Raise e
  end.

Notation "x <- c ;; k" := (bind c (fun x => k))
  (at level 61, c at next level, right associativity).
Notation "' pat <- c ;; k" := (bind c (fun x => match x with pat => k end))
  (at level 61, pat pattern, c at next level, right associativity).

(** A [for] loop whose body may raise: the state is threaded from left to
    right and the first exception ends the loop. *)
Fixpoint for_each {A S : Type} (xs : list A) (body : S -> A -> result S) (s : S)
  : result S :=
  match xs with
  | [] => Ok s
  | x :: xs' => s' <- body s x ;; for_each xs' body s'
  end.

(** ** Dictionaries *)

Class Hashable (K : Type) : Type := { key_eqb : K -> K -> bool }.

#[export] Instance Hashable_string : Hashable string := {| key_eqb := String.eqb |}.

#[export] Instance Hashable_nat : Hashable nat := {| key_eqb := Nat.eqb |}.

#[export] Instance Hashable_pair {A B : Type} `{Hashable A} `{Hashable B}
  : Hashable (A * B) :=
  {| key_eqb := fun a b => key_eqb (fst a) (fst b) && key_eqb (snd a) (snd b) |}.

(** The keys of the program (strings, positions, tuples of them) compare by
    value. *)
Class HashableLaws (K : Type) `{Hashable K} : Prop := {
  key_eqb_eq : forall a b : K, key_eqb a b = true <-> a = b
}.

Definition dict (K V : Type) : Type := list (K * V).

(** [d.get(k)]: the value bound to [k], if any. *)
Fixpoint dict_get {K V : Type} `{Hashable K} (d : dict K V) (k : K) : option V :=
  match d with
  | [] => None
  | (k', v) :: d' => if key_eqb k k' then Some v else dict_get d' k
  end.

(** [k in d]. *)
Definition dict_in {K V : Type} `{Hashable K} (k : K) (d : dict K V) : bool :=
  match dict_get d k with
  | Some _ => true
  | None => false
  end.

(** [d[k] = v]: an existing key keeps its place, a new key goes last. *)
Fixpoint dict_set {K V : Type} `{Hashable K} (d : dict K V) (k : K) (v : V)
  : dict K V :=
  match d with
  | [] => [(k, v)]
  | (k', v') :: d' =>
      if key_eqb k k' then (k', v) :: d' else (k', v') :: dict_set d' k v
  end.

(** [d[k]] as an expression: [KeyError] when [k] is absent. *)
Definition dict_getitem {K V : Type} `{Hashable K} (d : dict K V) (k : K)
  : result V :=
  match dict_get d k with
  | Some v => Ok v
  | None => Raise KeyError
  end.

(** Iteration over a dictionary ([for k in d]) and over [d.items()]. *)
Definition dict_keys {K V : Type} (d : dict K V) : list K := map fst d.
Definition dict_items {K V : Type} (d : dict K V) : list (K * V) := d.

(** ** Strings *)

(** [s[0]] and [s[-1]]: one-character strings, [IndexError] on the empty string. *)
Definition str_first (s : string) : result string :=
  match s with
  | EmptyString => Raise IndexError
  | String c _ => Ok (String c EmptyString)
  end.

Fixpoint last_char (s : string) : option ascii :=
  match s with
  | EmptyString => None
  | String c s' =>
      match s' with
      | EmptyString => Some c
      | String _ _ => last_char s'
      end
  end.

Definition str_last (s : string) : result string :=
  match last_char s with
  | Some c => Ok (String c EmptyString)
  | None => Raise IndexError
  end.

(** [''.join(l)]. *)
Definition join (l : list string) : string := String.concat "" l.

(** ** The model store *)

Record KovLang : Type := {
  phrasemodel : dict string (dict string R);
  unimodel : dict string R;
  bimodel : dict (string * string) R
}.

(** ** The scoring functions *)

Definition py_div (x y : R) : result R :=
  if Req_dec_T y 0 then Raise ZeroDivisionError else Ok (x / y)%R.

Definition math_log (x : R) : result R :=
  if Rlt_dec 0 x then Ok (ln x) else Raise ValueError.

Definition bigram_prob (self : KovLang) (w0 w1 : string)
  (lambda2 lambda1 unk_n : R) (log : bool) : result R :=
  inv_n <- py_div 1 unk_n ;;
  let prob := ((1 - lambda2) * (1 - lambda1) * inv_n)%R in
  let prob :=
    match dict_get (bimodel self) (w0, w1) with
    | Some p => (prob + lambda2 * p)%R
    | None =>
        match dict_get (bimodel self) (w0, "*") with
        | Some p => (prob + lambda2 * p)%R
        | None => prob
        end
    end in
  let prob :=
    match dict_get (unimodel self) w1 with
    | Some p => (prob + (1 - lambda2) * lambda1 * p)%R
    | None => prob
    end in
  if log then l <- math_log prob ;; Ok (- l)%R else Ok prob.

Definition phrase_prob (self : KovLang) (p1 p2 : string)
  (lambda1 unk_n : R) (log : bool) : result R :=
  inv_n <- py_div 1 unk_n ;;
  let prob := ((1 - lambda1) * inv_n)%R in
  let prob :=
    match dict_get (phrasemodel self) p1 with
    | Some targets =>
        match dict_get targets p2 with
        | Some p => (prob + lambda1 * p)%R
        | None => prob
        end
    | None => prob
    end in
  if log then l <- math_log prob ;; Ok (- l)%R else Ok prob.

(** The calls the search makes: every keyword argument at its default. *)
Definition bigram_cost (self : KovLang) (w0 w1 : string) : result R :=
  bigram_prob self w0 w1 0.95 0.95 1e6 true.

Definition phrase_cost (self : KovLang) (p1 p2 : string) : result R :=
  phrase_prob self p1 p2 0.95 1e6 true.

(** ** Python lists *)

(** [l[i]] for [0 <= i]: [IndexError] past the end. *)
Definition list_getitem {A : Type} (l : list A) (i : nat) : result A :=
  match nth_error l i with
  | Some x => Ok x
  | None => Raise IndexError
  end.

Fixpoint list_update {A : Type} (l : list A) (i : nat) (x : A) : list A :=
  match l, i with
  | [], _ => []
  | _ :: l', O => x :: l'
  | y :: l', S i' => y :: list_update l' i' x
  end.

(** [l[i] = x]: [IndexError] past the end. *)
Definition list_setitem {A : Type} (l : list A) (i : nat) (x : A)
  : result (list A) :=
  if Nat.ltb i (List.length l) then Ok (list_update l i x) else Raise IndexError.

(** [l[a:b]] for [0 <= a], [0 <= b]: a slice never raises. *)
Definition slice {A : Type} (l : list A) (a b : nat) : list A :=
  firstn (b - a) (skipn a l).

(** [range(a, b)] for [0 <= a] and any integer [b]. *)
Definition py_range (a : nat) (b : Z) : list nat :=
  seq a (Z.to_nat (b - Z.of_nat a)).

(** The two position loops of [search]:
    [for curpos in range(sent_len - 1)] and
    [for next_end in range(next_start, min(sent_len, next_start + max_len))]
    with [next_start = curpos + 1]. *)
Definition positions (sent_len : nat) : list nat :=
  py_range 0 (Z.of_nat sent_len - 1).

Definition next_ends (sent_len curpos : nat) (max_len : Z) : list nat :=
  let next_start := curpos + 1 in
  py_range next_start
    (Z.min (Z.of_nat sent_len) (Z.of_nat next_start + max_len)).

(** ** The lattice *)

Definition span : Type := nat * nat.
Definition key : Type := string * span.

(** [best] and [before_pos]: one dictionary per position of the bracketed
    sentence. *)
Record lattice : Type := {
  best : list (dict key R);
  before_pos : list (dict key key)
}.

(** The two assignments
    [best[next_end][next_key] = next_prob] and
    [before_pos[next_end][next_key] = cur_key]. *)
Definition store (st : lattice) (next_end : nat) (next_key : key)
  (next_prob : R) (cur_key : key) : result lattice :=
  b <- list_getitem (best st) next_end ;;
  best' <- list_setitem (best st) next_end (dict_set b next_key next_prob) ;;
  p <- list_getitem (before_pos st) next_end ;;
  before' <- list_setitem (before_pos st) next_end (dict_set p next_key cur_key) ;;
  Ok {| best := best'; before_pos := before' |}.

(** The relaxation, which [search] spells out twice, once in each branch:
    [if next_key in best[next_end]:
       if best[next_end][next_key] >= next_prob: (store)
     else: (store)]. *)
Definition relax (st : lattice) (next_end : nat) (next_key : key)
  (next_prob : R) (cur_key : key) : result lattice :=
  b <- list_getitem (best st) next_end ;;
  match dict_get b next_key with
  | Some stored =>
      if Rge_dec stored next_prob
      then store st next_end next_key next_prob cur_key
      else Ok st
  | None => store st next_end next_key next_prob cur_key
  end.

(** ** The forward pass of [search] *)

Section Search.

Variable self : KovLang.

(** One candidate rewrite [conv_phrase] of the span [(next_start, next_end)],
    reached from the state [cur_key] of cost [prob]. [target] is the second
    argument of [phrase_prob]: [next_word] in the identity branch and
    [conv_phrase] in the phrase-table branch. *)
Definition extend (st : lattice) (prob : R) (conv_w0 : string) (cur_key : key)
  (next_start next_end : nat) (next_phrase conv_phrase target : string)
  : result lattice :=
  conv_w1 <- str_first conv_phrase ;;
  let next_key := (conv_phrase, (next_start, next_end)) in
  bp <- bigram_cost self conv_w0 conv_w1 ;;
  pp <- phrase_cost self next_phrase target ;;
  let next_prob := (prob + bp + pp)%R in
  relax st next_end next_key next_prob cur_key.

(** [next_phrase not in self.phrasemodel
     or next_word not in self.phrasemodel[next_phrase]]. *)
Definition not_self_mapped (next_phrase next_word : string) : bool :=
  match dict_get (phrasemodel self) next_phrase with
  | None => true
  | Some targets => negb (dict_in next_word targets)
  end.

(** The body of the loop over [best[curpos].items()]. *)
Definition visit (next_start next_end : nat) (next_phrase next_word : string)
  (st : lattice) (item : key * R) : result lattice :=
  let '((cur_phrase, (cur_start, cur_end)), prob) := item in
  let cur_key := (cur_phrase, (cur_start, cur_end)) in
  conv_w0 <- str_last cur_phrase ;;
  st <- (if Nat.eqb next_start next_end && not_self_mapped next_phrase next_word
         then extend st prob conv_w0 cur_key next_start next_end
                next_phrase next_phrase next_word
         else Ok st) ;;
  match dict_get (phrasemodel self) next_phrase with
  | Some targets =>
      for_each (dict_keys targets)
        (fun st conv_phrase =>
           extend st prob conv_w0 cur_key next_start next_end
             next_phrase conv_phrase conv_phrase)
        st
  | None => Ok st
  end.

(** The body of the loop over [next_end]. The items of [best[curpos]] are read
    once: the loop writes at [next_end > curpos] only. *)
Definition scan_span (sent : list string) (curpos : nat) (st : lattice)
  (next_end : nat) : result lattice :=
  let next_start := curpos + 1 in
  let next_phrase := join (slice sent next_start (next_end + 1)) in
  next_word <- list_getitem sent next_start ;;
  cell <- list_getitem (best st) curpos ;;
  for_each (dict_items cell) (visit next_start next_end next_phrase next_word) st.

(** The body of the loop over [curpos]. *)
Definition scan_position (sent : list string) (max_len : Z) (st : lattice)
  (curpos : nat) : result lattice :=
  for_each (next_ends (List.length sent) curpos max_len) (scan_span sent curpos) st.

Definition bracket (sent_without_symbol : list string)
  (start_symbol end_symbol : string) : list string :=
  [start_symbol] ++ sent_without_symbol ++ [end_symbol].

Definition initial_lattice (sent_len : nat) (start_symbol : string)
  : result lattice :=
  let best0 := repeat ([] : dict key R) sent_len in
  cell <- list_getitem best0 0 ;;
  best1 <- list_setitem best0 0 (dict_set cell (start_symbol, (0, 0)) 0%R) ;;
  Ok {| best := best1; before_pos := repeat ([] : dict key key) sent_len |}.

Definition forward (sent : list string) (start_symbol : string) (max_len : Z)
  : result lattice :=
  let sent_len := List.length sent in
  st0 <- initial_lattice sent_len start_symbol ;;
  for_each (positions sent_len) (scan_position sent max_len) st0.

(** ** Choice of the final state and backtrace *)

(** [min_val] starts at [float("inf")]. *)
Inductive xreal : Set :=
| Fin (r : R)
| PInf.

(** [min_val > val]. *)
Definition xgt (min_val : xreal) (val : R) : bool :=
  match min_val with
  | PInf => true
  | Fin m => if Rgt_dec m val then true else false
  end.

(** [for (key, (_, _)), val in best[ind].items():
       if min_val > val: min_key = key; min_val = val]. *)
Fixpoint select_min (items : list (key * R)) (min_key : string)
  (min_val : xreal) : string * xreal :=
  match items with
  | [] => (min_key, min_val)
  | ((phrase, _), val) :: rest =>
      if xgt min_val val
      then select_min rest phrase (Fin val)
      else select_min rest min_key min_val
  end.

(** [while end != 0: ...]. The loop is run with fuel; [None] stands for a
    loop that has not ended when the fuel is spent. *)
Fixpoint walk_back (fuel : nat) (bp : list (dict key key)) (phrase : string)
  (start end_ : nat) (ans : list string) : option (result (list string)) :=
  if Nat.eqb end_ 0 then Some (Ok ans)
  else
    match fuel with
    | O => None
    | S fuel' =>
        match (cell <- list_getitem bp end_ ;;
               dict_getitem cell (phrase, (start, end_))) with
        | Raise e => Some (Raise e)
        | Ok (phrase', (start', end')) =>
            walk_back fuel' bp phrase' start' end' (ans ++ [phrase'])
        end
    end.

Definition backtrace (st : lattice) (sent_len : nat)
  : option (result (list string)) :=
  let ans := [] in
  let ind := sent_len - 1 in
  let start := ind in
  let end_ := ind in
  match list_getitem (best st) ind with
  | Raise e => Some (Raise e)
  | Ok cell =>
      let '(min_key, _) := select_min (dict_items cell) "" PInf in
      let ans := ans ++ [min_key] in
      match (pcell <- list_getitem (before_pos st) ind ;;
             dict_getitem pcell (min_key, (start, end_))) with
      | Raise e => Some (Raise e)
      | Ok (phrase, (start', end')) =>
          let ans := ans ++ [phrase] in
          match walk_back sent_len (before_pos st) phrase start' end' ans with
          | Some (Ok ans) => Some (Ok (rev ans))
          | other => other
          end
      end
  end.

(** [search], without the logging of its verbose mode. *)
Definition search (sent_without_symbol : list string)
  (start_symbol end_symbol : string) (max_len : Z)
  : option (result (list string)) :=
  let sent := bracket sent_without_symbol start_symbol end_symbol in
  match forward sent start_symbol max_len with
  | Raise e => Some (Raise e)
  | Ok st => backtrace st (List.length sent)
  end.

End Search.

(** ** [convert] *)

Definition newline : string := String (ascii_of_nat 10) EmptyString.

Fixpoint drop (n : nat) (s : string) : string :=
  match n, s with
  | O, _ => s
  | S _, EmptyString => EmptyString
  | S n', String _ s' => drop n' s'
  end.

(** The anchor [$]: the end of the text, or just before a newline that ends
    the text. *)
Definition at_dollar (s : string) : bool :=
  String.eqb s "" || String.eqb s newline.

(** [re.sub(r"(^<s>|</s>$)", "", text)]: a scan from left to right that drops
    every match of the pattern and keeps every other character. [at_start]
    holds at offset 0 only (the anchor [^]); [skip] counts the characters of
    the current match still to drop. *)
Fixpoint sub_markers_from (at_start : bool) (skip : nat) (text : string)
  : string :=
  match text with
  | EmptyString => EmptyString
  | String c rest =>
      match skip with
      | S k => sub_markers_from false k rest
      | O =>
          if at_start && String.prefix "<s>" text
          then sub_markers_from false 2 rest
          else if String.prefix "</s>" text && at_dollar (drop 4 text)
          then sub_markers_from false 3 rest
          else String c (sub_markers_from false 0 rest)
      end
  end.

Definition re_sub_markers (text : string) : string :=
  sub_markers_from true 0 text.

(** [list(s)] for a [str]: its characters, as one-character strings. *)
Definition chars (s : string) : list string :=
  map (fun c => String c EmptyString) (list_ascii_of_string s).

(** [convert], called as the driver and the test call it, on a [str]. Its
    keyword arguments [start_symbol], [end_symbol] and [max_len] are not
    passed on: [search] runs with its own defaults. *)
Definition convert (self : KovLang) (sent_without_symbol : string)
  : option (result string) :=
  match search self (chars sent_without_symbol) "<s>" "</s>" 100 with
  | Some (Ok ans) =>
      let text := join ans in
      Some (Ok (re_sub_markers text))
  | Some (Raise e) => Some (Raise e)
  | None => None
  end.

(** The alias [ja2kov = convert]. *)
Definition ja2kov : KovLang -> string -> option (result string) := convert.

(** ** The verbose mode of [search] *)

(** One call of [self.logger.debug], by the values it formats. *)
Inductive log_line : Type :=
| LogToken (token : string)
| LogState (start end_ : nat) (key_ : string) (prob : R) (b_start b_end : nat)
    (b_key : string)
| LogPhrase (key_ word : string) (cost : R)
| LogBigram (first_char last_char : string) (cost : R).

(** A computation that logs and may raise. The lines logged before an
    exception stay logged. *)
Definition logging (A : Type) : Type :=
  list log_line -> list log_line * result A.

Definition log_ret {A : Type} (a : A) : logging A := fun log => (log, Ok a).

Definition log_bind {A B : Type} (c : logging A) (k : A -> logging B)
  : logging B :=
  fun log =>
    match c log with
    | (log', Ok a) => k a log'
    | (log', Raise e) => (log', Raise e)
    end.

Definition log_lift {A : Type} (c : result A) : logging A := fun log => (log, c).

Definition debug (line : log_line) : logging unit :=
  fun log => (log ++ [line], Ok tt).

Notation "x <~ c ;; k" := (log_bind c (fun x => k))
  (at level 61, c at next level, right associativity).

Fixpoint log_for_each {A : Type} (xs : list A) (body : A -> logging unit)
  : logging unit :=
  match xs with
  | [] => log_ret tt
  | x :: xs' => _ <~ body x ;; log_for_each xs' body
  end.

Section Verbose.

Variable self : KovLang.

(** The builtin [round(x, 4)]. *)
Variable round4 : R -> R.

(** The body of the loop over [best[i].items()] of the verbose output. *)
Definition log_state (sent : list string) (st : lattice) (i : nat)
  (item : key * R) : logging unit :=
  let '((key_, (start, end_)), prob) := item in
  pcell <~ log_lift (list_getitem (before_pos st) i) ;;
  before <~ log_lift (dict_getitem pcell (key_, (start, end_))) ;;
  let '(b_key, (b_start, b_end)) := before in
  _ <~ debug (LogState start end_ key_ (round4 prob) b_start b_end b_key) ;;
  let word := join (slice sent start (end_ + 1)) in
  pp <~ log_lift (phrase_prob self word key_ 0.95 1e6 true) ;;
  _ <~ debug (LogPhrase key_ word (round4 pp)) ;;
  k0 <~ log_lift (str_first key_) ;;
  b1 <~ log_lift (str_last b_key) ;;
  bp <~ log_lift (bigram_prob self b1 k0 0.95 0.95 1e6 true) ;;
  debug (LogBigram k0 b1 (round4 bp)).

(** The body of [for i in range(1, sent_len)]. *)
Definition log_position (sent : list string) (st : lattice) (i : nat)
  : logging unit :=
  token <~ log_lift (list_getitem sent i) ;;
  _ <~ debug (LogToken token) ;;
  cell <~ log_lift (list_getitem (best st) i) ;;
  log_for_each (dict_items cell) (log_state sent st i).

Definition log_lattice (sent : list string) (st : lattice) : logging unit :=
  log_for_each (py_range 1 (Z.of_nat (List.length sent))) (log_position sent st).

(** [search] with its [verbose] argument: the forward pass, the verbose
    output if asked for, the backtrace. *)
Definition search_logged (sent_without_symbol : list string)
  (start_symbol end_symbol : string) (max_len : Z) (verbose : bool)
  : list log_line -> list log_line * option (result (list string)) :=
  fun log =>
    let sent := bracket sent_without_symbol start_symbol end_symbol in
    match forward self sent start_symbol max_len with
    | Raise e => (log, Some (Raise e))
    | Ok st =>
        match (if verbose then log_lattice sent st else log_ret tt) log with
        | (log', Raise e) => (log', Some (Raise e))
        | (log', Ok _) => (log', backtrace st (List.length sent))
        end
    end.

(** [convert] with its [verbose] argument, which is all it passes on. *)
Definition convert_logged (sent_without_symbol : string) (verbose : bool)
  : list log_line -> list log_line * option (result string) :=
  fun log =>
    match search_logged (chars sent_without_symbol) "<s>" "</s>" 100 verbose log with
    | (log', Some (Ok ans)) =>
        let text := join ans in
        (log', Some (Ok (re_sub_markers text)))
    | (log', Some (Raise e)) => (log', Some (Raise e))
    | (log', None) => (log', None)
    end.

End Verbose.

(** ** The loaders *)

(** Code points below 256 that [str.rstrip()] strips. *)
Definition is_space (c : ascii) : bool :=
  let n := nat_of_ascii c in
  existsb (Nat.eqb n) [9; 10; 11; 12; 13; 28; 29; 30; 31; 32; 133; 160].

Fixpoint rstrip (s : string) : string :=
  match s with
  | EmptyString => EmptyString
  | String c s' =>
      match rstrip s' with
      | EmptyString => if is_space c then EmptyString else String c EmptyString
      | r => String c r
      end
  end.

(** [s.split(sep)] for a one-character separator. *)
Fixpoint split (sep : ascii) (s : string) : list string :=
  match s with
  | EmptyString => [EmptyString]
  | String c s' =>
      if Ascii.eqb c sep then EmptyString :: split sep s'
      else
        match split sep s' with
        | [] => [String c EmptyString]
        | field :: fields => String c field :: fields
        end
  end.

(** [a, b = l]: [ValueError] unless [l] has exactly two items. *)
Definition unpack2 {A : Type} (l : list A) : result (A * A) :=
  match l with
  | [a; b] => Ok (a, b)
  | _ => Raise ValueError
  end.

(** [sep in s] for a one-character [sep]. *)
Definition contains (sep : ascii) (s : string) : bool :=
  existsb (Ascii.eqb sep) (list_ascii_of_string s).

Definition tab : ascii := ascii_of_nat 9.
Definition comma : ascii := ascii_of_nat 44.
Definition blank : ascii := ascii_of_nat 32.

Section Loading.

(** The builtin [float]: the number a string denotes, if it denotes one. *)
Variable float_of_str : string -> option R.

(** [float(s)]: [ValueError] when [s] denotes no number. *)
Definition py_float (s : string) : result R :=
  match float_of_str s with
  | Some x => Ok x
  | None => Raise ValueError
  end.

(** The body of the loop of [load_phrase_model]. *)
Definition load_phrase_line (phrasemodel : dict string (dict string R))
  (line : string) : result (dict string (dict string R)) :=
  '(words, prob) <- unpack2 (split tab (rstrip line)) ;;
  prob <- py_float prob ;;
  '(w1, w2) <- unpack2 (split comma words) ;;
  let phrasemodel :=
    if negb (dict_in w1 phrasemodel) then dict_set phrasemodel w1 []
    else phrasemodel in
  inner <- dict_getitem phrasemodel w1 ;;
  Ok (dict_set phrasemodel w1 (dict_set inner w2 prob)).

Definition load_phrase_model (lines : list string)
  : result (dict string (dict string R)) :=
  for_each lines load_phrase_line [].

(** The body of the loop of [load_bigram_model], on the pair
    [(unimodel, bimodel)]. *)
Definition load_bigram_line
  (models : dict string R * dict (string * string) R) (line : string)
  : result (dict string R * dict (string * string) R) :=
  let '(unimodel, bimodel) := models in
  '(words, prob) <- unpack2 (split tab (rstrip line)) ;;
  prob <- py_float prob ;;
  if contains blank words
  then
    '(w0, w1) <- unpack2 (split blank words) ;;
    Ok (unimodel, dict_set bimodel (w0, w1) prob)
  else Ok (dict_set unimodel words prob, bimodel).

Definition load_bigram_model (lines : list string)
  : result (dict string R * dict (string * string) R) :=
  for_each lines load_bigram_line ([], []).

(** [KovLang.__init__], on the lines of the two model files. *)
Definition init (phrase_lines bigram_lines : list string) : result KovLang :=
  pm <- load_phrase_model phrase_lines ;;
  '(um, bm) <- load_bigram_model bigram_lines ;;
  Ok {| phrasemodel := pm; unimodel := um; bimodel := bm |}.

End Loading.

(** ** Definitions used in the statements *)

(** The data model's invariant: every stored probability lies in (0, 1]. *)
Definition is_probability (p : R) : Prop := (0 < p <= 1)%R.

Record tables_ok (self : KovLang) : Prop := {
  unimodel_ok : forall w p, dict_get (unimodel self) w = Some p -> is_probability p;
  bimodel_ok : forall ws p, dict_get (bimodel self) ws = Some p -> is_probability p;
  phrasemodel_ok : forall p1 targets p2 p,
    dict_get (phrasemodel self) p1 = Some targets ->
    dict_get targets p2 = Some p -> is_probability p
}.

(** The uniform floors of the two scoring functions at the default
    parameters. *)
Definition bigram_floor : R := ((1 - 0.95) * (1 - 0.95) * (1 / 1e6))%R.
Definition phrase_floor : R := ((1 - 0.95) * (1 / 1e6))%R.

(** The bigram term of [bigram_prob]: the entry of the pair, else the entry
    of the previous token under the wildcard ["*"] in the current-token slot. *)
Definition bigram_term (self : KovLang) (prev cur : string) : R :=
  match dict_get (bimodel self) (prev, cur) with
  | Some b => (0.95 * b)%R
  | None =>
      match dict_get (bimodel self) (prev, "*") with
      | Some b => (0.95 * b)%R
      | None => 0%R
      end
  end.

Definition unigram_term (self : KovLang) (cur : string) : R :=
  match dict_get (unimodel self) cur with
  | Some u => ((1 - 0.95) * 0.95 * u)%R
  | None => 0%R
  end.

Definition phrase_term (self : KovLang) (p1 p2 : string) : R :=
  match dict_get (phrasemodel self) p1 with
  | Some targets =>
      match dict_get targets p2 with
      | Some p => (0.95 * p)%R
      | None => 0%R
      end
  | None => 0%R
  end.

(** The probabilities the two scoring functions compute at the default
    parameters. *)
Definition bigram_p (self : KovLang) (prev cur : string) : R :=
  (bigram_floor + bigram_term self prev cur + unigram_term self cur)%R.

Definition phrase_p (self : KovLang) (p1 p2 : string) : R :=
  (phrase_floor + phrase_term self p1 p2)%R.

Module Spec.

(** The specification's [lookup_bigram_backoff(cur)]: the entry of the current
    token under a wildcard previous token. *)
Definition lookup_bigram_backoff (self : KovLang) (cur : string) : option R :=
  dict_get (bimodel self) ("*", cur).

(** The specification's [bigram_cost] at the default parameters. *)
Definition bigram_cost (self : KovLang) (prev cur : string) (raw : bool)
  : result R :=
  let p := bigram_floor in
  let p :=
    match dict_get (bimodel self) (prev, cur) with
    | Some b => (p + 0.95 * b)%R
    | None =>
        match lookup_bigram_backoff self cur with
        | Some b => (p + 0.95 * b)%R
        | None => p
        end
    end in
  let p := (p + unigram_term self cur)%R in
  if raw then Ok p else l <- math_log p ;; Ok (- l)%R.

End Spec.

(** ** Definitions used in the proofs and in the sample runs *)

(** A model whose only entry is a backoff entry in the specification's sense:
    wildcard previous token, current token ["b"]. *)
Definition wildcard_previous_model : KovLang :=
  {| phrasemodel := [];
     unimodel := [];
     bimodel := [(("*", "b"), 0.5%R)] |}.

(** The dictionaries [best[e]] and [before_pos[e]] of one position. *)
Definition cells : Type := (dict key R * dict key key)%type.

(** A transition that reaches a state: [(next_key, next_prob, cur_key)]. *)
Definition transition : Type := (key * R * key)%type.

Definition relax_cell (cp : cells) (t : transition) : cells :=
  let '(bc, pc) := cp in
  let '(next_key, next_prob, cur_key) := t in
  match dict_get bc next_key with
  | Some stored =>
      if Rge_dec stored next_prob
      then (dict_set bc next_key next_prob, dict_set pc next_key cur_key)
      else (bc, pc)
  | None => (dict_set bc next_key next_prob, dict_set pc next_key cur_key)
  end.

Definition cells_at (st : lattice) (e : nat) (cp : cells) : Prop :=
  nth_error (best st) e = Some (fst cp) /\
  nth_error (before_pos st) e = Some (snd cp).

Definition put_cells (st : lattice) (e : nat) (cp : cells) : lattice :=
  {| best := list_update (best st) e (fst cp);
     before_pos := list_update (before_pos st) e (snd cp) |}.

(** The cost of the transition from the state [pk] of cost [pc] to the state
    [k], as [search] adds it up. *)
Definition transition_cost (self : KovLang) (sent : list string)
  (pk : key) (pc : R) (k : key) : result R :=
  let '(conv_phrase, (next_start, next_end)) := k in
  conv_w0 <- str_last (fst pk) ;;
  conv_w1 <- str_first conv_phrase ;;
  bp <- bigram_cost self conv_w0 conv_w1 ;;
  pp <- phrase_cost self (join (slice sent next_start (next_end + 1))) conv_phrase ;;
  Ok (pc + bp + pp)%R.

(** The cost [extend] computes before it relaxes. *)
Definition step_cost (self : KovLang) (next_phrase : string) (prob : R)
  (conv_w0 conv_phrase target : string) : result R :=
  conv_w1 <- str_first conv_phrase ;;
  bp <- bigram_cost self conv_w0 conv_w1 ;;
  pp <- phrase_cost self next_phrase target ;;
  Ok (prob + bp + pp)%R.

(** The candidate rewrites of the span, each with the second argument of its
    call of [phrase_prob], in the order [visit] takes them. *)
Definition candidates (self : KovLang) (next_start next_end : nat)
  (next_phrase next_word : string) : list (string * string) :=
  (if Nat.eqb next_start next_end && not_self_mapped self next_phrase next_word
   then [(next_phrase, next_word)] else []) ++
  match dict_get (phrasemodel self) next_phrase with
  | Some targets => map (fun conv => (conv, conv)) (dict_keys targets)
  | None => []
  end.

(** The transitions out of one state, and out of the states [items]. *)
Definition item_cost (self : KovLang) (next_phrase : string) (item : key * R)
  (cand : string * string) : result R :=
  conv_w0 <- str_last (fst (fst item)) ;;
  step_cost self next_phrase (snd item) conv_w0 (fst cand) (snd cand).

Definition trace_of (self : KovLang) (next_start next_end : nat)
  (next_phrase : string) (items : list (key * R))
  (cands : list (string * string)) (ts : list transition) : Prop :=
  (forall t, In t ts ->
     exists item cand c,
       In item items /\ In cand cands /\
       item_cost self next_phrase item cand = Ok c /\
       t = ((fst cand, (next_start, next_end)), c, fst item)) /\
  (forall item cand, In item items -> In cand cands ->
     exists c,
       item_cost self next_phrase item cand = Ok c /\
       In ((fst cand, (next_start, next_end)), c, fst item) ts).

(** [best[e]] and [before_pos[e]] hold the same keys. *)
Definition same_keys (cp : cells) : Prop :=
  forall k, dict_get (fst cp) k = None <-> dict_get (snd cp) k = None.

(** The transitions of the span [(s, e)] out of the states [items], priced
    by [transition_cost]: each one starts at an item, and a rewrite that is
    tried from one item is tried from every item. *)
Definition span_trace (self : KovLang) (sent : list string) (s e : nat)
  (items : list (key * R)) (ts : list transition) : Prop :=
  (forall k c pk, In (k, c, pk) ts ->
     exists pc conv,
       In (pk, pc) items /\ k = (conv, (s, e)) /\
       transition_cost self sent pk pc k = Ok c) /\
  (forall conv c0 pk0 pk pc,
     In ((conv, (s, e)), c0, pk0) ts -> In (pk, pc) items ->
     exists c,
       transition_cost self sent pk pc (conv, (s, e)) = Ok c /\
       In ((conv, (s, e)), c, pk) ts).

(** The state [k] of cost [c] at position [e] is reached at least cost: its
    predecessor is a state of position [s - 1], the stored cost is the cost
    of the transition from it, and no state of position [s - 1] gives a
    cheaper transition. *)
Definition optimal_at (self : KovLang) (sent : list string) (st : lattice)
  (e : nat) (k : key) (c : R) : Prop :=
  exists conv s prev pcell pk pc,
    k = (conv, (s, e)) /\ (1 <= s <= e)%nat /\
    nth_error (best st) (s - 1) = Some prev /\
    nth_error (before_pos st) e = Some pcell /\
    dict_get pcell k = Some pk /\
    In (pk, pc) (dict_items prev) /\
    transition_cost self sent pk pc k = Ok c /\
    forall pk' pc', In (pk', pc') (dict_items prev) ->
      exists c', transition_cost self sent pk' pc' k = Ok c' /\ (c <= c')%R.

(** The invariant of the forward pass; [m] bounds the start of every span
    stored so far. *)
Record lattice_inv (self : KovLang) (sent : list string) (st : lattice)
  (m : nat) : Prop := {
  inv_len_best : List.length (best st) = List.length sent;
  inv_len_before : List.length (before_pos st) = List.length sent;
  inv_span : forall e cell k c,
    nth_error (best st) e = Some cell -> In (k, c) cell ->
    snd (snd k) = e /\ (fst (snd k) <= m)%nat;
  inv_pred : forall e pcell k pk,
    nth_error (before_pos st) e = Some pcell -> dict_get pcell k = Some pk ->
    (snd (snd pk) < e)%nat;
  inv_keys : forall e cell pcell,
    (1 <= e)%nat ->
    nth_error (best st) e = Some cell ->
    nth_error (before_pos st) e = Some pcell -> same_keys (cell, pcell);
  inv_opt : forall e cell k c,
    (1 <= e)%nat -> nth_error (best st) e = Some cell ->
    dict_get cell k = Some c -> optimal_at self sent st e k c
}.

(** No span that starts at [s] is stored at a position from [e0] on. *)
Definition fresh_from (st : lattice) (s e0 : nat) : Prop :=
  forall e cell k c,
    (e0 <= e)%nat -> nth_error (best st) e = Some cell -> In (k, c) cell ->
    (fst (snd k) < s)%nat.

(** [w] is the first item of least cost: every earlier item costs strictly
    more, no later item costs less. *)
Definition first_minimum (items : list (key * R)) (w : key * R) : Prop :=
  exists pre post,
    items = pre ++ w :: post /\
    (forall k c, In (k, c) pre -> (snd w < c)%R) /\
    (forall k c, In (k, c) post -> (snd w <= c)%R).

(** The backtrace from the predecessor [pred] of the final state on. *)
Definition finish_backtrace (st : lattice) (sent_len : nat) (min_key : string)
  (pred : key) : option (result (list string)) :=
  let '(phrase, (start, end_)) := pred in
  match walk_back sent_len (before_pos st) phrase start end_ [min_key; phrase] with
  | Some (Ok ans) => Some (Ok (rev ans))
  | other => other
  end.

Module SpecPath.

(** The specification's choice of the final state: the first state of least
    cost, with the span recorded for it. *)
Fixpoint select_min_state (items : list (key * R)) (chosen : option (key * R))
  : option (key * R) :=
  match items with
  | [] => chosen
  | (k, val) :: rest =>
      match chosen with
      | None => select_min_state rest (Some (k, val))
      | Some (_, min_val) =>
          if Rgt_dec min_val val
          then select_min_state rest (Some (k, val))
          else select_min_state rest chosen
      end
  end.

(** The specification's reconstruction: the phrase of the chosen state, then
    the phrases along its own predecessor chain until a span that ends at 0,
    reversed. *)
Definition backtrace (st : lattice) (sent_len : nat)
  : option (result (list string)) :=
  let ind := (sent_len - 1)%nat in
  match list_getitem (best st) ind with
  | Raise e => Some (Raise e)
  | Ok cell =>
      match select_min_state (dict_items cell) None with
      | None => Some (Raise KeyError)
      | Some (chosen, _) =>
          match (pcell <- list_getitem (before_pos st) ind ;;
                 dict_getitem pcell chosen) with
          | Raise e => Some (Raise e)
          | Ok pred => finish_backtrace st sent_len (fst chosen) pred
          end
      end
  end.

Definition search (self : KovLang) (sent_without_symbol : list string)
  (start_symbol end_symbol : string) (max_len : Z)
  : option (result (list string)) :=
  let sent := bracket sent_without_symbol start_symbol end_symbol in
  match forward self sent start_symbol max_len with
  | Raise e => Some (Raise e)
  | Ok st => backtrace st (List.length sent)
  end.

Definition convert (self : KovLang) (sent_without_symbol : string)
  : option (result string) :=
  match search self (chars sent_without_symbol) "<s>" "</s>" 100 with
  | Some (Ok ans) => Some (Ok (re_sub_markers (join ans)))
  | Some (Raise e) => Some (Raise e)
  | None => None
  end.

End SpecPath.

Definition chosen_pair (chosen : option (key * R)) : string * xreal :=
  match chosen with
  | None => ("", PInf)
  | Some ((phrase, _), val) => (phrase, Fin val)
  end.

(** *** Sample models and their lattices *)

Definition empty_model : KovLang :=
  {| phrasemodel := []; unimodel := []; bimodel := [] |}.

(** The lattice of the empty sentence under the empty model. *)
Definition empty_sentence_lattice : lattice :=
  {| best :=
       [ [(("<s>", (0, 0)), 0%R)];
         [(("</s>", (1, 1)),
           (0 + - ln (bigram_p empty_model ">" "<")
              + - ln (phrase_p empty_model "</s>" "</s>"))%R)] ];
     before_pos := [ []; [(("</s>", (1, 1)), ("<s>", (0, 0)))] ] |}.

(** A model with one entry in each table. *)
Definition small_model : KovLang :=
  {| phrasemodel := [("a", [("b", 0.9%R)])];
     unimodel := [("b", 0.25%R)];
     bimodel := [(("a", "b"), 0.5%R)] |}.

(** The phrase table rewrites the last token together with the end marker. *)
Definition wide_model : KovLang :=
  {| phrasemodel := [("a</s>", [("Y", 0.9%R)])];
     unimodel := [];
     bimodel := [] |}.

Definition wide_cost : R :=
  (0 + - ln (bigram_p wide_model ">" "Y")
     + - ln (phrase_p wide_model "a</s>" "Y"))%R.

Definition wide_identity_cost : R :=
  (0 + - ln (bigram_p wide_model ">" "a") + - ln (phrase_p wide_model "a" "a")
     + - ln (bigram_p wide_model "a" "<")
     + - ln (phrase_p wide_model "</s>" "</s>"))%R.

Definition wide_lattice : lattice :=
  {| best :=
       [ [(("<s>", (0, 0)), 0%R)];
         [(("a", (1, 1)),
           (0 + - ln (bigram_p wide_model ">" "a")
              + - ln (phrase_p wide_model "a" "a"))%R)];
         [(("Y", (1, 2)), wide_cost); (("</s>", (2, 2)), wide_identity_cost)] ];
     before_pos :=
       [ [];
         [(("a", (1, 1)), ("<s>", (0, 0)))];
         [(("Y", (1, 2)), ("<s>", (0, 0))); (("</s>", (2, 2)), ("a", (1, 1)))] ] |}.

(** The same rewrite is also offered for the end marker alone. *)
Definition alias_model : KovLang :=
  {| phrasemodel := [("</s>", [("X", 0.1%R)]); ("a</s>", [("X", 0.9%R)])];
     unimodel := [];
     bimodel := [] |}.

Definition alias_first_cost : R :=
  (0 + - ln (bigram_p alias_model ">" "a") + - ln (phrase_p alias_model "a" "a"))%R.

Definition alias_wide_cost : R :=
  (0 + - ln (bigram_p alias_model ">" "X")
     + - ln (phrase_p alias_model "a</s>" "X"))%R.

Definition alias_identity_cost : R :=
  (alias_first_cost + - ln (bigram_p alias_model "a" "<")
     + - ln (phrase_p alias_model "</s>" "</s>"))%R.

Definition alias_narrow_cost : R :=
  (alias_first_cost + - ln (bigram_p alias_model "a" "X")
     + - ln (phrase_p alias_model "</s>" "X"))%R.

Definition alias_lattice : lattice :=
  {| best :=
       [ [(("<s>", (0, 0)), 0%R)];
         [(("a", (1, 1)), alias_first_cost)];
         [(("X", (1, 2)), alias_wide_cost);
          (("</s>", (2, 2)), alias_identity_cost);
          (("X", (2, 2)), alias_narrow_cost)] ];
     before_pos :=
       [ [];
         [(("a", (1, 1)), ("<s>", (0, 0)))];
         [(("X", (1, 2)), ("<s>", (0, 0)));
          (("</s>", (2, 2)), ("a", (1, 1)));
          (("X", (2, 2)), ("a", (1, 1)))] ] |}.

(** *** The lattice of a sentence that nothing rewrites *)

Definition first_str (s : string) : string :=
  match s with
  | EmptyString => EmptyString
  | String c _ => String c EmptyString
  end.

Definition last_str (s : string) : string :=
  match last_char s with
  | Some c => String c EmptyString
  | None => EmptyString
  end.

Definition word (sent : list string) (i : nat) : string := nth i sent "".

Fixpoint path_cost (self : KovLang) (sent : list string) (i : nat) : R :=
  match i with
  | O => 0%R
  | S j =>
      (path_cost self sent j
       + - ln (bigram_p self (last_str (word sent j))
                 (first_str (word sent (S j))))
       + - ln (phrase_p self (word sent (S j)) (word sent (S j))))%R
  end.

Definition id_key (sent : list string) (i : nat) : key := (word sent i, (i, i)).

(** The lattice in which every position up to [m] holds the one state that
    leaves its word unchanged. *)
Definition id_best (self : KovLang) (sent : list string) (m i : nat)
  : dict key R :=
  if Nat.leb i m then [(id_key sent i, path_cost self sent i)] else [].

Definition id_before (sent : list string) (m i : nat) : dict key key :=
  if Nat.leb 1 i && Nat.leb i m then [(id_key sent i, id_key sent (i - 1))]
  else [].

Definition id_lattice (self : KovLang) (sent : list string) (m : nat)
  : lattice :=
  {| best := map (id_best self sent m) (seq 0 (List.length sent));
     before_pos := map (id_before sent m) (seq 0 (List.length sent)) |}.

(** *** Lines the loaders reject *)

(** The fields of a record: the line without its trailing whitespace, split
    at the tabs. *)
Definition fields (line : string) : list string := split tab (rstrip line).

(** A line that is no record: not two fields, or no number in the second. *)
Definition bad_record (float_of_str : string -> option R) (line : string)
  : Prop :=
  match fields line with
  | [_; prob] => float_of_str prob = None
  | _ => True
  end.

(** A line [load_phrase_model] rejects. *)
Definition bad_phrase_line (float_of_str : string -> option R) (line : string)
  : Prop :=
  match fields line with
  | [words; prob] =>
      float_of_str prob = None \/ List.length (split comma words) <> 2%nat
  | _ => True
  end.

(** A line [load_bigram_model] rejects. *)
Definition bad_bigram_line (float_of_str : string -> option R) (line : string)
  : Prop :=
  match fields line with
  | [words; prob] =>
      float_of_str prob = None \/
      (contains blank words = true /\ List.length (split blank words) <> 2%nat)
  | _ => True
  end.

Definition raises {A : Type} (c : result A) : Prop := exists e, c = Raise e.

Module SpecLoad.

(** The lines the specification has both loaders reject: those that are no
    record; for the phrase table also those whose phrase field is not two
    comma-separated phrases. *)
Definition bad_bigram_line (float_of_str : string -> option R) (line : string)
  : Prop :=
  bad_record float_of_str line.

End SpecLoad.

(** A bigram-table line with three tokens before the tab. *)
Definition three_token_line : string :=
  String.append "a b c" (String tab "0.5").

(** ** Definitions used in the further properties *)

(** [phrasemodel[w1][w2]], when both keys are present. *)
Definition phrasemodel_get (pm : dict string (dict string R)) (w1 w2 : string)
  : option R :=
  match dict_get pm w1 with
  | Some targets => dict_get targets w2
  | None => None
  end.

(** The value of the last record of [recs] under the key [k]. *)
Fixpoint last_value {K : Type} `{Hashable K} (recs : list (K * R)) (k : K)
  : option R :=
  match recs with
  | [] => None
  | (k', p) :: rest =>
      match last_value rest k with
      | Some q => Some q
      | None => if key_eqb k k' then Some p else None
      end
  end.

(** The record that a well-formed line of the phrase table holds. *)
Definition phrase_record (float_of_str : string -> option R) (line : string)
  : option ((string * string) * R) :=
  match fields line with
  | [words; prob] =>
      match float_of_str prob, split comma words with
      | Some p, [w1; w2] => Some ((w1, w2), p)
      | _, _ => None
      end
  | _ => None
  end.

(** The record that a well-formed line of the bigram table holds: a unigram
    entry or a bigram entry. *)
Inductive lm_record : Type :=
| Unigram (w : string) (p : R)
| Bigram (w0 w1 : string) (p : R).

Definition bigram_record (float_of_str : string -> option R) (line : string)
  : option lm_record :=
  match fields line with
  | [words; prob] =>
      match float_of_str prob with
      | Some p =>
          if contains blank words
          then match split blank words with
               | [w0; w1] => Some (Bigram w0 w1 p)
               | _ => None
               end
          else Some (Unigram words p)
      | None => None
      end
  | _ => None
  end.

Definition unigrams (recs : list lm_record) : list (string * R) :=
  flat_map (fun r => match r with Unigram w p => [(w, p)] | Bigram _ _ _ => [] end)
    recs.

Definition bigrams (recs : list lm_record) : list ((string * string) * R) :=
  flat_map (fun r => match r with Bigram w0 w1 p => [((w0, w1), p)] | Unigram _ _ => [] end)
    recs.

(** *** The forward pass as a whole *)

(** The end positions tried from [curpos] are those from [curpos + 1] up to
    [span_limit], exclusive. *)
Definition span_limit (sent_len curpos : nat) (max_len : Z) : nat :=
  curpos + 1 + List.length (next_ends sent_len curpos max_len).

(** The candidate rewrites of the span [(s, e)] of [sent]. *)
Definition rewrites (self : KovLang) (sent : list string) (s e : nat)
  : list string :=
  map fst (candidates self s e (join (slice sent s (e + 1))) (word sent s)).

(** [conv] is a rewrite that [search] tries for the span [(s, e)]: the token
    itself, for a span of one token that the phrase table does not map to
    itself, or a target of the span's phrase in the phrase table. *)
Definition is_rewrite (self : KovLang) (sent : list string) (s e : nat)
  (conv : string) : Prop :=
  let next_phrase := join (slice sent s (e + 1)) in
  (s = e /\ not_self_mapped self next_phrase (word sent s) = true /\
   conv = next_phrase) \/
  (exists targets,
     dict_get (phrasemodel self) next_phrase = Some targets /\
     In conv (dict_keys targets)).

(** A state the forward pass may store: a rewrite of a span of at most
    [max_len] tokens that starts after the start marker. *)
Definition admissible_state (self : KovLang) (sent : list string) (max_len : Z)
  (k : key) : Prop :=
  let '(conv, (s, e)) := k in
  (1 <= s <= e)%nat /\ (e < List.length sent)%nat /\
  (Z.of_nat e < Z.of_nat s + max_len)%Z /\ is_rewrite self sent s e conv.

(** The start state is in place, and every other stored state is admissible. *)
Definition states_admissible (self : KovLang) (sent : list string)
  (start_symbol : string) (max_len : Z) (st : lattice) : Prop :=
  nth_error (best st) 0 = Some [((start_symbol, (0, 0)), 0%R)] /\
  forall e cell k c,
    (1 <= e)%nat -> nth_error (best st) e = Some cell -> In (k, c) cell ->
    admissible_state self sent max_len k.

(** Every admissible state whose span starts at [s], with [lo <= s < hi], or
    starts at [hi] and ends before [e], is stored, provided some state is
    stored at the position before its span. *)
Definition states_complete (self : KovLang) (sent : list string) (max_len : Z)
  (hi e : nat) (st : lattice) : Prop :=
  forall conv s e' prev,
    admissible_state self sent max_len (conv, (s, e')) ->
    (s < hi \/ (s = hi /\ e' < e))%nat ->
    nth_error (best st) (s - 1) = Some prev -> prev <> [] ->
    exists cell c,
      nth_error (best st) e' = Some cell /\
      dict_get cell (conv, (s, e')) = Some c.

(** A path that goes on from the state [pk]: admissible states, the span of
    each starting right after the span of the state before it. *)
Fixpoint is_path (self : KovLang) (sent : list string) (max_len : Z)
  (pk : key) (path : list key) : Prop :=
  match path with
  | [] => True
  | k :: rest =>
      admissible_state self sent max_len k /\
      fst (snd k) = (snd (snd pk) + 1)%nat /\
      is_path self sent max_len k rest
  end.

(** The state a path ends in. *)
Fixpoint end_state (pk : key) (path : list key) : key :=
  match path with
  | [] => pk
  | k :: rest => end_state k rest
  end.

(** The cost of the path that goes on from the state [pk] of cost [pc]
    through the states of [path]. *)
Fixpoint chain_cost (self : KovLang) (sent : list string) (pk : key) (pc : R)
  (path : list key) : result R :=
  match path with
  | [] => Ok pc
  | k :: rest =>
      c <- transition_cost self sent pk pc k ;; chain_cost self sent k c rest
  end.

(** No key occurs twice in any dictionary of [best]. *)
Definition keys_unique (st : lattice) : Prop :=
  forall e cell, nth_error (best st) e = Some cell -> NoDup (dict_keys cell).

(** The lattice has one cell per position, and no stored phrase is empty. *)
Definition phrases_nonempty (sent : list string) (st : lattice) : Prop :=
  List.length (best st) = List.length sent /\
  List.length (before_pos st) = List.length sent /\
  forall e cell k c,
    nth_error (best st) e = Some cell -> In (k, c) cell -> fst k <> "".

(** No target of the phrase table is the empty string. *)
Definition targets_nonempty (self : KovLang) : Prop :=
  forall p targets t,
    dict_get (phrasemodel self) p = Some targets -> In t (dict_keys targets) ->
    t <> "".

(** A phrase table whose only target is the empty string. *)
Definition deleting_model : KovLang :=
  {| phrasemodel := [("a", [("", 0.5%R)])]; unimodel := []; bimodel := [] |}.

(** The probability a line holds: the number in its second field. *)
Definition line_prob (float_of_str : string -> option R) (line : string)
  : option R :=
  match fields line with
  | [_; prob] => float_of_str prob
  | _ => None
  end.

(** *** Sample model files *)

(** A reading of the three numerals of the sample files. *)
Definition sample_float (s : string) : option R :=
  if String.eqb s "0.9" then Some 0.9%R
  else if String.eqb s "0.5" then Some 0.5%R
  else if String.eqb s "0.25" then Some 0.25%R
  else None.

(** A phrase table whose second line repeats the pair of the first. *)
Definition sample_phrase_lines : list string :=
  [String.append "a,b" (String tab (String.append "0.5" newline));
   String.append "a,b" (String tab (String.append "0.9" newline))].

Definition sample_bigram_lines : list string :=
  [String.append "b" (String tab (String.append "0.25" newline));
   String.append "a b" (String tab (String.append "0.5" newline))].

(** The phrase of the input that the state [k] rewrites. *)
Definition source_phrase (sent : list string) (k : key) : string :=
  join (slice sent (fst (snd k)) (snd (snd k) + 1)).

(** A piece of a rewriting: a phrase of the input with what replaces it,
    either the phrase itself, for a single character, or one of its targets
    in the phrase table. *)
Definition is_piece (self : KovLang) (piece : string * string) : Prop :=
  (snd piece = fst piece /\ String.length (fst piece) = 1%nat) \/
  (exists targets,
     dict_get (phrasemodel self) (fst piece) = Some targets /\
     In (snd piece) (dict_keys targets)).

(** *** A state that is reached twice *)

(** Under [small_model] the token "a" stays or becomes "b"; the end marker is
    then reached from either state, first from ("a", (1, 1)). *)
Definition small_a_cost : R :=
  (0 + - ln (bigram_p small_model ">" "a") + - ln (phrase_p small_model "a" "a"))%R.

Definition small_b_cost : R :=
  (0 + - ln (bigram_p small_model ">" "b") + - ln (phrase_p small_model "a" "b"))%R.

Definition small_via_a_cost : R :=
  (small_a_cost + - ln (bigram_p small_model "a" "<")
     + - ln (phrase_p small_model "</s>" "</s>"))%R.

Definition small_via_b_cost : R :=
  (small_b_cost + - ln (bigram_p small_model "b" "<")
     + - ln (phrase_p small_model "</s>" "</s>"))%R.

(** The lattice after the first reach of the end marker. *)
Definition small_first_reach : lattice :=
  {| best :=
       [ [(("<s>", (0, 0)), 0%R)];
         [(("a", (1, 1)), small_a_cost); (("b", (1, 1)), small_b_cost)];
         [(("</s>", (2, 2)), small_via_a_cost)] ];
     before_pos :=
       [ [];
         [(("a", (1, 1)), ("<s>", (0, 0))); (("b", (1, 1)), ("<s>", (0, 0)))];
         [(("</s>", (2, 2)), ("a", (1, 1)))] ] |}.

(** The lattice of the forward pass: the second reach has overwritten cost
    and predecessor. *)
Definition small_lattice : lattice :=
  {| best :=
       [ [(("<s>", (0, 0)), 0%R)];
         [(("a", (1, 1)), small_a_cost); (("b", (1, 1)), small_b_cost)];
         [(("</s>", (2, 2)), small_via_b_cost)] ];
     before_pos :=
       [ [];
         [(("a", (1, 1)), ("<s>", (0, 0))); (("b", (1, 1)), ("<s>", (0, 0)))];
         [(("</s>", (2, 2)), ("b", (1, 1)))] ] |}.

(** *** A phrase of two tokens *)

(** The phrase table rewrites the two tokens "a", "b" together. *)
Definition pair_model : KovLang :=
  {| phrasemodel := [("ab", [("Z", 0.9%R)])]; unimodel := []; bimodel := [] |}.

Definition pair_a_cost : R :=
  (0 + - ln (bigram_p pair_model ">" "a") + - ln (phrase_p pair_model "a" "a"))%R.

Definition pair_b_cost : R :=
  (pair_a_cost + - ln (bigram_p pair_model "a" "b")
     + - ln (phrase_p pair_model "b" "b"))%R.

Definition pair_Z_cost : R :=
  (0 + - ln (bigram_p pair_model ">" "Z") + - ln (phrase_p pair_model "ab" "Z"))%R.

Definition pair_via_b_cost : R :=
  (pair_b_cost + - ln (bigram_p pair_model "b" "<")
     + - ln (phrase_p pair_model "</s>" "</s>"))%R.

Definition pair_via_Z_cost : R :=
  (pair_Z_cost + - ln (bigram_p pair_model "Z" "<")
     + - ln (phrase_p pair_model "</s>" "</s>"))%R.

(** The lattice of "a", "b" with a maximum phrase length of 1: every token is
    on its own. *)
Definition pair_short_lattice : lattice :=
  {| best :=
       [ [(("<s>", (0, 0)), 0%R)];
         [(("a", (1, 1)), pair_a_cost)];
         [(("b", (2, 2)), pair_b_cost)];
         [(("</s>", (3, 3)), pair_via_b_cost)] ];
     before_pos :=
       [ [];
         [(("a", (1, 1)), ("<s>", (0, 0)))];
         [(("b", (2, 2)), ("a", (1, 1)))];
         [(("</s>", (3, 3)), ("b", (2, 2)))] ] |}.

(** The same with the default maximum phrase length: the phrase "ab" is
    rewritten to "Z", and the end marker is reached more cheaply. *)
Definition pair_long_lattice : lattice :=
  {| best :=
       [ [(("<s>", (0, 0)), 0%R)];
         [(("a", (1, 1)), pair_a_cost)];
         [(("Z", (1, 2)), pair_Z_cost); (("b", (2, 2)), pair_b_cost)];
         [(("</s>", (3, 3)), pair_via_Z_cost)] ];
     before_pos :=
       [ [];
         [(("a", (1, 1)), ("<s>", (0, 0)))];
         [(("Z", (1, 2)), ("<s>", (0, 0))); (("b", (2, 2)), ("a", (1, 1)))];
         [(("</s>", (3, 3)), ("Z", (1, 2)))] ] |}.

(** *** The backtrace as the specification has it (C10) *)

Module SpecBacktrace.

(** The specification's sentence: [search] returns without an exception only
    when the state of least cost at the final position has the span of the
    end marker alone. *)
Definition returns_only_from_narrow_state (self : KovLang)
  (tokens : list string) (start_symbol end_symbol : string) (max_len : Z)
  : Prop :=
  let N := (List.length tokens + 1)%nat in
  forall st cell phrase s c ans,
    forward self (bracket tokens start_symbol end_symbol) start_symbol max_len =
    Ok st ->
    nth_error (best st) N = Some cell ->
    first_minimum (dict_items cell) ((phrase, (s, N)), c) ->
    search self tokens start_symbol end_symbol max_len = Some (Ok ans) ->
    s = N.

End SpecBacktrace.

(** * Theorems *)

(** ** Scoring *)

Lemma py_div_default : py_div 1 1e6 = Ok (1 / 1e6)%R.
Proof.
  unfold py_div. destruct (Req_dec_T 1e6 0) as [E | _]; [lra | reflexivity].
Qed.

Lemma math_log_pos (x : R) : (0 < x)%R -> math_log x = Ok (ln x).
Proof.
  intros Hx. unfold math_log. destruct (Rlt_dec 0 x); [reflexivity | contradiction].
Qed.

Lemma math_log_nonpos (x : R) : (x <= 0)%R -> math_log x = Raise ValueError.
Proof.
  intros Hx. unfold math_log. destruct (Rlt_dec 0 x); [lra | reflexivity].
Qed.

Lemma bigram_prob_raw (self : KovLang) (prev cur : string) :
  bigram_prob self prev cur 0.95 0.95 1e6 false = Ok (bigram_p self prev cur).
Proof.
  unfold bigram_prob, bigram_p, bigram_term, unigram_term, bigram_floor.
  rewrite py_div_default. simpl.
  destruct (dict_get (bimodel self) (prev, cur));
    [| destruct (dict_get (bimodel self) (prev, "*"))];
    destruct (dict_get (unimodel self) cur); f_equal; lra.
Qed.

Lemma bigram_prob_log (self : KovLang) (prev cur : string) :
  bigram_prob self prev cur 0.95 0.95 1e6 true =
  (l <- math_log (bigram_p self prev cur) ;; Ok (- l)%R).
Proof.
  unfold bigram_prob, bigram_p, bigram_term, unigram_term, bigram_floor.
  rewrite py_div_default. simpl.
  destruct (dict_get (bimodel self) (prev, cur));
    [| destruct (dict_get (bimodel self) (prev, "*"))];
    destruct (dict_get (unimodel self) cur); do 2 f_equal; lra.
Qed.

Lemma phrase_prob_raw (self : KovLang) (p1 p2 : string) :
  phrase_prob self p1 p2 0.95 1e6 false = Ok (phrase_p self p1 p2).
Proof.
  unfold phrase_prob, phrase_p, phrase_term, phrase_floor.
  rewrite py_div_default. simpl.
  destruct (dict_get (phrasemodel self) p1) as [targets |];
    [destruct (dict_get targets p2) |]; f_equal; lra.
Qed.

Lemma phrase_prob_log (self : KovLang) (p1 p2 : string) :
  phrase_prob self p1 p2 0.95 1e6 true =
  (l <- math_log (phrase_p self p1 p2) ;; Ok (- l)%R).
Proof.
  unfold phrase_prob, phrase_p, phrase_term, phrase_floor.
  rewrite py_div_default. simpl.
  destruct (dict_get (phrasemodel self) p1) as [targets |];
    [destruct (dict_get targets p2) |]; do 2 f_equal; lra.
Qed.

Lemma dict_get_In {K V : Type} `{Hashable K} (d : dict K V) (k : K) (v : V) :
  dict_get d k = Some v -> exists k', In (k', v) d.
Proof.
  induction d as [| [k' v'] d IH]; simpl; [discriminate |].
  destruct (key_eqb k k').
  - intros [= ->]. exists k'. now left.
  - intros E. destruct (IH E) as [k'' Hin]. exists k''. now right.
Qed.

Lemma dict_get_Forall {K V : Type} `{Hashable K} (P : V -> Prop) (d : dict K V) :
  Forall (fun kv => P (snd kv)) d ->
  forall k v, dict_get d k = Some v -> P v.
Proof.
  intros HF k v E. destruct (dict_get_In d k v E) as [k' Hin].
  rewrite Forall_forall in HF. exact (HF _ Hin).
Qed.

(** C1, as stated, fails: for the pair (a, b) the specification adds the
    entry stored under (wildcard, b), the code looks under (a, wildcard) and
    adds nothing. *)
Lemma bigram_backoff_key_counterexample :
  bigram_prob wildcard_previous_model "a" "b" 0.95 0.95 1e6 false
  <> Spec.bigram_cost wildcard_previous_model "a" "b" true.
Proof.
  rewrite bigram_prob_raw.
  unfold Spec.bigram_cost, Spec.lookup_bigram_backoff, bigram_p, bigram_term,
    unigram_term, bigram_floor, wildcard_previous_model.
  simpl. intros E. injection E as E. lra.
Qed.

(** C1, amended: at the default parameters [bigram_prob] returns [p] under
    the raw-probability flag and [- ln p] otherwise (a [ValueError] when
    [p <= 0]), where [p] is the floor, plus 0.95 times the entry of
    (prev, cur) when present, otherwise plus 0.95 times the entry of
    (prev, "*") when present, plus 0.05 * 0.95 times the unigram entry of
    [cur] when present. *)
Theorem bigram_prob_formula (self : KovLang) (prev cur : string) :
  bigram_prob self prev cur 0.95 0.95 1e6 false = Ok (bigram_p self prev cur)
  /\ bigram_prob self prev cur 0.95 0.95 1e6 true =
     (if Rlt_dec 0 (bigram_p self prev cur)
      then Ok (- ln (bigram_p self prev cur))%R
      else Raise ValueError).
Proof.
  split; [apply bigram_prob_raw |].
  rewrite bigram_prob_log. unfold math_log.
  destruct (Rlt_dec 0 (bigram_p self prev cur)); reflexivity.
Qed.

Section Positivity.

Variable self : KovLang.
Hypothesis Hok : tables_ok self.

Lemma bigram_term_bounds (prev cur : string) :
  (0 <= bigram_term self prev cur <= 0.95)%R.
Proof.
  unfold bigram_term.
  destruct (dict_get (bimodel self) (prev, cur)) as [b |] eqn:E1.
  - pose proof (bimodel_ok self Hok _ _ E1) as Hb. unfold is_probability in Hb. lra.
  - destruct (dict_get (bimodel self) (prev, "*")) as [b |] eqn:E2; [| lra].
    pose proof (bimodel_ok self Hok _ _ E2) as Hb. unfold is_probability in Hb. lra.
Qed.

Lemma unigram_term_bounds (cur : string) :
  (0 <= unigram_term self cur <= 0.0475)%R.
Proof.
  unfold unigram_term.
  destruct (dict_get (unimodel self) cur) as [u |] eqn:E; [| lra].
  pose proof (unimodel_ok self Hok _ _ E) as Hu. unfold is_probability in Hu. lra.
Qed.

Lemma phrase_term_bounds (p1 p2 : string) :
  (0 <= phrase_term self p1 p2 <= 0.95)%R.
Proof.
  unfold phrase_term.
  destruct (dict_get (phrasemodel self) p1) as [targets |] eqn:E1; [| lra].
  destruct (dict_get targets p2) as [p |] eqn:E2; [| lra].
  pose proof (phrasemodel_ok self Hok _ _ _ _ E1 E2) as Hp.
  unfold is_probability in Hp. lra.
Qed.

Lemma bigram_p_bounds (prev cur : string) : (0 < bigram_p self prev cur < 1)%R.
Proof.
  unfold bigram_p, bigram_floor.
  pose proof (bigram_term_bounds prev cur).
  pose proof (unigram_term_bounds cur). lra.
Qed.

Lemma phrase_p_bounds (p1 p2 : string) : (0 < phrase_p self p1 p2 < 1)%R.
Proof.
  unfold phrase_p, phrase_floor. pose proof (phrase_term_bounds p1 p2). lra.
Qed.

Lemma neg_ln_pos (p : R) : (0 < p < 1)%R -> (0 < - ln p)%R.
Proof.
  intros [H0 H1]. pose proof (ln_increasing p 1 H0 H1) as Hln.
  rewrite ln_1 in Hln. lra.
Qed.

Lemma bigram_cost_ok (w0 w1 : string) :
  bigram_cost self w0 w1 = Ok (- ln (bigram_p self w0 w1))%R.
Proof.
  unfold bigram_cost. rewrite bigram_prob_log, math_log_pos; [reflexivity |].
  apply bigram_p_bounds.
Qed.

Lemma phrase_cost_ok (p1 p2 : string) :
  phrase_cost self p1 p2 = Ok (- ln (phrase_p self p1 p2))%R.
Proof.
  unfold phrase_cost. rewrite phrase_prob_log, math_log_pos; [reflexivity |].
  apply phrase_p_bounds.
Qed.

End Positivity.

(** C6: when every stored probability lies in (0, 1], at the default
    parameters the probability behind every bigram query and every phrase
    query lies strictly between 0 and 1, whatever is absent from the tables,
    so both costs are returned (no domain error of the logarithm) and are
    strictly positive real numbers. *)
Theorem costs_positive (self : KovLang) (Hok : tables_ok self)
  (w1 w2 p1 p2 : string) :
  (exists p c,
      bigram_prob self w1 w2 0.95 0.95 1e6 false = Ok p /\ (0 < p < 1)%R /\
      bigram_cost self w1 w2 = Ok c /\ c = (- ln p)%R /\ (0 < c)%R)
  /\
  (exists p c,
      phrase_prob self p1 p2 0.95 1e6 false = Ok p /\ (0 < p < 1)%R /\
      phrase_cost self p1 p2 = Ok c /\ c = (- ln p)%R /\ (0 < c)%R).
Proof.
  split.
  - exists (bigram_p self w1 w2), (- ln (bigram_p self w1 w2))%R.
    pose proof (bigram_p_bounds self Hok w1 w2) as Hb.
    repeat split; try apply Hb.
    + apply bigram_prob_raw.
    + now apply bigram_cost_ok.
    + now apply neg_ln_pos.
  - exists (phrase_p self p1 p2), (- ln (phrase_p self p1 p2))%R.
    pose proof (phrase_p_bounds self Hok p1 p2) as Hb.
    repeat split; try apply Hb.
    + apply phrase_prob_raw.
    + now apply phrase_cost_ok.
    + now apply neg_ln_pos.
Qed.

(** ** The position loops *)

Lemma py_range_In (a : nat) (b : Z) (e : nat) :
  In e (py_range a b) <-> (a <= e)%nat /\ (Z.of_nat e < b)%Z.
Proof.
  unfold py_range. rewrite in_seq. lia.
Qed.

Lemma positions_seq (N : nat) : positions (S N) = seq 0 N.
Proof.
  unfold positions, py_range. f_equal. lia.
Qed.

Lemma positions_pred (n : nat) : (1 <= n)%nat -> positions n = seq 0 (n - 1).
Proof.
  intros Hn. unfold positions, py_range. f_equal. lia.
Qed.

Lemma next_ends_In (sent_len curpos : nat) (max_len : Z) (e : nat) :
  In e (next_ends sent_len curpos max_len) <->
  (curpos + 1 <= e)%nat /\ (e < sent_len)%nat /\
  (Z.of_nat e < Z.of_nat curpos + 1 + max_len)%Z.
Proof.
  unfold next_ends. rewrite py_range_In. lia.
Qed.

(** C2, as stated, fails: for the empty input (N = 1) and the default L = 100
    the end position 1 is visited from position 0, although the interval
    [cur + 1, min(N, cur + 1 + L)) of the claim is empty. *)
Lemma next_end_interval_counterexample :
  In 1%nat (next_ends 2 0 100) /\
  ~ (Z.of_nat 1 < Z.min (Z.of_nat 1) (Z.of_nat 0 + 1 + 100))%Z.
Proof.
  split; [rewrite next_ends_In; lia | lia].
Qed.

(** C2, amended: with N the bracketed length minus 1, [cur] runs over
    0 .. N-1 in increasing order, and for each [cur] the end positions
    [next_end] run, in increasing order, exactly over the half-open interval
    [cur + 1, min(N + 1, cur + 1 + L)): the upper bound is the bracketed
    length itself, so that the end marker at N is reached. *)
Theorem next_end_interval (N cur : nat) (L : Z) :
  positions (S N) = seq 0 N /\
  next_ends (S N) cur L =
    seq (cur + 1)
      (Z.to_nat (Z.min (Z.of_nat N + 1) (Z.of_nat cur + 1 + L) - (Z.of_nat cur + 1))) /\
  forall e : nat,
    In e (next_ends (S N) cur L) <->
    (cur + 1 <= e)%nat /\
    (Z.of_nat e < Z.min (Z.of_nat N + 1) (Z.of_nat cur + 1 + L))%Z.
Proof.
  split; [apply positions_seq |]. split.
  - unfold next_ends, py_range. f_equal. lia.
  - intros e. rewrite next_ends_In. lia.
Qed.

(** ** Lists and dictionaries *)

#[export] Instance HashableLaws_string : HashableLaws string.
Proof. constructor. exact String.eqb_eq. Qed.

#[export] Instance HashableLaws_nat : HashableLaws nat.
Proof. constructor. exact Nat.eqb_eq. Qed.

#[export] Instance HashableLaws_pair {A B : Type} `{HashableLaws A} `{HashableLaws B}
  : HashableLaws (A * B).
Proof.
  constructor. intros [a1 a2] [b1 b2]. simpl.
  rewrite andb_true_iff, !key_eqb_eq.
  split; [intros [-> ->]; reflexivity | intros E; inversion E; auto].
Qed.

Section DictFacts.

Context {K V : Type} `{HashableLaws K}.

Lemma key_eqb_refl (k : K) : key_eqb k k = true.
Proof. now apply key_eqb_eq. Qed.

Lemma key_eqb_neq (a b : K) : a <> b -> key_eqb a b = false.
Proof.
  intros Hne. destruct (key_eqb a b) eqn:E; [| reflexivity].
  apply key_eqb_eq in E. contradiction.
Qed.

Lemma key_eq_dec (a b : K) : {a = b} + {a <> b}.
Proof.
  destruct (key_eqb a b) eqn:E.
  - left. now apply key_eqb_eq.
  - right. intros ->. rewrite key_eqb_refl in E. discriminate.
Qed.

Lemma dict_get_set_same (d : dict K V) (k : K) (v : V) :
  dict_get (dict_set d k v) k = Some v.
Proof.
  induction d as [| [k' v'] d IH]; simpl.
  - now rewrite key_eqb_refl.
  - destruct (key_eqb k k') eqn:E; simpl; rewrite E; [reflexivity | exact IH].
Qed.

Lemma dict_get_set_other (d : dict K V) (k k' : K) (v : V) :
  k' <> k -> dict_get (dict_set d k v) k' = dict_get d k'.
Proof.
  intros Hne. induction d as [| [k0 v0] d IH]; simpl.
  - now rewrite key_eqb_neq.
  - destruct (key_eqb k k0) eqn:E; simpl.
    + apply key_eqb_eq in E. subst k0. now rewrite key_eqb_neq.
    + destruct (key_eqb k' k0); [reflexivity | exact IH].
Qed.

Lemma dict_set_In (d : dict K V) (k : K) (v : V) (x : K * V) :
  In x (dict_set d k v) -> x = (k, v) \/ In x d.
Proof.
  induction d as [| [k0 v0] d IH]; simpl.
  - intros [<- | []]. now left.
  - destruct (key_eqb k k0) eqn:E; simpl.
    + apply key_eqb_eq in E. subst k0. intros [<- | Hin]; auto.
    + intros [<- | Hin]; auto. destruct (IH Hin); auto.
Qed.

Lemma dict_set_fresh (d : dict K V) (k : K) (v : V) :
  dict_get d k = None -> dict_set d k v = d ++ [(k, v)].
Proof.
  induction d as [| [k0 v0] d IH]; simpl; [reflexivity |].
  destruct (key_eqb k k0); [discriminate |].
  intros E. now rewrite IH.
Qed.

Lemma dict_get_Some_In (d : dict K V) (k : K) (v : V) :
  dict_get d k = Some v -> In (k, v) d.
Proof.
  induction d as [| [k0 v0] d IH]; simpl; [discriminate |].
  destruct (key_eqb k k0) eqn:E.
  - apply key_eqb_eq in E. subst k0. intros [= ->]. now left.
  - intros Hg. right. now apply IH.
Qed.

Lemma dict_in_keys (d : dict K V) (k : K) :
  In k (dict_keys d) <-> dict_get d k <> None.
Proof.
  induction d as [| [k0 v0] d IH]; simpl.
  - split; [intros [] | intros Hc; now elim Hc].
  - destruct (key_eqb k k0) eqn:E.
    + apply key_eqb_eq in E. subst k0. split; [discriminate | now left].
    + rewrite <- IH. split; [intros [-> | Hin]; auto | auto].
      rewrite key_eqb_refl in E. discriminate.
Qed.

End DictFacts.

Lemma nth_error_list_update {A : Type} (l : list A) (i j : nat) (x : A) :
  nth_error (list_update l i x) j =
  if Nat.eqb i j then (if Nat.ltb i (List.length l) then Some x else None)
  else nth_error l j.
Proof.
  revert i j. induction l as [| y l IH]; intros i j; simpl.
  - destruct (Nat.eqb i j); destruct j; reflexivity.
  - destruct i, j; simpl; try reflexivity.
    rewrite IH. destruct (Nat.eqb i j); [| reflexivity].
    reflexivity.
Qed.

Lemma length_list_update {A : Type} (l : list A) (i : nat) (x : A) :
  List.length (list_update l i x) = List.length l.
Proof.
  revert i. induction l as [| y l IH]; intros [| i]; simpl; auto.
Qed.

Lemma list_update_same {A : Type} (l : list A) (i : nat) (x : A) :
  nth_error l i = Some x -> list_update l i x = l.
Proof.
  revert i. induction l as [| y l IH]; intros [| i]; simpl; try discriminate.
  - now intros [= ->].
  - intros E. now rewrite IH.
Qed.

Lemma list_update_twice {A : Type} (l : list A) (i : nat) (x y : A) :
  list_update (list_update l i x) i y = list_update l i y.
Proof.
  revert i. induction l as [| z l IH]; intros [| i]; simpl; auto.
  now rewrite IH.
Qed.

Lemma list_getitem_Ok {A : Type} (l : list A) (i : nat) (x : A) :
  list_getitem l i = Ok x <-> nth_error l i = Some x.
Proof.
  unfold list_getitem. destruct (nth_error l i); split; congruence.
Qed.

Lemma list_setitem_Ok {A : Type} (l : list A) (i : nat) (x : A) :
  (i < List.length l)%nat -> list_setitem l i x = Ok (list_update l i x).
Proof.
  intros Hi. unfold list_setitem.
  destruct (Nat.ltb_spec i (List.length l)); [reflexivity | lia].
Qed.

Lemma bind_Ok {A B : Type} (c : result A) (k : A -> result B) (b : B) :
  bind c k = Ok b -> exists a, c = Ok a /\ k a = Ok b.
Proof.
  destruct c as [a | e]; simpl; [eauto | discriminate].
Qed.

Lemma Forall2_In_l {A B : Type} (P : A -> B -> Prop) (l1 : list A)
  (l2 : list B) (x : A) :
  Forall2 P l1 l2 -> In x l1 -> exists y, In y l2 /\ P x y.
Proof.
  induction 1 as [| a b l1 l2 Hab HF IH]; simpl; [intros [] |].
  intros [-> | Hin]; [eauto |].
  destruct (IH Hin) as (y & Hy & HP). eauto.
Qed.

Lemma Forall2_In_r {A B : Type} (P : A -> B -> Prop) (l1 : list A)
  (l2 : list B) (y : B) :
  Forall2 P l1 l2 -> In y l2 -> exists x, In x l1 /\ P x y.
Proof.
  induction 1 as [| a b l1 l2 Hab HF IH]; simpl; [intros [] |].
  intros [-> | Hin]; [eauto |].
  destruct (IH Hin) as (x & Hx & HP). eauto.
Qed.

Lemma for_each_app {A S : Type} (xs ys : list A) (body : S -> A -> result S)
  (s : S) :
  for_each (xs ++ ys) body s = (s' <- for_each xs body s ;; for_each ys body s').
Proof.
  revert s. induction xs as [| x xs IH]; intros s; simpl; [reflexivity |].
  destruct (body s x); simpl; [apply IH | reflexivity].
Qed.

(** ** The relaxation on one pair of cells *)

Lemma nth_error_lt {A : Type} (l : list A) (i : nat) (x : A) :
  nth_error l i = Some x -> (i < List.length l)%nat.
Proof.
  intros E. apply nth_error_Some. congruence.
Qed.

Lemma put_cells_same (st : lattice) (e : nat) (cp : cells) :
  cells_at st e cp -> put_cells st e cp = st.
Proof.
  intros [Hb Hp]. destruct st as [b p]. unfold put_cells. simpl in *.
  now rewrite !list_update_same.
Qed.

Lemma put_cells_twice (st : lattice) (e : nat) (cp cp' : cells) :
  put_cells (put_cells st e cp) e cp' = put_cells st e cp'.
Proof.
  unfold put_cells. simpl. now rewrite !list_update_twice.
Qed.

Lemma cells_at_put (st : lattice) (e : nat) (cp cp' : cells) :
  cells_at st e cp -> cells_at (put_cells st e cp') e cp'.
Proof.
  intros [Hb Hp]. unfold cells_at, put_cells. simpl.
  rewrite !nth_error_list_update, !Nat.eqb_refl.
  apply nth_error_lt in Hb, Hp.
  destruct (Nat.ltb_spec e (List.length (best st))); [| lia].
  destruct (Nat.ltb_spec e (List.length (before_pos st))); [| lia].
  split; reflexivity.
Qed.

Lemma store_cells (st : lattice) (e : nat) (cp : cells) (k : key) (c : R)
  (pk : key) :
  cells_at st e cp ->
  store st e k c pk =
  Ok (put_cells st e (dict_set (fst cp) k c, dict_set (snd cp) k pk)).
Proof.
  intros [Hb Hp]. unfold store, list_getitem. rewrite Hb, Hp. simpl.
  rewrite !list_setitem_Ok by (eapply nth_error_lt; eassumption).
  reflexivity.
Qed.

Lemma relax_cells (st : lattice) (e : nat) (cp : cells) (k : key) (c : R)
  (pk : key) :
  cells_at st e cp ->
  relax st e k c pk = Ok (put_cells st e (relax_cell cp (k, c, pk))).
Proof.
  intros Hat. pose proof Hat as [Hb Hp]. destruct cp as [bc pc]. simpl in *.
  unfold relax, list_getitem. rewrite Hb. simpl.
  destruct (dict_get bc k) as [stored |].
  - destruct (Rge_dec stored c).
    + now rewrite (store_cells st e (bc, pc)).
    + now rewrite put_cells_same.
  - now rewrite (store_cells st e (bc, pc)).
Qed.

Section Trace.

Variable self : KovLang.
Variables next_start next_end : nat.
Variables next_phrase next_word : string.

Lemma extend_cells (st st' : lattice) (cp : cells) (prob : R)
  (conv_w0 : string) (cur_key : key) (conv_phrase target : string) :
  cells_at st next_end cp ->
  extend self st prob conv_w0 cur_key next_start next_end next_phrase
    conv_phrase target = Ok st' ->
  exists c,
    step_cost self next_phrase prob conv_w0 conv_phrase target = Ok c /\
    st' = put_cells st next_end
            (relax_cell cp ((conv_phrase, (next_start, next_end)), c, cur_key)).
Proof.
  intros Hat. unfold extend, step_cost.
  destruct (str_first conv_phrase) as [w1 |]; simpl; [| discriminate].
  destruct (bigram_cost self conv_w0 w1) as [bp |]; simpl; [| discriminate].
  destruct (phrase_cost self next_phrase target) as [pp |]; simpl; [| discriminate].
  rewrite (relax_cells st next_end cp) by assumption.
  intros [= <-]. eauto.
Qed.

Lemma candidates_cells (cands : list (string * string)) (prob : R)
  (conv_w0 : string) (cur_key : key) :
  forall (st st' : lattice) (cp : cells),
    cells_at st next_end cp ->
    for_each cands
      (fun st cand =>
         extend self st prob conv_w0 cur_key next_start next_end next_phrase
           (fst cand) (snd cand)) st = Ok st' ->
    exists ts,
      st' = put_cells st next_end (fold_left relax_cell ts cp) /\
      Forall2
        (fun cand t =>
           exists c, step_cost self next_phrase prob conv_w0 (fst cand) (snd cand) = Ok c /\
                     t = ((fst cand, (next_start, next_end)), c, cur_key))
        cands ts.
Proof.
  induction cands as [| cand cands IH]; intros st st' cp Hat; simpl.
  - intros [= <-]. exists []. simpl. split; [| constructor].
    symmetry. now apply put_cells_same.
  - intros Hrun. apply bind_Ok in Hrun as (st1 & Hext & Hrest).
    destruct (extend_cells _ _ _ _ _ _ _ _ Hat Hext) as (c & Hc & ->).
    apply (IH _ _ _ (cells_at_put _ _ _ _ Hat)) in Hrest as (ts & -> & HF).
    exists (((fst cand, (next_start, next_end)), c, cur_key) :: ts). simpl.
    split; [apply put_cells_twice |].
    constructor; eauto.
Qed.

Lemma for_each_map {A B S : Type} (f : A -> B) (xs : list A)
  (body : S -> B -> result S) (s : S) :
  for_each (map f xs) body s = for_each xs (fun s x => body s (f x)) s.
Proof.
  revert s. induction xs as [| x xs IH]; intros s; simpl; [reflexivity |].
  destruct (body s (f x)); simpl; [apply IH | reflexivity].
Qed.

(** [visit] runs [extend] over the candidates in order. *)
Lemma visit_candidates (st : lattice) (cur_key : key) (prob : R) :
  visit self next_start next_end next_phrase next_word st (cur_key, prob) =
  (conv_w0 <- str_last (fst cur_key) ;;
   for_each (candidates self next_start next_end next_phrase next_word)
     (fun st cand =>
        extend self st prob conv_w0 cur_key next_start next_end next_phrase
          (fst cand) (snd cand)) st).
Proof.
  destruct cur_key as [cur_phrase [cur_start cur_end]].
  unfold visit, candidates. simpl fst.
  destruct (str_last cur_phrase) as [w0 |]; simpl; [| reflexivity].
  rewrite for_each_app.
  destruct (Nat.eqb next_start next_end &&
            not_self_mapped self next_phrase next_word); simpl.
  - destruct (extend self st prob w0 _ next_start next_end next_phrase
                next_phrase next_word) as [st1 |]; simpl; [| reflexivity].
    destruct (dict_get (phrasemodel self) next_phrase) as [targets |];
      [| reflexivity].
    now rewrite for_each_map.
  - destruct (dict_get (phrasemodel self) next_phrase) as [targets |];
      [| reflexivity].
    now rewrite for_each_map.
Qed.

Lemma visit_cells (st st' : lattice) (cp : cells) (item : key * R) :
  cells_at st next_end cp ->
  visit self next_start next_end next_phrase next_word st item = Ok st' ->
  exists ts,
    st' = put_cells st next_end (fold_left relax_cell ts cp) /\
    trace_of self next_start next_end next_phrase [item]
      (candidates self next_start next_end next_phrase next_word) ts.
Proof.
  intros Hat Hrun. destruct item as [cur_key prob].
  rewrite visit_candidates in Hrun.
  apply bind_Ok in Hrun as (w0 & Hw0 & Hrun).
  destruct (candidates_cells _ _ _ _ _ _ _ Hat Hrun) as (ts & -> & HF).
  exists ts. split; [reflexivity |].
  unfold trace_of, item_cost. split.
  - intros t Hin.
    destruct (Forall2_In_r _ _ _ _ HF Hin) as (cand & Hcand & c & Hc & ->).
    exists (cur_key, prob), cand, c. simpl. rewrite Hw0. simpl.
    repeat split; auto.
  - intros item cand [<- | []] Hcand. simpl. rewrite Hw0. simpl.
    destruct (Forall2_In_l _ _ _ _ HF Hcand) as (t & Ht & c & Hc & ->). eauto.
Qed.

End Trace.

(** ** A run of relaxations on one pair of cells keeps the minimum *)

Section RunningMinimum.

Implicit Types (cp : cells) (t : transition) (ts : list transition) (k : key).

Lemma relax_cell_other cp t k :
  fst (fst t) <> k ->
  dict_get (fst (relax_cell cp t)) k = dict_get (fst cp) k /\
  dict_get (snd (relax_cell cp t)) k = dict_get (snd cp) k.
Proof.
  destruct cp as [bc pc], t as [[k1 c1] pk1]. simpl. intros Hne.
  destruct (dict_get bc k1) as [stored |]; [destruct (Rge_dec stored c1) |];
    simpl; rewrite ?dict_get_set_other by congruence; auto.
Qed.

Lemma fold_relax_other ts : forall cp k,
  (forall t, In t ts -> fst (fst t) <> k) ->
  dict_get (fst (fold_left relax_cell ts cp)) k = dict_get (fst cp) k /\
  dict_get (snd (fold_left relax_cell ts cp)) k = dict_get (snd cp) k.
Proof.
  induction ts as [| t ts IH]; intros cp k Hno; simpl; [auto |].
  destruct (IH (relax_cell cp t) k) as [E1 E2];
    [intros t' Hin; apply Hno; now right |].
  destruct (relax_cell_other cp t k) as [F1 F2]; [apply Hno; now left |].
  split; congruence.
Qed.

(** A state already stored keeps a cost that is at most its old cost and at
    most the cost of every later transition to it. *)
Lemma fold_relax_stored ts : forall cp k o,
  dict_get (fst cp) k = Some o ->
  exists c,
    dict_get (fst (fold_left relax_cell ts cp)) k = Some c /\
    (c <= o)%R /\
    (forall c' pk', In (k, c', pk') ts -> (c <= c')%R) /\
    ((c = o /\
      dict_get (snd (fold_left relax_cell ts cp)) k = dict_get (snd cp) k) \/
     exists pk,
       In (k, c, pk) ts /\
       dict_get (snd (fold_left relax_cell ts cp)) k = Some pk).
Proof.
  induction ts as [| t ts IH]; intros cp k o Hget; simpl.
  - exists o. repeat split; [assumption | lra | intros ? ? [] | now left].
  - destruct (key_eq_dec (fst (fst t)) k) as [Heq | Hne].
    + destruct cp as [bc pc], t as [[k1 c1] pk1]. simpl in Heq, Hget. subst k1.
      simpl relax_cell. rewrite Hget.
      destruct (Rge_dec o c1) as [Hge | Hlt].
      * destruct (IH (dict_set bc k c1, dict_set pc k pk1) k c1) as
          (c & Hc & Hle & Hall & Hpred); [apply dict_get_set_same |].
        exists c. repeat split; [assumption | lra | |].
        -- intros c' pk' [[= <- <-] | Hin]; [lra | eauto].
        -- right. destruct Hpred as [[-> Hp] | (pk & Hin & Hp)].
           ++ exists pk1. split; [now left |].
              rewrite Hp. simpl. apply dict_get_set_same.
           ++ exists pk. split; [now right | assumption].
      * destruct (IH (bc, pc) k o Hget) as (c & Hc & Hle & Hall & Hpred).
        exists c. repeat split; [assumption | assumption | |].
        -- intros c' pk' [[= <- <-] | Hin]; [lra | eauto].
        -- destruct Hpred as [[-> Hp] | (pk & Hin & Hp)]; [now left |].
           right. exists pk. split; [now right | assumption].
    + destruct (relax_cell_other cp t k Hne) as [F1 F2].
      destruct (IH (relax_cell cp t) k o) as (c & Hc & Hle & Hall & Hpred);
        [congruence |].
      exists c. repeat split; [assumption | assumption | |].
      * intros c' pk' [E | Hin]; [subst t; now elim Hne | eauto].
      * destruct Hpred as [[-> Hp] | (pk & Hin & Hp)].
        -- left. split; [reflexivity | congruence].
        -- right. exists pk. split; [now right | assumption].
Qed.

(** A state that was absent and is stored after the run holds the least cost
    among the transitions of the run to it, with the predecessor of one of
    them. *)
Lemma fold_relax_fresh ts : forall cp k c,
  dict_get (fst cp) k = None ->
  dict_get (fst (fold_left relax_cell ts cp)) k = Some c ->
  exists pk,
    In (k, c, pk) ts /\
    dict_get (snd (fold_left relax_cell ts cp)) k = Some pk /\
    forall c' pk', In (k, c', pk') ts -> (c <= c')%R.
Proof.
  induction ts as [| t ts IH]; intros cp k c Hnone; simpl.
  - congruence.
  - destruct (key_eq_dec (fst (fst t)) k) as [Heq | Hne].
    + destruct cp as [bc pc], t as [[k1 c1] pk1]. simpl in Heq, Hnone. subst k1.
      simpl relax_cell. rewrite Hnone. intros Hget.
      destruct (fold_relax_stored ts (dict_set bc k c1, dict_set pc k pk1) k c1)
        as (c0 & Hc0 & Hle & Hall & Hpred); [apply dict_get_set_same |].
      assert (c0 = c) by congruence. subst c0.
      destruct Hpred as [[-> Hp] | (pk & Hin & Hp)].
      * exists pk1. split; [now left |]. split.
        -- rewrite Hp. simpl. apply dict_get_set_same.
        -- intros c' pk' [[= <- <-] | Hin]; [lra | eauto].
      * exists pk. split; [now right |]. split; [assumption |].
        intros c' pk' [[= <- <-] | Hin']; [lra | eauto].
    + destruct (relax_cell_other cp t k Hne) as [F1 F2]. intros Hget.
      destruct (IH (relax_cell cp t) k c) as (pk & Hin & Hp & Hall);
        [congruence | assumption |].
      exists pk. split; [now right |]. split; [assumption |].
      intros c' pk' [E | Hin']; [subst t; now elim Hne | eauto].
Qed.

Lemma relax_cell_In_best cp t (x : key * R) :
  In x (fst (relax_cell cp t)) -> In x (fst cp) \/ x = fst t.
Proof.
  destruct cp as [bc pc], t as [[k1 c1] pk1]. simpl.
  destruct (dict_get bc k1) as [stored |]; [destruct (Rge_dec stored c1) |];
    simpl; auto; intros Hin; apply dict_set_In in Hin; tauto.
Qed.

Lemma fold_relax_In_best ts : forall cp (x : key * R),
  In x (fst (fold_left relax_cell ts cp)) ->
  In x (fst cp) \/ exists pk, In (x, pk) ts.
Proof.
  induction ts as [| t ts IH]; intros cp x; simpl; [auto |].
  intros Hin. destruct (IH _ _ Hin) as [Hold | (pk & Hts)].
  - destruct (relax_cell_In_best _ _ _ Hold) as [H0 | ->]; [auto |].
    right. exists (snd t). left. now destruct t.
  - right. eauto.
Qed.

Lemma relax_cell_get_pred cp t k (pk : key) :
  dict_get (snd (relax_cell cp t)) k = Some pk ->
  dict_get (snd cp) k = Some pk \/ (fst (fst t) = k /\ snd t = pk).
Proof.
  destruct cp as [bc pc], t as [[k1 c1] pk1]. simpl.
  destruct (key_eq_dec k1 k) as [-> | Hne].
  - destruct (dict_get bc k) as [stored |]; [destruct (Rge_dec stored c1) |];
      simpl; auto; rewrite dict_get_set_same; intros [= <-]; auto.
  - destruct (dict_get bc k1) as [stored |]; [destruct (Rge_dec stored c1) |];
      simpl; auto; rewrite dict_get_set_other by congruence; auto.
Qed.

Lemma fold_relax_get_pred ts : forall cp k (pk : key),
  dict_get (snd (fold_left relax_cell ts cp)) k = Some pk ->
  dict_get (snd cp) k = Some pk \/ exists c, In (k, c, pk) ts.
Proof.
  induction ts as [| t ts IH]; intros cp k pk; simpl; [auto |].
  intros Hget. destruct (IH _ _ _ Hget) as [Hold | (c & Hts)].
  - destruct (relax_cell_get_pred _ _ _ _ Hold) as [H0 | [<- <-]]; [auto |].
    right. exists (snd (fst t)). left. now destruct t as [[? ?] ?].
  - right. eauto.
Qed.

Lemma relax_cell_same_keys cp t : same_keys cp -> same_keys (relax_cell cp t).
Proof.
  destruct cp as [bc pc], t as [[k1 c1] pk1]. unfold same_keys. simpl.
  intros Hsame k.
  destruct (dict_get bc k1) as [stored |]; [destruct (Rge_dec stored c1) |];
    simpl; auto;
    (destruct (key_eq_dec k k1) as [-> | Hne];
     [rewrite !dict_get_set_same; split; discriminate
     | rewrite !dict_get_set_other by assumption; apply Hsame]).
Qed.

Lemma fold_relax_same_keys ts : forall cp,
  same_keys cp -> same_keys (fold_left relax_cell ts cp).
Proof.
  induction ts as [| t ts IH]; intros cp Hsame; simpl; [assumption |].
  apply IH. now apply relax_cell_same_keys.
Qed.

End RunningMinimum.

(** ** One span of the forward pass, on the cells it writes *)

Section SpanTrace.

Variable self : KovLang.
Variable sent : list string.

Lemma trace_of_nil (s e : nat) (np : string) (cands : list (string * string)) :
  trace_of self s e np [] cands [].
Proof.
  split; [intros t [] | intros item cand []].
Qed.

Lemma trace_of_cons (s e : nat) (np : string) (item : key * R)
  (items : list (key * R)) (cands : list (string * string))
  (ts1 ts2 : list transition) :
  trace_of self s e np [item] cands ts1 ->
  trace_of self s e np items cands ts2 ->
  trace_of self s e np (item :: items) cands (ts1 ++ ts2).
Proof.
  intros [A1 A2] [B1 B2]. split.
  - intros t Hin. apply in_app_or in Hin as [Hin | Hin].
    + destruct (A1 t Hin) as (it & cand & c & [<- | []] & Hrest).
      exists item, cand, c. simpl. tauto.
    + destruct (B1 t Hin) as (it & cand & c & Hit & Hrest).
      exists it, cand, c. simpl. tauto.
  - intros it cand [<- | Hit] Hcand.
    + destruct (A2 item cand (or_introl eq_refl) Hcand) as (c & Hc & Hin).
      exists c. split; [assumption |]. apply in_or_app. now left.
    + destruct (B2 it cand Hit Hcand) as (c & Hc & Hin).
      exists c. split; [assumption |]. apply in_or_app. now right.
Qed.

Lemma items_cells (s e : nat) (np nw : string) (items : list (key * R)) :
  forall (st st' : lattice) (cp : cells),
    cells_at st e cp ->
    for_each items (visit self s e np nw) st = Ok st' ->
    exists ts,
      st' = put_cells st e (fold_left relax_cell ts cp) /\
      trace_of self s e np items (candidates self s e np nw) ts.
Proof.
  induction items as [| item items IH]; intros st st' cp Hat; simpl.
  - intros [= <-]. exists []. simpl. split.
    + symmetry. now apply put_cells_same.
    + now apply trace_of_nil.
  - intros Hrun. apply bind_Ok in Hrun as (st1 & Hvisit & Hrest).
    destruct (visit_cells _ _ _ _ _ _ _ _ _ Hat Hvisit) as (ts1 & -> & Htr1).
    apply (IH _ _ _ (cells_at_put _ _ _ _ Hat)) in Hrest as (ts2 & -> & Htr2).
    exists (ts1 ++ ts2). split.
    + now rewrite put_cells_twice, fold_left_app.
    + now apply trace_of_cons.
Qed.

Lemma slice_single (s : nat) (w : string) :
  nth_error sent s = Some w -> join (slice sent s (s + 1)) = w.
Proof.
  intros Hnth. unfold slice. replace (s + 1 - s)%nat with 1%nat by lia.
  destruct (nth_error_split sent s Hnth) as (l1 & l2 & -> & <-).
  rewrite skipn_app, skipn_all, Nat.sub_diag. simpl. reflexivity.
Qed.

(** In every candidate the rewrite and the second argument of [phrase_prob]
    coincide: in the identity branch the span is the single word. *)
Lemma candidates_target (s e : nat) (nw : string) (cand : string * string) :
  nth_error sent s = Some nw ->
  In cand (candidates self s e (join (slice sent s (e + 1))) nw) ->
  snd cand = fst cand.
Proof.
  intros Hnth Hin. unfold candidates in Hin.
  apply in_app_or in Hin as [Hin | Hin].
  - destruct (Nat.eqb_spec s e) as [<- | Hne]; simpl in Hin; [| destruct Hin].
    destruct (not_self_mapped self _ nw); [| destruct Hin].
    destruct Hin as [<- | []]. simpl. symmetry. now apply slice_single.
  - destruct (dict_get (phrasemodel self) _) as [targets |]; [| destruct Hin].
    apply in_map_iff in Hin as (conv & <- & _). reflexivity.
Qed.

Lemma item_cost_transition (s e : nat) (item : key * R)
  (cand : string * string) :
  snd cand = fst cand ->
  item_cost self (join (slice sent s (e + 1))) item cand =
  transition_cost self sent (fst item) (snd item) (fst cand, (s, e)).
Proof.
  destruct cand as [conv target]. simpl. intros ->. reflexivity.
Qed.

Lemma trace_of_span_trace (s e : nat) (nw : string) (items : list (key * R))
  (ts : list transition) :
  nth_error sent s = Some nw ->
  trace_of self s e (join (slice sent s (e + 1))) items
    (candidates self s e (join (slice sent s (e + 1))) nw) ts ->
  span_trace self sent s e items ts.
Proof.
  intros Hnth [T1 T2]. split.
  - intros k c pk Hin.
    destruct (T1 _ Hin) as ([pk' pc] & cand & c' & Hit & Hcand & Hcost & E).
    injection E as -> -> ->. exists pc, (fst cand). repeat split; auto.
    rewrite <- Hcost. symmetry.
    apply (item_cost_transition s e (pk', pc) cand).
    now apply (candidates_target s e nw).
  - intros conv c0 pk0 pk pc Hin Hit.
    destruct (T1 _ Hin) as (item0 & cand & c' & _ & Hcand & _ & E).
    injection E as -> _ _.
    destruct (T2 (pk, pc) cand Hit Hcand) as (c & Hcost & Hin').
    exists c. split; [| exact Hin'].
    rewrite <- Hcost. symmetry.
    apply (item_cost_transition s e (pk, pc) cand).
    now apply (candidates_target s e nw).
Qed.

Lemma scan_span_cells (curpos e : nat) (st st' : lattice) (cp : cells)
  (cell0 : dict key R) :
  cells_at st e cp ->
  nth_error (best st) curpos = Some cell0 ->
  scan_span self sent curpos st e = Ok st' ->
  exists ts,
    st' = put_cells st e (fold_left relax_cell ts cp) /\
    span_trace self sent (curpos + 1) e (dict_items cell0) ts.
Proof.
  intros Hat Hcell Hrun. unfold scan_span in Hrun.
  apply bind_Ok in Hrun as (nw & Hnw & Hrun).
  apply list_getitem_Ok in Hnw.
  unfold list_getitem in Hrun. rewrite Hcell in Hrun. simpl in Hrun.
  destruct (items_cells _ _ _ _ _ _ _ _ Hat Hrun) as (ts & -> & Htr).
  exists ts. split; [reflexivity |].
  now apply (trace_of_span_trace _ _ nw).
Qed.

End SpanTrace.

(** ** The invariant of the forward pass *)

Section Invariant.

Variable self : KovLang.
Variable sent : list string.

Lemma lattice_inv_weaken (st : lattice) (m m' : nat) :
  (m <= m')%nat -> lattice_inv self sent st m -> lattice_inv self sent st m'.
Proof.
  intros Hle [L1 L2 Hspan Hpred Hkeys Hopt].
  constructor; auto.
  intros e cell k c Hc Hin. destruct (Hspan e cell k c Hc Hin). split; [auto | lia].
Qed.

Lemma nth_error_put_best (st : lattice) (e e' : nat) (cp : cells) :
  (e < List.length (best st))%nat ->
  nth_error (best (put_cells st e cp)) e' =
  if Nat.eqb e e' then Some (fst cp) else nth_error (best st) e'.
Proof.
  intros Hlt. unfold put_cells. simpl. rewrite nth_error_list_update.
  destruct (Nat.eqb e e'); [| reflexivity].
  destruct (Nat.ltb_spec e (List.length (best st))); [reflexivity | lia].
Qed.

Lemma nth_error_put_before (st : lattice) (e e' : nat) (cp : cells) :
  (e < List.length (before_pos st))%nat ->
  nth_error (before_pos (put_cells st e cp)) e' =
  if Nat.eqb e e' then Some (snd cp) else nth_error (before_pos st) e'.
Proof.
  intros Hlt. unfold put_cells. simpl. rewrite nth_error_list_update.
  destruct (Nat.eqb e e'); [| reflexivity].
  destruct (Nat.ltb_spec e (List.length (before_pos st))); [reflexivity | lia].
Qed.

Lemma nth_error_in_range {A : Type} (l : list A) (i : nat) :
  (i < List.length l)%nat -> exists x, nth_error l i = Some x.
Proof.
  intros Hlt. destruct (nth_error l i) as [x |] eqn:E; [eauto |].
  apply nth_error_None in E. lia.
Qed.

(** One span: the invariant is kept, and spans that start at [curpos + 1]
    now occur at position [e] only among the positions from [e] on. *)
Lemma scan_span_inv (curpos e : nat) (st st' : lattice) :
  (curpos < e)%nat -> (e < List.length sent)%nat ->
  lattice_inv self sent st (curpos + 1) ->
  fresh_from st (curpos + 1) e ->
  scan_span self sent curpos st e = Ok st' ->
  lattice_inv self sent st' (curpos + 1) /\ fresh_from st' (curpos + 1) (e + 1).
Proof.
  intros Hce Hen Hinv Hfresh Hrun.
  pose proof Hinv as [L1 L2 Hspan Hpred Hkeys Hopt].
  destruct (nth_error_in_range (best st) e) as [bc Hbc]; [lia |].
  destruct (nth_error_in_range (before_pos st) e) as [pc Hpc]; [lia |].
  destruct (nth_error_in_range (best st) curpos) as [cell0 Hcell0]; [lia |].
  assert (Hat : cells_at st e (bc, pc)) by (split; assumption).
  destruct (scan_span_cells self sent curpos e st st' (bc, pc) cell0 Hat Hcell0 Hrun)
    as (ts & -> & [T1 T2]).
  set (cp' := fold_left relax_cell ts (bc, pc)) in *.
  assert (Hb' : forall e', nth_error (best (put_cells st e cp')) e' =
                      if Nat.eqb e e' then Some (fst cp') else nth_error (best st) e')
    by (intros; apply nth_error_put_best; lia).
  assert (Hp' : forall e', nth_error (before_pos (put_cells st e cp')) e' =
                      if Nat.eqb e e' then Some (snd cp') else nth_error (before_pos st) e')
    by (intros; apply nth_error_put_before; lia).
  assert (Hprev : forall s, (s <= curpos + 1)%nat ->
            nth_error (best (put_cells st e cp')) (s - 1) = nth_error (best st) (s - 1)).
  { intros s Hs. rewrite Hb'. destruct (Nat.eqb_spec e (s - 1)); [lia | reflexivity]. }
  assert (Hnew : forall k c, In (k, c) (fst cp') ->
            In (k, c) bc \/ exists pk, In (k, c, pk) ts)
    by (intros k c Hin; apply (fold_relax_In_best ts (bc, pc) (k, c) Hin)).
  split.
  - constructor.
    + unfold put_cells. simpl. now rewrite length_list_update.
    + unfold put_cells. simpl. now rewrite length_list_update.
    + intros e' cell k c. rewrite Hb'.
      destruct (Nat.eqb_spec e e') as [<- | Hne]; [| apply Hspan].
      intros [= <-] Hin. destruct (Hnew k c Hin) as [Hold | (pk & Hts)].
      * exact (Hspan e bc k c Hbc Hold).
      * destruct (T1 _ _ _ Hts) as (pc0 & conv & _ & -> & _). simpl. lia.
    + intros e' pcell k pk. rewrite Hp'.
      destruct (Nat.eqb_spec e e') as [<- | Hne]; [| apply Hpred].
      intros [= <-] Hget.
      destruct (fold_relax_get_pred ts (bc, pc) k pk Hget) as [Hold | (c & Hts)].
      * exact (Hpred e pc k pk Hpc Hold).
      * destruct (T1 _ _ _ Hts) as (pc0 & conv & Hit & _ & _).
        destruct (Hspan curpos cell0 pk pc0 Hcell0 Hit) as [-> _]. exact Hce.
    + intros e' cell pcell He'. rewrite Hb', Hp'.
      destruct (Nat.eqb_spec e e') as [<- | Hne]; [| now apply Hkeys].
      intros [= <-] [= <-].
      replace (fst cp', snd cp') with cp' by now destruct cp'.
      apply fold_relax_same_keys. now apply (Hkeys e).
    + intros e' cell k c He'. rewrite Hb'.
      assert (Hkeep : forall cell0', nth_error (best st) e' = Some cell0' ->
                dict_get cell0' k = Some c ->
                (forall pcell, nth_error (before_pos st) e' = Some pcell ->
                   exists pcell', nth_error (before_pos (put_cells st e cp')) e' = Some pcell' /\
                                  dict_get pcell' k = dict_get pcell k) ->
                optimal_at self sent (put_cells st e cp') e' k c).
      { intros cell0' Hc0 Hget Hbefore.
        destruct (Hopt e' cell0' k c He' Hc0 Hget)
          as (conv & s & prev & pcell & pk & pc0 & -> & Hs & Hprv & Hpcell & Hpk & Hrest).
        destruct (Hbefore pcell Hpcell) as (pcell' & Hpcell' & Hsame).
        exists conv, s, prev, pcell', pk, pc0.
        destruct (Hspan e' cell0' _ c Hc0 (dict_get_Some_In _ _ _ Hget)) as [_ Hs']. simpl in Hs'.
        repeat split; try tauto; try lia.
        - now rewrite Hprev.
        - congruence. }
      destruct (Nat.eqb_spec e e') as [<- | Hne].
      * intros [= <-] Hget.
        destruct (Nat.eq_dec (fst (snd k)) (curpos + 1)) as [Hstart | Hstart].
        -- (* a span that starts at curpos + 1: it was absent before *)
           assert (Hnone : dict_get bc k = None).
           { destruct (dict_get bc k) as [c0 |] eqn:E; [| reflexivity].
             apply dict_get_Some_In in E.
             pose proof (Hfresh e bc k c0 (Nat.le_refl _) Hbc E). lia. }
           destruct (fold_relax_fresh ts (bc, pc) k c Hnone Hget) as (pk & Hts & Hpk & Hmin).
           destruct (T1 _ _ _ Hts) as (pc0 & conv & Hit & -> & Hcost).
           exists conv, (curpos + 1)%nat, cell0, (snd cp'), pk, pc0.
           repeat split; try assumption; try lia.
           ++ rewrite Hprev by lia. now replace (curpos + 1 - 1)%nat with curpos by lia.
           ++ rewrite Hp', Nat.eqb_refl. reflexivity.
           ++ intros pk' pc' Hit'.
              destruct (T2 conv c pk pk' pc' Hts Hit') as (c' & Hcost' & Hts').
              exists c'. split; [assumption |]. exact (Hmin c' pk' Hts').
        -- (* another span: untouched by this run *)
           assert (Hno : forall t, In t ts -> fst (fst t) <> k).
           { intros [[k1 c1] pk1] Hts E. simpl in E. subst k1.
             destruct (T1 _ _ _ Hts) as (pc0 & conv & _ & -> & _). simpl in Hstart. lia. }
           destruct (fold_relax_other ts (bc, pc) k Hno) as [F1 F2].
           apply (Hkeep bc Hbc); [rewrite <- Hget; symmetry; exact F1 |].
           intros pcell Hpcell. exists (snd cp'). rewrite Hp', Nat.eqb_refl.
           split; [reflexivity |].
           assert (pcell = pc) by congruence. subst pcell. exact F2.
      * intros Hc Hget. apply (Hkeep cell Hc Hget).
        intros pcell Hpcell. exists pcell. rewrite Hp'.
        destruct (Nat.eqb_spec e e'); [contradiction | auto].
  - intros e' cell k c He'. rewrite Hb'.
    destruct (Nat.eqb_spec e e'); [lia |].
    apply Hfresh. lia.
Qed.

End Invariant.

Section ForwardInvariant.

Variable self : KovLang.
Variable sent : list string.

Lemma scan_spans_inv (curpos : nat) :
  forall (len e0 : nat) (st st' : lattice),
    (curpos < e0)%nat -> (e0 + len <= List.length sent)%nat ->
    lattice_inv self sent st (curpos + 1) ->
    fresh_from st (curpos + 1) e0 ->
    for_each (seq e0 len) (scan_span self sent curpos) st = Ok st' ->
    lattice_inv self sent st' (curpos + 1).
Proof.
  induction len as [| len IH]; intros e0 st st' Hlt Hlen Hinv Hfresh; simpl.
  - now intros [= <-].
  - intros Hrun. apply bind_Ok in Hrun as (st1 & Hspan & Hrest).
    destruct (scan_span_inv self sent curpos e0 st st1) as [Hinv1 Hfresh1];
      try assumption; [lia |].
    apply (IH (S e0) st1 st'); try assumption; try lia.
    now replace (S e0) with (e0 + 1)%nat by lia.
Qed.

Lemma scan_position_inv (max_len : Z) (curpos : nat) (st st' : lattice) :
  (curpos + 1 < List.length sent)%nat ->
  lattice_inv self sent st curpos ->
  scan_position self sent max_len st curpos = Ok st' ->
  lattice_inv self sent st' (curpos + 1).
Proof.
  intros Hlt Hinv. unfold scan_position, next_ends, py_range.
  apply scan_spans_inv; try lia.
  - apply (lattice_inv_weaken self sent st curpos); [lia | assumption].
  - intros e cell k c _ Hcell Hin.
    destruct (inv_span self sent st curpos Hinv e cell k c Hcell Hin). lia.
Qed.

Lemma scan_positions_inv (max_len : Z) :
  forall (len c : nat) (st st' : lattice),
    (c + len < List.length sent)%nat ->
    lattice_inv self sent st c ->
    for_each (seq c len) (scan_position self sent max_len) st = Ok st' ->
    lattice_inv self sent st' (c + len).
Proof.
  induction len as [| len IH]; intros c st st' Hlen Hinv; simpl.
  - intros [= <-]. now rewrite Nat.add_0_r.
  - intros Hrun. apply bind_Ok in Hrun as (st1 & Hpos & Hrest).
    apply (scan_position_inv max_len c st st1) in Hpos; try assumption; [| lia].
    replace (c + S len)%nat with (S c + len)%nat by lia.
    apply (IH (S c) st1 st'); try assumption; [lia |].
    now replace (S c) with (c + 1)%nat by lia.
Qed.

Lemma nth_error_repeat_Some {A : Type} (x y : A) (n i : nat) :
  nth_error (repeat x n) i = Some y -> y = x.
Proof.
  intros E. apply nth_error_In, repeat_spec in E. exact E.
Qed.

Lemma initial_lattice_Ok (n : nat) (start_symbol : string) :
  initial_lattice (S n) start_symbol =
  Ok {| best := [((start_symbol, (0, 0)), 0%R)] :: repeat [] n;
        before_pos := repeat [] (S n) |}.
Proof. reflexivity. Qed.

Lemma initial_lattice_inv (start_symbol : string) (st : lattice) :
  initial_lattice (List.length sent) start_symbol = Ok st ->
  lattice_inv self sent st 0.
Proof.
  destruct (List.length sent) as [| n] eqn:En; [discriminate |].
  rewrite initial_lattice_Ok. intros [= <-].
  constructor; simpl.
  - now rewrite repeat_length.
  - now rewrite repeat_length.
  - intros [| e] cell k c; simpl.
    + intros [= <-] [[= <- <-] | []]. simpl. lia.
    + intros Hc Hin. apply nth_error_repeat_Some in Hc. subst cell. destruct Hin.
  - intros e pcell k pk Hc.
    apply (nth_error_repeat_Some [] pcell (S n) e) in Hc. subst pcell. discriminate.
  - intros [| e] cell pcell He; [lia |]. simpl. intros Hc Hp.
    apply nth_error_repeat_Some in Hc.
    apply (nth_error_repeat_Some [] pcell (S n) (S e)) in Hp. subst.
    intros k. simpl. tauto.
  - intros [| e] cell k c He; [lia |]. simpl. intros Hc.
    apply nth_error_repeat_Some in Hc. subst cell. discriminate.
Qed.

(** The lattice of a forward pass that returns satisfies the invariant. *)
Lemma forward_inv (start_symbol : string) (max_len : Z) (st : lattice) :
  forward self sent start_symbol max_len = Ok st ->
  lattice_inv self sent st (List.length sent - 1).
Proof.
  unfold forward. intros Hrun.
  apply bind_Ok in Hrun as (st0 & Hinit & Hrun).
  pose proof (initial_lattice_inv start_symbol st0 Hinit) as Hinv0.
  destruct (List.length sent) as [| n] eqn:En; [discriminate |].
  rewrite positions_seq in Hrun.
  replace (S n - 1)%nat with (0 + n)%nat by lia.
  apply (scan_positions_inv max_len n 0 st0 st); try assumption. lia.
Qed.

End ForwardInvariant.

(** ** Relaxation and the minimum (C3) *)

Lemma relax_cell_first (cp : cells) (k : key) (c : R) (pk : key) :
  dict_get (fst cp) k = None ->
  relax_cell cp (k, c, pk) = (dict_set (fst cp) k c, dict_set (snd cp) k pk).
Proof.
  destruct cp as [bc pc]. simpl. now intros ->.
Qed.

Lemma relax_cell_later (cp : cells) (k : key) (c stored : R) (pk : key) :
  dict_get (fst cp) k = Some stored ->
  ((c <= stored)%R ->
   relax_cell cp (k, c, pk) = (dict_set (fst cp) k c, dict_set (snd cp) k pk)) /\
  ((stored < c)%R -> relax_cell cp (k, c, pk) = cp).
Proof.
  destruct cp as [bc pc]. simpl. intros ->.
  destruct (Rge_dec stored c); split; intros; try reflexivity; lra.
Qed.

(** C3: a relaxation of the state [k] at position [e] stores cost and
    predecessor when [k] is not yet in [best[e]]; when it is, both are
    overwritten if the new cost is at most the stored one and neither is
    touched otherwise. Consequently, in the lattice of a forward pass that
    returns, every state stored at a position [e >= 1] has as its cost the
    least cost over the transitions into it (one from each state of the
    position before its span), and as its predecessor the source of a
    transition of exactly that cost. *)
Theorem relaxation_keeps_minimum (self : KovLang) (sent : list string)
  (start_symbol : string) (max_len : Z) (st : lattice)
  (Hrun : forward self sent start_symbol max_len = Ok st) :
  (forall st0 e cp k c pk,
      cells_at st0 e cp ->
      relax st0 e k c pk = Ok (put_cells st0 e (relax_cell cp (k, c, pk))) /\
      (dict_get (fst cp) k = None ->
       relax_cell cp (k, c, pk) =
       (dict_set (fst cp) k c, dict_set (snd cp) k pk)) /\
      (forall stored, dict_get (fst cp) k = Some stored ->
         ((c <= stored)%R ->
          relax_cell cp (k, c, pk) =
          (dict_set (fst cp) k c, dict_set (snd cp) k pk)) /\
         ((stored < c)%R -> relax_cell cp (k, c, pk) = cp))) /\
  (forall e cell k c,
      (1 <= e)%nat -> nth_error (best st) e = Some cell ->
      dict_get cell k = Some c -> optimal_at self sent st e k c).
Proof.
  split.
  - intros st0 e cp k c pk Hat. split; [now apply relax_cells |].
    split; [apply relax_cell_first | intros stored; apply relax_cell_later].
  - intros e cell k c He Hcell Hget.
    exact (inv_opt self sent st _ (forward_inv self sent start_symbol max_len st Hrun)
             e cell k c He Hcell Hget).
Qed.

(** ** Runs on sample models *)

(** Evaluation of the search on a concrete sentence: list and string
    operations are computed, the two costs are rewritten to their closed
    forms. *)
Ltac eval_ranges :=
  repeat match goal with
  | |- context [positions ?n] =>
      let v := eval vm_compute in (positions n) in change (positions n) with v
  | |- context [next_ends ?n ?c ?l] =>
      let v := eval vm_compute in (next_ends n c l) in
      change (next_ends n c l) with v
  end.

Ltac run_search Hok :=
  repeat first
    [ progress eval_ranges
    | rewrite (bigram_cost_ok _ Hok)
    | rewrite (phrase_cost_ok _ Hok)
    | progress cbn -[positions next_ends bigram_cost phrase_cost bigram_p phrase_p] ].

Lemma empty_model_ok : tables_ok empty_model.
Proof.
  constructor; simpl; discriminate.
Qed.

Lemma forward_empty_sentence :
  forward empty_model ["<s>"; "</s>"] "<s>" 100 = Ok empty_sentence_lattice.
Proof.
  unfold forward, scan_position, scan_span, visit, extend.
  run_search empty_model_ok. reflexivity.
Qed.

Lemma small_model_ok : tables_ok small_model.
Proof.
  constructor; simpl.
  - intros w p. destruct (String.eqb w "b"); [| discriminate].
    intros [= <-]. unfold is_probability. lra.
  - intros [w0 w1] p. simpl.
    destruct (String.eqb w0 "a" && String.eqb w1 "b"); [| discriminate].
    intros [= <-]. unfold is_probability. lra.
  - intros p1 targets p2 p. destruct (String.eqb p1 "a"); [| discriminate].
    intros [= <-]. simpl. destruct (String.eqb p2 "b"); [| discriminate].
    intros [= <-]. unfold is_probability. lra.
Qed.

Lemma costs_positive_witness :
  (exists p c,
      bigram_prob small_model "a" "b" 0.95 0.95 1e6 false = Ok p /\
      (0 < p < 1)%R /\
      bigram_cost small_model "a" "b" = Ok c /\ c = (- ln p)%R /\ (0 < c)%R)
  /\
  (exists p c,
      phrase_prob small_model "x" "y" 0.95 1e6 false = Ok p /\
      (0 < p < 1)%R /\
      phrase_cost small_model "x" "y" = Ok c /\ c = (- ln p)%R /\ (0 < c)%R).
Proof.
  exact (costs_positive small_model small_model_ok "a" "b" "x" "y").
Defined.

(** ** A state that is reached twice (C3) *)

Lemma neg_ln_antitone (x y : R) : (0 < x <= y)%R -> (- ln y <= - ln x)%R.
Proof.
  intros [H0 [Hlt | ->]]; [| lra].
  pose proof (ln_increasing x y H0 Hlt). lra.
Qed.

Lemma small_costs : (small_via_b_cost < small_via_a_cost)%R.
Proof.
  unfold small_via_b_cost, small_via_a_cost, small_b_cost, small_a_cost.
  assert (H1 : (- ln (bigram_p small_model ">" "b")
                < - ln (bigram_p small_model ">" "a"))%R).
  { pose proof (bigram_p_bounds small_model small_model_ok ">" "a") as [Hp _].
    apply Ropp_lt_contravar. apply ln_increasing; [exact Hp |].
    unfold bigram_p, bigram_term, unigram_term, bigram_floor. simpl. lra. }
  assert (H2 : (- ln (phrase_p small_model "a" "b")
                <= - ln (phrase_p small_model "a" "a"))%R).
  { apply neg_ln_antitone. split.
    - apply (phrase_p_bounds small_model small_model_ok).
    - unfold phrase_p, phrase_term, phrase_floor. simpl. lra. }
  change (bigram_p small_model "b" "<") with (bigram_p small_model "a" "<").
  lra.
Qed.

Lemma forward_small :
  forward small_model ["<s>"; "a"; "</s>"] "<s>" 100 = Ok small_lattice.
Proof.
  unfold forward, scan_position, scan_span, visit, extend.
  run_search small_model_ok.
  fold small_a_cost small_b_cost. fold small_via_a_cost small_via_b_cost.
  destruct (Rge_dec small_via_a_cost small_via_b_cost) as [_ | Hn].
  - reflexivity.
  - pose proof small_costs. lra.
Qed.

Lemma relaxation_keeps_minimum_witness :
  forward small_model ["<s>"; "a"; "</s>"] "<s>" 100 = Ok small_lattice /\
  relax small_first_reach 2 ("</s>", (2, 2)%nat) small_via_b_cost
    ("b", (1, 1)%nat) = Ok small_lattice /\
  relax_cell ([(("</s>", (2, 2)%nat), small_via_a_cost)],
              [(("</s>", (2, 2)%nat), ("a", (1, 1)%nat))])
    (("</s>", (2, 2)%nat), small_via_b_cost, ("b", (1, 1)%nat)) =
  ([(("</s>", (2, 2)%nat), small_via_b_cost)],
   [(("</s>", (2, 2)%nat), ("b", (1, 1)%nat))]) /\
  relax small_lattice 2 ("</s>", (2, 2)%nat) small_via_a_cost
    ("a", (1, 1)%nat) = Ok small_lattice /\
  relax_cell ([(("</s>", (2, 2)%nat), small_via_b_cost)],
              [(("</s>", (2, 2)%nat), ("b", (1, 1)%nat))])
    (("</s>", (2, 2)%nat), small_via_a_cost, ("a", (1, 1)%nat)) =
  ([(("</s>", (2, 2)%nat), small_via_b_cost)],
   [(("</s>", (2, 2)%nat), ("b", (1, 1)%nat))]) /\
  optimal_at small_model ["<s>"; "a"; "</s>"] small_lattice 2
    ("</s>", (2, 2)%nat) small_via_b_cost.
Proof.
  destruct (relaxation_keeps_minimum small_model ["<s>"; "a"; "</s>"] "<s>" 100
              small_lattice forward_small) as [Hrelax Hopt].
  pose proof small_costs as Hlt.
  split; [exact forward_small |].
  destruct (Hrelax small_first_reach 2%nat
              ([(("</s>", (2, 2)%nat), small_via_a_cost)],
               [(("</s>", (2, 2)%nat), ("a", (1, 1)%nat))])
              ("</s>", (2, 2)%nat) small_via_b_cost ("b", (1, 1)%nat))
    as (Hr1 & _ & Hs1); [split; reflexivity |].
  destruct (Hs1 small_via_a_cost eq_refl) as [Hover _].
  specialize (Hover ltac:(lra)).
  destruct (Hrelax small_lattice 2%nat
              ([(("</s>", (2, 2)%nat), small_via_b_cost)],
               [(("</s>", (2, 2)%nat), ("b", (1, 1)%nat))])
              ("</s>", (2, 2)%nat) small_via_a_cost ("a", (1, 1)%nat))
    as (Hr2 & _ & Hs2); [split; reflexivity |].
  destruct (Hs2 small_via_b_cost eq_refl) as [_ Hkeep].
  specialize (Hkeep Hlt).
  split.
  { etransitivity; [exact Hr1 |]. apply f_equal.
    etransitivity;
      [exact (f_equal (put_cells small_first_reach 2) Hover) | reflexivity]. }
  split; [exact Hover |].
  split.
  { etransitivity; [exact Hr2 |]. apply f_equal.
    etransitivity;
      [exact (f_equal (put_cells small_lattice 2) Hkeep) | reflexivity]. }
  split; [exact Hkeep |].
  apply (Hopt 2%nat [(("</s>", (2, 2)%nat), small_via_b_cost)]);
    [lia | reflexivity | reflexivity].
Defined.

(** ** The choice of the final state (C4) *)

Lemma select_min_from (items : list (key * R)) :
  forall (mk : string) (mv : R),
    (select_min items mk (Fin mv) = (mk, Fin mv) /\
     forall k c, In (k, c) items -> (mv <= c)%R) \/
    (exists w,
       first_minimum items w /\ (snd w < mv)%R /\
       select_min items mk (Fin mv) = (fst (fst w), Fin (snd w))).
Proof.
  induction items as [| [[p sp] v] items IH]; intros mk mv; simpl.
  - left. split; [reflexivity | intros k c []].
  - destruct (Rgt_dec mv v) as [Hgt | Hle].
    + right. destruct (IH p v) as [[Heq Hall] | (w & (pre & post & -> & Hpre & Hpost) & Hlt & Heq)].
      * exists ((p, sp), v). split; [| split; [simpl; lra | exact Heq]].
        exists [], items. simpl. split; [reflexivity |].
        split; [intros k c [] | exact Hall].
      * exists w. split; [| split; [lra | exact Heq]].
        exists (((p, sp), v) :: pre), post. split; [reflexivity |].
        split; [| exact Hpost].
        intros k c [[= <- <-] | Hin]; [exact Hlt | eauto].
    + destruct (IH mk mv) as [[Heq Hall] | (w & (pre & post & -> & Hpre & Hpost) & Hlt & Heq)].
      * left. split; [exact Heq |].
        intros k c [[= <- <-] | Hin]; [lra | eauto].
      * right. exists w. split; [| split; [exact Hlt | exact Heq]].
        exists (((p, sp), v) :: pre), post. split; [reflexivity |].
        split; [| exact Hpost].
        intros k c [[= <- <-] | Hin]; [lra | eauto].
Qed.

Lemma select_min_first (item : key * R) (items : list (key * R)) :
  exists w,
    first_minimum (item :: items) w /\
    select_min (item :: items) "" PInf = (fst (fst w), Fin (snd w)).
Proof.
  destruct item as [[p sp] v]. simpl.
  destruct (select_min_from items p v)
    as [[Heq Hall] | (w & (pre & post & -> & Hpre & Hpost) & Hlt & Heq)].
  - exists ((p, sp), v). split; [| exact Heq].
    exists [], items. simpl. split; [reflexivity |].
    split; [intros k c [] | exact Hall].
  - exists w. split; [| exact Heq].
    exists (((p, sp), v) :: pre), post. split; [reflexivity |].
    split; [| exact Hpost].
    intros k c [[= <- <-] | Hin]; [exact Hlt | eauto].
Qed.

Lemma split_twice {A : Type} (pre pre' : list A) (w w' : A) (post post' : list A) :
  pre ++ w :: post = pre' ++ w' :: post' ->
  (pre = pre' /\ w = w' /\ post = post') \/
  (In w pre' /\ In w' post) \/ (In w' pre /\ In w post').
Proof.
  revert pre'. induction pre as [| x pre IH]; intros [| x' pre']; simpl.
  - intros [= -> ->]. auto.
  - intros [= -> ->]. right. left. split; [now left |].
    apply in_or_app. right. now left.
  - intros [= <- <-]. right. right. split; [now left |].
    apply in_or_app. right. now left.
  - intros [= -> E].
    destruct (IH _ E) as [(-> & -> & ->) | [[H1 H2] | [H1 H2]]]; auto.
Qed.

(** The first item of least cost is unique. *)
Lemma first_minimum_unique (items : list (key * R)) (w w' : key * R) :
  first_minimum items w -> first_minimum items w' -> w = w'.
Proof.
  intros (pre & post & E & Hpre & Hpost) (pre' & post' & E' & Hpre' & Hpost').
  rewrite E in E'.
  destruct (split_twice _ _ _ _ _ _ E') as [(_ & Hw & _) | [[H1 H2] | [H1 H2]]];
    [exact Hw | exfalso | exfalso].
  - destruct w as [k c], w' as [k' c']. simpl in *.
    pose proof (Hpre' _ _ H1). pose proof (Hpost _ _ H2). lra.
  - destruct w as [k c], w' as [k' c']. simpl in *.
    pose proof (Hpre _ _ H1). pose proof (Hpost' _ _ H2). lra.
Qed.

(** C4: over the states stored at the final position, taken in the
    iteration order of [best[N].items()], the selection returns the phrase
    and the cost of a state of least cost; among states of equal least cost
    it is the first one met (the comparison [min_val > val] is strict): every
    state before it costs strictly more, no state after it costs less. With
    no state at all the initial pair (empty phrase, infinity) is returned. *)
Theorem selection_takes_first_minimum (items : list (key * R)) :
  match items with
  | [] => select_min items "" PInf = ("", PInf)
  | _ :: _ =>
      exists phrase sp c,
        first_minimum items ((phrase, sp), c) /\
        select_min items "" PInf = (phrase, Fin c)
  end.
Proof.
  destruct items as [| item items]; [reflexivity |].
  destruct (select_min_first item items) as ([[phrase sp] c] & Hfirst & Heq).
  exists phrase, sp, c. split; assumption.
Qed.

(** ** The backtrace (C10) *)

(** Predecessors lie at strictly smaller positions, so the loop ends within
    as many steps as its starting position. *)
Lemma walk_back_halts (bp : list (dict key key)) :
  (forall e pcell k pk,
      nth_error bp e = Some pcell -> dict_get pcell k = Some pk ->
      (snd (snd pk) < e)%nat) ->
  forall (fuel : nat) (phrase : string) (s e : nat) (ans : list string),
    (e <= fuel)%nat -> walk_back fuel bp phrase s e ans <> None.
Proof.
  intros Hpred. induction fuel as [| fuel IH]; intros phrase s e ans Hle; simpl.
  - replace e with 0%nat by lia. discriminate.
  - destruct (Nat.eqb_spec e 0); [discriminate |].
    unfold list_getitem, dict_getitem.
    destruct (nth_error bp e) as [pcell |] eqn:Ecell; simpl; [| discriminate].
    destruct (dict_get pcell (phrase, (s, e))) as [[phrase' [s' e']] |] eqn:Eget;
      [| discriminate].
    apply IH. pose proof (Hpred e pcell _ _ Ecell Eget) as Hlt. simpl in Hlt. lia.
Qed.

Lemma bracket_length (tokens : list string) (start_symbol end_symbol : string) :
  List.length (bracket tokens start_symbol end_symbol) = (List.length tokens + 2)%nat.
Proof.
  unfold bracket. simpl. rewrite length_app. simpl. lia.
Qed.

(** [search] always comes to an end: it returns or it raises. *)
Lemma search_halts (self : KovLang) (tokens : list string)
  (start_symbol end_symbol : string) (max_len : Z) :
  search self tokens start_symbol end_symbol max_len <> None.
Proof.
  unfold search.
  destruct (forward self _ start_symbol max_len) as [st |] eqn:Hrun; [| discriminate].
  pose proof (forward_inv self _ start_symbol max_len st Hrun) as Hinv.
  set (n := List.length (bracket tokens start_symbol end_symbol)) in *.
  unfold backtrace.
  destruct (list_getitem (best st) (n - 1)) as [cell |]; [| discriminate].
  destruct (select_min (dict_items cell) "" PInf) as [min_key min_val].
  destruct (list_getitem (before_pos st) (n - 1)) as [pcell |] eqn:Ecell;
    cbn [bind]; [| discriminate].
  apply list_getitem_Ok in Ecell. unfold dict_getitem.
  destruct (dict_get pcell (min_key, (n - 1, n - 1)%nat)) as [[phrase [s e]] |] eqn:Eget;
    [| discriminate].
  pose proof (inv_pred self _ st _ Hinv _ _ _ _ Ecell Eget) as Hlt.
  cbn [snd] in Hlt.
  assert (Hhalt : forall ans, walk_back n (before_pos st) phrase s e ans <> None).
  { intros ans. apply walk_back_halts; [exact (inv_pred self _ st _ Hinv) | lia]. }
  destruct (walk_back n (before_pos st) phrase s e _) as [[ans | err] |] eqn:Ew;
    [discriminate | discriminate |].
  now apply Hhalt in Ew.
Qed.

(** C10: the backtrace looks the predecessor of the chosen final state up
    under the phrase of that state and the fixed span (N, N), whatever span
    [(s, N)] the chosen state has. Hence [search] returns a path only if some
    state with the chosen phrase and the span (N, N) is stored at N (the
    chosen state itself when [s = N], another state with the same phrase
    otherwise, whose chain is then the one followed); when the chosen state
    has [s < N] and no such other state is stored, the lookup raises
    [KeyError]. *)
Theorem backtrace_looks_up_fixed_span (self : KovLang) (tokens : list string)
  (start_symbol end_symbol : string) (max_len : Z) (st : lattice)
  (Hrun : forward self (bracket tokens start_symbol end_symbol) start_symbol
            max_len = Ok st) :
  let N := (List.length tokens + 1)%nat in
  let outcome := search self tokens start_symbol end_symbol max_len in
  exists cell pcell,
    nth_error (best st) N = Some cell /\
    nth_error (before_pos st) N = Some pcell /\
    match dict_items cell with
    | [] => outcome = Some (Raise KeyError)
    | _ :: _ =>
        exists phrase s c,
          first_minimum (dict_items cell) ((phrase, (s, N)), c) /\
          outcome =
            match dict_get pcell (phrase, (N, N)) with
            | None => Some (Raise KeyError)
            | Some pred => finish_backtrace st (N + 1) phrase pred
            end /\
          (forall ans, outcome = Some (Ok ans) ->
             exists c', dict_get cell (phrase, (N, N)) = Some c') /\
          ((s < N)%nat -> dict_get cell (phrase, (N, N)) = None ->
           outcome = Some (Raise KeyError))
    end.
Proof.
  intros N outcome.
  pose proof (forward_inv self _ start_symbol max_len st Hrun) as Hinv.
  pose proof (bracket_length tokens start_symbol end_symbol) as Hlen.
  destruct (nth_error_in_range (best st) N) as [cell Hcell];
    [rewrite (inv_len_best self _ st _ Hinv); lia |].
  destruct (nth_error_in_range (before_pos st) N) as [pcell Hpcell];
    [rewrite (inv_len_before self _ st _ Hinv); lia |].
  exists cell, pcell. split; [assumption |]. split; [assumption |].
  assert (Hkeys : same_keys (cell, pcell))
    by (apply (inv_keys self _ st _ Hinv N); [lia | assumption | assumption]).
  assert (Hout : outcome =
            let '(min_key, _) := select_min (dict_items cell) "" PInf in
            match dict_get pcell (min_key, (N, N)) with
            | None => Some (Raise KeyError)
            | Some pred => finish_backtrace st (N + 1) min_key pred
            end).
  { unfold outcome, search. rewrite Hrun. unfold backtrace.
    rewrite Hlen. replace (List.length tokens + 2 - 1)%nat with N by lia.
    replace (List.length tokens + 2)%nat with (N + 1)%nat by lia.
    unfold list_getitem, dict_getitem. rewrite Hcell, Hpcell. simpl.
    destruct (select_min (dict_items cell) "" PInf) as [min_key min_val].
    destruct (dict_get pcell (min_key, (N, N))) as [[phrase [s e]] |];
      reflexivity. }
  destruct (dict_items cell) as [| item items] eqn:Eitems.
  - assert (Hnone : dict_get pcell ("", (N, N)) = None).
    { apply (Hkeys ("", (N, N))). simpl.
      unfold dict_items in Eitems. now rewrite Eitems. }
    rewrite Hout. simpl. now rewrite Hnone.
  - destruct (select_min_first item items) as ([[phrase [s e]] c] & Hfirst & Heq).
    assert (He : e = N).
    { destruct Hfirst as (pre & post & Hsplit & _).
      assert (Hin : In ((phrase, (s, e)), c) cell).
      { unfold dict_items in Eitems. rewrite Eitems, Hsplit.
        apply in_or_app. right. now left. }
      now destruct (inv_span self _ st _ Hinv N cell _ c Hcell Hin). }
    subst e. exists phrase, s, c. split; [assumption |].
    rewrite Heq in Hout. simpl in Hout.
    split; [exact Hout |]. split.
    + intros ans Hans. rewrite Hout in Hans.
      destruct (dict_get cell (phrase, (N, N))) as [c' |] eqn:E; [eauto |].
      apply Hkeys in E. simpl in E. rewrite E in Hans. discriminate.
    + intros _ Hnone. rewrite Hout. apply Hkeys in Hnone. simpl in Hnone.
      now rewrite Hnone.
Qed.

(** ** A final state that spans more than the end marker (C5) *)

Lemma xgt_Fin_false (m v : R) : (m <= v)%R -> xgt (Fin m) v = false.
Proof.
  intros Hle. unfold xgt. destruct (Rgt_dec m v); [lra | reflexivity].
Qed.

Lemma wide_model_ok : tables_ok wide_model.
Proof.
  constructor; simpl; try discriminate.
  intros p1 targets p2 p. destruct (String.eqb p1 "a</s>"); [| discriminate].
  intros [= <-]. simpl. destruct (String.eqb p2 "Y"); [| discriminate].
  intros [= <-]. unfold is_probability. lra.
Qed.

Lemma forward_wide :
  forward wide_model ["<s>"; "a"; "</s>"] "<s>" 100 = Ok wide_lattice.
Proof.
  unfold forward, scan_position, scan_span, visit, extend.
  run_search wide_model_ok. reflexivity.
Qed.

Lemma wide_cost_least : (wide_cost <= wide_identity_cost)%R.
Proof.
  unfold wide_cost, wide_identity_cost.
  pose proof (neg_ln_pos _ (bigram_p_bounds wide_model wide_model_ok "a" "<")).
  pose proof (neg_ln_pos _ (phrase_p_bounds wide_model wide_model_ok "</s>" "</s>")).
  assert (- ln (phrase_p wide_model "a</s>" "Y")
          <= - ln (phrase_p wide_model "a" "a"))%R.
  { apply neg_ln_antitone. split.
    - apply (phrase_p_bounds wide_model wide_model_ok).
    - unfold phrase_p, phrase_term, phrase_floor. simpl. lra. }
  change (bigram_p wide_model ">" "Y") with (bigram_p wide_model ">" "a").
  lra.
Qed.

(** C5 at a failing input: the least-cost final state is ("Y", (1, 2)), the
    rewrite of the last token together with the end marker. The claimed
    reconstruction follows its chain and returns "Y"; [convert] looks up
    ("Y", (2, 2)) and raises [KeyError]. *)
Theorem convert_misses_wide_final_state :
  convert wide_model "a" = Some (Raise KeyError) /\
  SpecPath.convert wide_model "a" = Some (Ok "Y").
Proof.
  split.
  - unfold convert, search.
    change (bracket (chars "a") "<s>" "</s>") with ["<s>"; "a"; "</s>"].
    rewrite forward_wide. unfold backtrace, wide_lattice.
    cbn -[xgt wide_cost wide_identity_cost].
    rewrite (xgt_Fin_false _ _ wide_cost_least). reflexivity.
  - unfold SpecPath.convert, SpecPath.search.
    change (bracket (chars "a") "<s>" "</s>") with ["<s>"; "a"; "</s>"].
    rewrite forward_wide. unfold SpecPath.backtrace, wide_lattice.
    cbn -[wide_cost wide_identity_cost Rgt_dec].
    destruct (Rgt_dec wide_cost wide_identity_cost) as [Hgt | _].
    + pose proof wide_cost_least. lra.
    + reflexivity.
Qed.

Lemma alias_model_ok : tables_ok alias_model.
Proof.
  constructor; simpl; try discriminate.
  intros p1 targets p2 p. destruct (String.eqb p1 "</s>").
  - intros [= <-]. simpl. destruct (String.eqb p2 "X"); [| discriminate].
    intros [= <-]. unfold is_probability. lra.
  - destruct (String.eqb p1 "a</s>"); [| discriminate].
    intros [= <-]. simpl. destruct (String.eqb p2 "X"); [| discriminate].
    intros [= <-]. unfold is_probability. lra.
Qed.

Lemma forward_alias :
  forward alias_model ["<s>"; "a"; "</s>"] "<s>" 100 = Ok alias_lattice.
Proof.
  unfold forward, scan_position, scan_span, visit, extend.
  run_search alias_model_ok. reflexivity.
Qed.

Lemma alias_wide_cost_least :
  (alias_wide_cost <= alias_identity_cost)%R /\
  (alias_wide_cost <= alias_narrow_cost)%R.
Proof.
  unfold alias_wide_cost, alias_identity_cost, alias_narrow_cost, alias_first_cost.
  pose proof (neg_ln_pos _ (bigram_p_bounds alias_model alias_model_ok "a" "<")).
  pose proof (neg_ln_pos _ (bigram_p_bounds alias_model alias_model_ok "a" "X")).
  pose proof (neg_ln_pos _ (phrase_p_bounds alias_model alias_model_ok "</s>" "</s>")).
  pose proof (neg_ln_pos _ (phrase_p_bounds alias_model alias_model_ok "</s>" "X")).
  assert (- ln (phrase_p alias_model "a</s>" "X")
          <= - ln (phrase_p alias_model "a" "a"))%R.
  { apply neg_ln_antitone. split.
    - apply (phrase_p_bounds alias_model alias_model_ok).
    - unfold phrase_p, phrase_term, phrase_floor. simpl. lra. }
  change (bigram_p alias_model ">" "X") with (bigram_p alias_model ">" "a").
  lra.
Qed.

(** With a state of the same phrase and span (2, 2) present, the lookup
    succeeds and the chain of that other state is followed: the output keeps
    the token "a", which the chosen state ("X", (1, 2)) had rewritten. *)
Lemma convert_follows_other_chain :
  convert alias_model "a" = Some (Ok "aX") /\
  SpecPath.convert alias_model "a" = Some (Ok "X").
Proof.
  destruct alias_wide_cost_least as [H1 H2]. split.
  - unfold convert, search.
    change (bracket (chars "a") "<s>" "</s>") with ["<s>"; "a"; "</s>"].
    rewrite forward_alias. unfold backtrace, alias_lattice.
    cbn -[xgt alias_wide_cost alias_identity_cost alias_narrow_cost alias_first_cost].
    rewrite (xgt_Fin_false _ _ H1).
    cbn -[xgt alias_wide_cost alias_identity_cost alias_narrow_cost alias_first_cost].
    rewrite (xgt_Fin_false _ _ H2). reflexivity.
  - unfold SpecPath.convert, SpecPath.search.
    change (bracket (chars "a") "<s>" "</s>") with ["<s>"; "a"; "</s>"].
    rewrite forward_alias. unfold SpecPath.backtrace, alias_lattice.
    cbn -[alias_wide_cost alias_identity_cost alias_narrow_cost alias_first_cost Rgt_dec].
    destruct (Rgt_dec alias_wide_cost alias_identity_cost) as [Hgt | _]; [lra |].
    destruct (Rgt_dec alias_wide_cost alias_narrow_cost) as [Hgt | _]; [lra |].
    reflexivity.
Qed.

Lemma backtrace_looks_up_fixed_span_witness :
  forward wide_model (bracket ["a"] "<s>" "</s>") "<s>" 100 = Ok wide_lattice /\
  exists cell pcell,
    nth_error (best wide_lattice) 2 = Some cell /\
    nth_error (before_pos wide_lattice) 2 = Some pcell /\
    match dict_items cell with
    | [] => search wide_model ["a"] "<s>" "</s>" 100 = Some (Raise KeyError)
    | _ :: _ =>
        exists phrase s c,
          first_minimum (dict_items cell) ((phrase, (s, 2%nat)), c) /\
          search wide_model ["a"] "<s>" "</s>" 100 =
            match dict_get pcell (phrase, (2%nat, 2%nat)) with
            | None => Some (Raise KeyError)
            | Some pred => finish_backtrace wide_lattice 3 phrase pred
            end /\
          (forall ans, search wide_model ["a"] "<s>" "</s>" 100 = Some (Ok ans) ->
             exists c', dict_get cell (phrase, (2%nat, 2%nat)) = Some c') /\
          ((s < 2)%nat -> dict_get cell (phrase, (2%nat, 2%nat)) = None ->
           search wide_model ["a"] "<s>" "</s>" 100 = Some (Raise KeyError))
    end.
Proof.
  split; [exact forward_wide |].
  exact (backtrace_looks_up_fixed_span wide_model ["a"] "<s>" "</s>" 100
           wide_lattice forward_wide).
Defined.

Lemma search_alias :
  search alias_model ["a"] "<s>" "</s>" 100 = Some (Ok ["<s>"; "a"; "X"]).
Proof.
  destruct alias_wide_cost_least as [H1 H2].
  unfold search.
  change (bracket ["a"] "<s>" "</s>") with ["<s>"; "a"; "</s>"].
  rewrite forward_alias. unfold backtrace, alias_lattice.
  cbn -[xgt alias_wide_cost alias_identity_cost alias_narrow_cost alias_first_cost].
  rewrite (xgt_Fin_false _ _ H1).
  cbn -[xgt alias_wide_cost alias_identity_cost alias_narrow_cost alias_first_cost].
  rewrite (xgt_Fin_false _ _ H2). reflexivity.
Qed.

(** C10, as stated, fails: under [alias_model] the state of least cost at the
    final position is ("X", (1, 2)), which spans the token and the end
    marker, and yet [search] returns: the lookup under ("X", (2, 2)) finds
    the other state of the same phrase. *)
Lemma fixed_span_lookup_counterexample :
  forward alias_model (bracket ["a"] "<s>" "</s>") "<s>" 100 = Ok alias_lattice /\
  first_minimum
    [(("X", (1, 2)%nat), alias_wide_cost);
     (("</s>", (2, 2)%nat), alias_identity_cost);
     (("X", (2, 2)%nat), alias_narrow_cost)]
    (("X", (1, 2)%nat), alias_wide_cost) /\
  search alias_model ["a"] "<s>" "</s>" 100 = Some (Ok ["<s>"; "a"; "X"]) /\
  ~ SpecBacktrace.returns_only_from_narrow_state alias_model ["a"] "<s>" "</s>" 100.
Proof.
  destruct alias_wide_cost_least as [H1 H2].
  assert (Hfirst : first_minimum
            [(("X", (1, 2)%nat), alias_wide_cost);
             (("</s>", (2, 2)%nat), alias_identity_cost);
             (("X", (2, 2)%nat), alias_narrow_cost)]
            (("X", (1, 2)%nat), alias_wide_cost)).
  { exists [], [(("</s>", (2, 2)%nat), alias_identity_cost);
                (("X", (2, 2)%nat), alias_narrow_cost)].
    split; [reflexivity |]. split; [intros k c [] |].
    intros k c [[= <- <-] | [[= <- <-] | []]]; assumption. }
  split; [exact forward_alias |]. split; [exact Hfirst |].
  split; [exact search_alias |].
  intros Hclaim.
  pose proof (Hclaim alias_lattice _ "X" 1%nat alias_wide_cost _ forward_alias
                eq_refl Hfirst search_alias) as E.
  discriminate E.
Qed.

(** ** Decoding when nothing can be rewritten (C7, C8) *)

Lemma str_first_Ok (s : string) : s <> "" -> str_first s = Ok (first_str s).
Proof.
  destruct s; [congruence | reflexivity].
Qed.

Lemma str_last_Ok (s : string) : s <> "" -> str_last s = Ok (last_str s).
Proof.
  unfold str_last, last_str. intros Hne.
  assert (H : last_char s <> None).
  { induction s as [| c s IH]; [congruence |]. simpl.
    destruct s; [discriminate |]. apply IH. discriminate. }
  destruct (last_char s); [reflexivity | congruence].
Qed.

Lemma nth_error_repeat_if {A : Type} (x : A) (n i : nat) :
  nth_error (repeat x n) i = if Nat.ltb i n then Some x else None.
Proof.
  revert i. induction n as [| n IH]; intros [| i]; simpl; try reflexivity.
  rewrite IH. reflexivity.
Qed.

Section Identity.

Variable self : KovLang.
Variable sent : list string.

Hypothesis Hok : tables_ok self.
Hypothesis Hwords : forall i, (i < List.length sent)%nat -> word sent i <> "".
Hypothesis Hspans : forall s e,
  (1 <= s <= e)%nat -> (e < List.length sent)%nat ->
  dict_get (phrasemodel self) (join (slice sent s (e + 1))) = None.

Lemma nth_error_id_best (m i : nat) :
  nth_error (best (id_lattice self sent m)) i =
  if Nat.ltb i (List.length sent) then Some (id_best self sent m i) else None.
Proof.
  simpl. rewrite nth_error_map, nth_error_seq.
  destruct (Nat.ltb i (List.length sent)); reflexivity.
Qed.

Lemma nth_error_id_before (m i : nat) :
  nth_error (before_pos (id_lattice self sent m)) i =
  if Nat.ltb i (List.length sent) then Some (id_before sent m i) else None.
Proof.
  simpl. rewrite nth_error_map, nth_error_seq.
  destruct (Nat.ltb i (List.length sent)); reflexivity.
Qed.

Lemma id_lattice_length (m : nat) :
  List.length (best (id_lattice self sent m)) = List.length sent /\
  List.length (before_pos (id_lattice self sent m)) = List.length sent.
Proof.
  simpl. now rewrite !length_map, !length_seq.
Qed.

Lemma nth_error_word (i : nat) :
  (i < List.length sent)%nat -> nth_error sent i = Some (word sent i).
Proof.
  intros Hlt. now apply nth_error_nth'.
Qed.

Lemma word_span (i : nat) :
  (i < List.length sent)%nat -> join (slice sent i (i + 1)) = word sent i.
Proof.
  intros Hlt. apply slice_single. now apply nth_error_word.
Qed.

(** The step to the next word. *)
Lemma id_lattice_step (c : nat) :
  (c + 1 < List.length sent)%nat ->
  put_cells (id_lattice self sent c) (c + 1)
    ([(id_key sent (c + 1), path_cost self sent (c + 1))], [(id_key sent (c + 1), id_key sent c)]) =
  id_lattice self sent (c + 1).
Proof.
  intros Hlt. unfold put_cells, id_lattice. cbn [fst snd best before_pos].
  f_equal; apply nth_error_ext; intros i;
    rewrite nth_error_list_update, length_map, length_seq,
      !nth_error_map, !nth_error_seq;
    destruct (Nat.ltb_spec (c + 1) (List.length sent)); try lia;
    destruct (Nat.eqb_spec (c + 1) i) as [<- | Hne].
  - destruct (Nat.ltb_spec (c + 1) (List.length sent)); [| lia].
    cbn. unfold id_best. now rewrite Nat.leb_refl.
  - destruct (Nat.ltb i (List.length sent)); [| reflexivity].
    cbn. unfold id_best.
    destruct (Nat.leb_spec i c), (Nat.leb_spec i (c + 1)); try reflexivity; lia.
  - destruct (Nat.ltb_spec (c + 1) (List.length sent)); [| lia].
    cbn. unfold id_before.
    destruct (Nat.leb_spec 1 (c + 1)); [| lia]. rewrite Nat.leb_refl. cbn.
    now replace (c + 1 - 1)%nat with c by lia.
  - destruct (Nat.ltb i (List.length sent)); [| reflexivity].
    cbn. unfold id_before.
    destruct (Nat.leb_spec 1 i), (Nat.leb_spec i c), (Nat.leb_spec i (c + 1));
      try reflexivity; lia.
Qed.

Lemma id_cells_at (m i : nat) :
  (i < List.length sent)%nat ->
  cells_at (id_lattice self sent m) i (id_best self sent m i, id_before sent m i).
Proof.
  intros Hlt. unfold cells_at. rewrite nth_error_id_best, nth_error_id_before.
  destruct (Nat.ltb_spec i (List.length sent)); [auto | lia].
Qed.

(** From position [c], the span of the next word sent alone adds its state. *)
Lemma scan_span_next (c : nat) :
  (c + 1 < List.length sent)%nat ->
  scan_span self sent c (id_lattice self sent c) (c + 1) = Ok (id_lattice self sent (c + 1)).
Proof.
  intros Hlt. unfold scan_span, list_getitem.
  rewrite (nth_error_word (c + 1)) by lia. cbn [bind].
  rewrite nth_error_id_best.
  destruct (Nat.ltb_spec c (List.length sent)); [| lia]. cbn [bind].
  unfold id_best. rewrite Nat.leb_refl. unfold dict_items. cbn [for_each].
  unfold id_key at 1. rewrite visit_candidates. cbn [fst].
  rewrite (str_last_Ok (word sent c)) by (apply Hwords; lia). cbn [bind].
  unfold candidates. rewrite Nat.eqb_refl. unfold not_self_mapped.
  replace (c + 1 + 1)%nat with ((c + 1) + 1)%nat by lia.
  rewrite (Hspans (c + 1) (c + 1)) by lia. cbn [andb app for_each fst snd].
  rewrite word_span by lia.
  unfold extend.
  rewrite (str_first_Ok (word sent (c + 1))) by (apply Hwords; lia). cbn [bind].
  rewrite (bigram_cost_ok self Hok), (phrase_cost_ok self Hok). cbn [bind].
  rewrite (relax_cells _ _ (id_best self sent c (c + 1), id_before sent c (c + 1)))
    by (apply id_cells_at; lia).
  cbn [bind]. f_equal. rewrite <- (id_lattice_step c Hlt). f_equal.
  unfold id_best, id_before.
  destruct (Nat.leb_spec (c + 1) c); [lia |].
  rewrite andb_false_r. cbn. unfold id_key.
  replace (c + 1)%nat with (S c) by lia. reflexivity.
Qed.

(** A longer span is no key of the phrase table and changes nothing. *)
Lemma scan_span_longer (c e m : nat) :
  (c <= m)%nat -> (c + 1 < e)%nat -> (e < List.length sent)%nat ->
  scan_span self sent c (id_lattice self sent m) e = Ok (id_lattice self sent m).
Proof.
  intros Hcm Hce Hen. unfold scan_span, list_getitem.
  rewrite (nth_error_word (c + 1)) by lia. cbn [bind].
  rewrite nth_error_id_best.
  destruct (Nat.ltb_spec c (List.length sent)); [| lia]. cbn [bind].
  unfold id_best. destruct (Nat.leb_spec c m); [| lia].
  unfold dict_items. cbn [for_each].
  unfold id_key at 1. rewrite visit_candidates. cbn [fst].
  rewrite (str_last_Ok (word sent c)) by (apply Hwords; lia). cbn [bind].
  unfold candidates.
  destruct (Nat.eqb_spec (c + 1) e); [lia |].
  rewrite (Hspans (c + 1) e) by lia. reflexivity.
Qed.

Lemma scan_spans_longer (c m : nat) : forall (len e0 : nat),
  (c <= m)%nat -> (c + 1 < e0)%nat -> (e0 + len <= List.length sent)%nat ->
  for_each (seq e0 len) (scan_span self sent c) (id_lattice self sent m) = Ok (id_lattice self sent m).
Proof.
  induction len as [| len IH]; intros e0 Hcm Hlt Hlen; simpl; [reflexivity |].
  rewrite scan_span_longer by lia. cbn [bind]. apply IH; lia.
Qed.

Lemma scan_position_id (max_len : Z) (c : nat) :
  (1 <= max_len)%Z -> (c + 1 < List.length sent)%nat ->
  scan_position self sent max_len (id_lattice self sent c) c = Ok (id_lattice self sent (c + 1)).
Proof.
  intros HL Hlt. unfold scan_position, next_ends, py_range.
  remember (Z.to_nat (Z.min (Z.of_nat (List.length sent))
                        (Z.of_nat (c + 1) + max_len) - Z.of_nat (c + 1))) as len.
  destruct len as [| len]; [lia |]. simpl.
  rewrite scan_span_next by assumption. cbn [bind].
  apply scan_spans_longer; lia.
Qed.

Lemma scan_positions_id (max_len : Z) : forall (len c : nat),
  (1 <= max_len)%Z -> (c + len < List.length sent)%nat ->
  for_each (seq c len) (scan_position self sent max_len) (id_lattice self sent c) =
  Ok (id_lattice self sent (c + len)).
Proof.
  induction len as [| len IH]; intros c HL Hlen; simpl.
  - now rewrite Nat.add_0_r.
  - rewrite scan_position_id by (assumption || lia). cbn [bind].
    replace (c + 1)%nat with (S c) by lia.
    replace (c + S len)%nat with (S c + len)%nat by lia.
    apply IH; [assumption | lia].
Qed.

Lemma initial_lattice_id (start_symbol : string) :
  (1 <= List.length sent)%nat -> word sent 0 = start_symbol ->
  initial_lattice (List.length sent) start_symbol = Ok (id_lattice self sent 0).
Proof.
  intros Hlen Hstart. unfold id_lattice.
  destruct (List.length sent) as [| n]; [lia |].
  rewrite initial_lattice_Ok. f_equal.
  f_equal; apply nth_error_ext; intros i;
    rewrite nth_error_map, nth_error_seq.
  - destruct i as [| i].
    + cbn. unfold id_key. now rewrite Hstart.
    + simpl nth_error. rewrite nth_error_repeat_if.
      destruct (Nat.ltb_spec i n), (Nat.ltb_spec (S i) (S n)); try lia;
        reflexivity.
  - rewrite nth_error_repeat_if.
    destruct (Nat.ltb i (S n)); [| reflexivity].
    cbn. unfold id_before.
    destruct (Nat.leb_spec 1 i), (Nat.leb_spec i 0); try reflexivity; lia.
Qed.

Lemma forward_id (start_symbol : string) (max_len : Z) :
  (1 <= max_len)%Z -> (1 <= List.length sent)%nat -> word sent 0 = start_symbol ->
  forward self sent start_symbol max_len = Ok (id_lattice self sent (List.length sent - 1)).
Proof.
  intros HL Hlen Hstart. unfold forward.
  rewrite initial_lattice_id by assumption. cbn [bind].
  rewrite positions_pred by assumption.
  change (List.length sent - 1)%nat with (0 + (List.length sent - 1))%nat at 2.
  apply scan_positions_id; [assumption | lia].
Qed.

End Identity.

Section IdentityPath.

Variable self : KovLang.
Variable sent : list string.

Lemma firstn_succ_word (j : nat) :
  (j < List.length sent)%nat ->
  firstn (S j) sent = firstn j sent ++ [word sent j].
Proof.
  unfold word. revert j. induction sent as [| w l IH]; intros j Hlt; simpl in Hlt; [lia |].
  destruct j as [| j]; [reflexivity |].
  rewrite firstn_cons. simpl. f_equal. apply IH. lia.
Qed.

Lemma walk_back_id (m : nat) : forall (i fuel : nat) (ans : list string),
  (i <= fuel)%nat -> (i < List.length sent)%nat -> (i <= m)%nat ->
  walk_back fuel (before_pos (id_lattice self sent m)) (word sent i) i i ans =
  Some (Ok (ans ++ rev (firstn i sent))).
Proof.
  induction i as [| j IH]; intros fuel ans Hfuel Hlen Hm.
  - destruct fuel; simpl; now rewrite app_nil_r.
  - destruct fuel as [| fuel]; [lia |].
    cbn [walk_back Nat.eqb]. unfold list_getitem.
    rewrite nth_error_id_before.
    destruct (Nat.ltb_spec (S j) (List.length sent)); [| lia]. cbn [bind].
    unfold id_before.
    destruct (Nat.leb_spec 1 (S j)); [| lia].
    destruct (Nat.leb_spec (S j) m); [| lia]. cbn [andb].
    unfold dict_getitem. cbn [dict_get]. unfold id_key at 1.
    rewrite key_eqb_refl. unfold id_key.
    replace (S j - 1)%nat with j by lia.
    rewrite IH by lia.
    rewrite firstn_succ_word by lia.
    now rewrite rev_app_distr, <- app_assoc.
Qed.

Lemma backtrace_id :
  (2 <= List.length sent)%nat ->
  backtrace (id_lattice self sent (List.length sent - 1)) (List.length sent) =
  Some (Ok sent).
Proof.
  intros Hlen. set (n := List.length sent) in *.
  unfold backtrace, list_getitem.
  rewrite nth_error_id_best, nth_error_id_before. fold n.
  destruct (Nat.ltb_spec (n - 1) n); [| lia].
  unfold id_best, id_before. rewrite Nat.leb_refl.
  destruct (Nat.leb_spec 1 (n - 1)); [| lia].
  unfold dict_items. cbn [select_min xgt andb bind app].
  unfold id_key at 1. cbn [select_min xgt].
  unfold dict_getitem. cbn [dict_get]. unfold id_key at 1.
  rewrite key_eqb_refl. unfold id_key.
  assert (Hwalk := walk_back_id (n - 1) (n - 1 - 1) n
                     [word sent (n - 1); word sent (n - 1 - 1)]).
  fold n in Hwalk. rewrite Hwalk by lia.
  f_equal. f_equal.
  rewrite rev_app_distr, rev_involutive. simpl rev.
  change [word sent (n - 1 - 1); word sent (n - 1)]
    with ([word sent (n - 1 - 1)] ++ [word sent (n - 1)]).
  rewrite app_assoc, <- firstn_succ_word by (fold n; lia).
  replace (S (n - 1 - 1)) with (n - 1)%nat by lia.
  rewrite <- firstn_succ_word by (fold n; lia).
  replace (S (n - 1)) with n by lia.
  apply firstn_all.
Qed.

End IdentityPath.

Lemma search_identity (self : KovLang) (tokens : list string)
  (start_symbol end_symbol : string) (max_len : Z) :
  let sent := bracket tokens start_symbol end_symbol in
  tables_ok self -> (1 <= max_len)%Z ->
  Forall (fun w => w <> "") sent ->
  (forall s e, (1 <= s <= e)%nat -> (e < List.length sent)%nat ->
     dict_get (phrasemodel self) (join (slice sent s (e + 1))) = None) ->
  search self tokens start_symbol end_symbol max_len = Some (Ok sent).
Proof.
  intros sent Hok HL Hwords Hspans. unfold search. fold sent.
  assert (Hlen : (2 <= List.length sent)%nat)
    by (unfold sent; rewrite bracket_length; lia).
  assert (Hw : forall i, (i < List.length sent)%nat -> word sent i <> "").
  { intros i Hi. rewrite Forall_forall in Hwords. apply Hwords.
    unfold word. now apply nth_In. }
  rewrite (forward_id self sent Hok Hw Hspans start_symbol max_len HL);
    [| lia | reflexivity].
  now apply backtrace_id.
Qed.

(** *** Strings *)

Lemma join_cons (w : string) (l : list string) :
  join (w :: l) = String.append w (join l).
Proof.
  unfold join. destruct l as [| w' l]; simpl.
  - induction w as [| c w IH]; simpl; [reflexivity | now rewrite <- IH].
  - reflexivity.
Qed.

Lemma append_assoc (a b c : string) :
  String.append (String.append a b) c = String.append a (String.append b c).
Proof.
  induction a as [| x a IH]; simpl; [reflexivity | now rewrite IH].
Qed.

Lemma join_app (l1 l2 : list string) :
  join (l1 ++ l2) = String.append (join l1) (join l2).
Proof.
  induction l1 as [| w l1 IH]; [reflexivity |].
  rewrite <- app_comm_cons, !join_cons, IH. now rewrite append_assoc.
Qed.

Lemma join_chars (s : string) : join (chars s) = s.
Proof.
  induction s as [| c s IH]; [reflexivity |].
  change (chars (String c s)) with (String c EmptyString :: chars s).
  rewrite join_cons, IH. reflexivity.
Qed.

Lemma chars_nonempty (s : string) : Forall (fun w => w <> "") (chars s).
Proof.
  unfold chars. apply Forall_forall. intros w Hin.
  apply in_map_iff in Hin as (c & <- & _). discriminate.
Qed.

Lemma at_dollar_marker (s : string) :
  at_dollar (String.append s "</s>") = false.
Proof.
  destruct s as [| a [| b s]]; try reflexivity;
    unfold at_dollar, newline; simpl;
    destruct (Ascii.eqb a _); reflexivity.
Qed.

(** Inside the text the second alternative of the pattern never matches: a
    marker that is followed by more than a final newline does not end the
    text. *)
Lemma sub_markers_body (s : string) :
  sub_markers_from false 0 (String.append s "</s>") = s.
Proof.
  induction s as [| c s IH]; [reflexivity |].
  change (String.append (String c s) "</s>")
    with (String c (String.append s "</s>")).
  cbn [sub_markers_from andb].
  replace (String.prefix "</s>" (String c (String.append s "</s>")) &&
           at_dollar (drop 4 (String c (String.append s "</s>")))) with false.
  - now rewrite IH.
  - symmetry. apply andb_false_iff.
    destruct s as [| c1 [| c2 [| c3 s]]].
    + right. reflexivity.
    + right. reflexivity.
    + right. reflexivity.
    + right. cbn [drop String.append]. apply at_dollar_marker.
Qed.

Lemma sub_markers_start (rest : string) :
  sub_markers_from true 0 (String "<" (String "s" (String ">" rest))) =
  sub_markers_from false 0 rest.
Proof. destruct rest; reflexivity. Qed.

Lemma re_sub_markers_bracketed (s : string) :
  re_sub_markers (String.append "<s>" (String.append s "</s>")) = s.
Proof.
  unfold re_sub_markers.
  change (String.append "<s>" (String.append s "</s>"))
    with (String "<" (String "s" (String ">" (String.append s "</s>")))).
  rewrite sub_markers_start. apply sub_markers_body.
Qed.

Lemma convert_identity (self : KovLang) (input : string) :
  let sent := bracket (chars input) "<s>" "</s>" in
  tables_ok self ->
  (forall s e, (1 <= s <= e)%nat -> (e < List.length sent)%nat ->
     dict_get (phrasemodel self) (join (slice sent s (e + 1))) = None) ->
  search self (chars input) "<s>" "</s>" 100 = Some (Ok sent) /\
  convert self input = Some (Ok input).
Proof.
  intros sent Hok Hspans.
  assert (Hsearch : search self (chars input) "<s>" "</s>" 100 = Some (Ok sent)).
  { apply search_identity; try assumption; [lia |].
    unfold bracket. apply Forall_app. split; [repeat constructor; discriminate |].
    apply Forall_app. split; [apply chars_nonempty |].
    repeat constructor. discriminate. }
  split; [exact Hsearch |].
  unfold convert. rewrite Hsearch. do 2 f_equal.
  unfold sent, bracket. rewrite !join_app, join_chars.
  apply re_sub_markers_bracketed.
Qed.



(** C7: for the empty input, when the end marker has no phrase-table entry
    and the stored probabilities lie in (0, 1], [convert] returns the empty
    string; no exception is raised. *)
Theorem convert_empty_input (self : KovLang) (Hok : tables_ok self)
  (Hend : dict_get (phrasemodel self) "</s>" = None) :
  convert self "" = Some (Ok "").
Proof.
  apply (convert_identity self ""); [assumption |].
  intros s e Hse He.
  change (List.length (bracket (chars "") "<s>" "</s>")) with 2%nat in He.
  assert (s = 1%nat) by lia. assert (e = 1%nat) by lia. subst s e.
  exact Hend.
Qed.

Lemma convert_empty_input_witness : convert empty_model "" = Some (Ok "").
Proof.
  apply (convert_empty_input empty_model empty_model_ok). reflexivity.
Defined.

(** ** Loading (C9) *)

Section LoadingFacts.

Variable float_of_str : string -> option R.

Lemma unpack2_raises {A : Type} (l : list A) :
  raises (unpack2 l) <-> List.length l <> 2%nat.
Proof.
  unfold raises, unpack2.
  destruct l as [| a [| b [| c l]]]; simpl; split;
    try (intros _; eauto; fail); try (intros [e He]; discriminate);
    try (intros H; lia); try (intros H; now elim H).
Qed.

Lemma load_phrase_line_raises (pm : dict string (dict string R)) (line : string) :
  raises (load_phrase_line float_of_str pm line) <-> bad_phrase_line float_of_str line.
Proof.
  unfold load_phrase_line, bad_phrase_line, fields, raises, py_float.
  destruct (split tab (rstrip line)) as [| words [| prob [| x l]]]; simpl;
    try solve [split; [auto | intros _; eauto]].
  destruct (float_of_str prob) as [p |]; simpl;
    [| split; [auto | intros _; eauto]].
  destruct (split comma words) as [| w1 [| w2 [| y l]]]; simpl;
    try solve [split; [intros _; right; lia | intros _; eauto]].
  split; [| intros [H | H]; [discriminate | lia]].
  intros [e He]. exfalso. revert He.
  unfold dict_getitem, dict_in.
  destruct (dict_get pm w1) as [inner |] eqn:E; simpl.
  - rewrite E. discriminate.
  - rewrite dict_get_set_same. discriminate.
Qed.

Lemma load_bigram_line_raises
  (models : dict string R * dict (string * string) R) (line : string) :
  raises (load_bigram_line float_of_str models line) <-> bad_bigram_line float_of_str line.
Proof.
  destruct models as [um bm].
  unfold load_bigram_line, bad_bigram_line, fields, raises, py_float.
  destruct (split tab (rstrip line)) as [| words [| prob [| x l]]]; simpl;
    try solve [split; [auto | intros _; eauto]].
  destruct (float_of_str prob) as [p |]; simpl;
    [| split; [auto | intros _; eauto]].
  destruct (contains blank words); simpl.
  - destruct (split blank words) as [| w1 [| w2 [| y l]]]; simpl;
      try solve [split; [intros _; right; split; [reflexivity | lia]
                        | intros _; eauto]].
    split; [intros [e He]; discriminate |].
    intros [H | [_ H]]; [discriminate | lia].
  - split; [intros [e He]; discriminate |].
    intros [H | [H _]]; discriminate.
Qed.

Lemma for_each_raises {A S : Type} (body : S -> A -> result S)
  (bad : A -> Prop) :
  (forall s x, raises (body s x) <-> bad x) ->
  forall xs s, raises (for_each xs body s) <-> Exists bad xs.
Proof.
  intros Hbody. induction xs as [| x xs IH]; intros s; simpl.
  - split; [intros [e He]; discriminate | intros H; inversion H].
  - destruct (body s x) as [s' |] eqn:E; simpl.
    + rewrite IH. split; [intros H; now right |].
      intros H. inversion H as [? ? Hbad | ? ? Hrest]; subst; [| assumption].
      apply (Hbody s) in Hbad. destruct Hbad as [e He]. congruence.
    + split; [| intros _; eexists; reflexivity].
      intros _. left. apply (Hbody s). eexists. exact E.
Qed.

Lemma for_each_error {A S : Type} (body : S -> A -> result S) (err : exn) :
  (forall s x e, body s x = Raise e -> e = err) ->
  forall xs s e, for_each xs body s = Raise e -> e = err.
Proof.
  intros Hbody. induction xs as [| x xs IH]; intros s e; simpl; [discriminate |].
  destruct (body s x) as [s' |] eqn:E; simpl; [apply IH |].
  intros [= <-]. exact (Hbody _ _ _ E).
Qed.

End LoadingFacts.

(** C9, as stated, fails: the line splits into two tab-separated fields and
    its second field is a number, so it is a record in the claim's sense,
    yet [load_bigram_model] raises on it: the token field has two blanks and
    does not unpack into two tokens. *)
Lemma bigram_loader_counterexample :
  load_bigram_model (fun _ => Some 0.5%R) [three_token_line] = Raise ValueError /\
  ~ Exists (SpecLoad.bad_bigram_line (fun _ => Some 0.5%R)) [three_token_line].
Proof.
  split; [reflexivity |].
  intros H. inversion H as [? ? Hbad | ? ? Hrest]; subst.
  - unfold SpecLoad.bad_bigram_line, bad_record in Hbad.
    cbv in Hbad. discriminate.
  - inversion Hrest.
Qed.

(** C9, amended: each loader raises (a [ValueError], and no model is
    returned) exactly when some line, taken without its trailing whitespace,
    does not split into exactly two tab-separated fields, or its second field
    denotes no number, or, for the phrase table, its first field does not
    split into exactly two comma-separated phrases, or, for the bigram table,
    its first field contains a blank and does not split into exactly two
    blank-separated tokens; otherwise the loader returns a model. *)
Theorem loading_fails_on_bad_lines (float_of_str : string -> option R)
  (lines : list string) :
  (raises (load_phrase_model float_of_str lines) <->
   Exists (bad_phrase_line float_of_str) lines) /\
  (raises (load_bigram_model float_of_str lines) <->
   Exists (bad_bigram_line float_of_str) lines) /\
  (forall e, load_phrase_model float_of_str lines = Raise e -> e = ValueError) /\
  (forall e, load_bigram_model float_of_str lines = Raise e -> e = ValueError) /\
  (~ Exists (bad_phrase_line float_of_str) lines ->
   exists pm, load_phrase_model float_of_str lines = Ok pm) /\
  (~ Exists (bad_bigram_line float_of_str) lines ->
   exists models, load_bigram_model float_of_str lines = Ok models).
Proof.
  assert (Hp : raises (load_phrase_model float_of_str lines) <->
               Exists (bad_phrase_line float_of_str) lines).
  { apply for_each_raises. intros. apply load_phrase_line_raises. }
  assert (Hb : raises (load_bigram_model float_of_str lines) <->
               Exists (bad_bigram_line float_of_str) lines).
  { apply for_each_raises. intros. apply load_bigram_line_raises. }
  repeat split; try apply Hp; try apply Hb.
  - apply for_each_error. intros pm line e.
    unfold load_phrase_line, py_float, unpack2, dict_getitem.
    destruct (split tab (rstrip line)) as [| words [| prob [| x l]]]; simpl;
      try (intros [= <-]; reflexivity).
    destruct (float_of_str prob); simpl; [| intros [= <-]; reflexivity].
    destruct (split comma words) as [| w1 [| w2 [| y l]]]; simpl;
      try (intros [= <-]; reflexivity).
    unfold dict_in. destruct (dict_get pm w1) as [inner |] eqn:E; simpl.
    + rewrite E. discriminate.
    + rewrite dict_get_set_same. discriminate.
  - apply for_each_error. intros [um bm] line e.
    unfold load_bigram_line, py_float, unpack2.
    destruct (split tab (rstrip line)) as [| words [| prob [| x l]]]; simpl;
      try (intros [= <-]; reflexivity).
    destruct (float_of_str prob); simpl; [| intros [= <-]; reflexivity].
    destruct (contains blank words); [| discriminate].
    destruct (split blank words) as [| w1 [| w2 [| y l]]]; simpl;
      first [discriminate | intros [= <-]; reflexivity].
  - intros Hgood.
    destruct (load_phrase_model float_of_str lines) as [pm | e] eqn:E; [eauto |].
    elim Hgood. apply Hp. eexists. reflexivity.
  - intros Hgood.
    destruct (load_bigram_model float_of_str lines) as [m | e] eqn:E; [eauto |].
    elim Hgood. apply Hb. eexists. reflexivity.
Qed.

(** ** Where the backtrace and the specified reconstruction agree *)

Lemma select_min_state_phrase (items : list (key * R)) :
  forall chosen,
    chosen_pair (SpecPath.select_min_state items chosen) =
    select_min items (fst (chosen_pair chosen)) (snd (chosen_pair chosen)).
Proof.
  induction items as [| [[p sp] v] items IH]; intros chosen; simpl.
  - now destruct (chosen_pair chosen).
  - destruct chosen as [[[p0 sp0] v0] |]; simpl.
    + destruct (Rgt_dec v0 v); rewrite IH; reflexivity.
    + rewrite IH. reflexivity.
Qed.

(** When the chosen final state has the span (N, N), [search] returns what
    the specified reconstruction returns. *)
Lemma search_agrees_on_single_final_span (self : KovLang)
  (tokens : list string) (start_symbol end_symbol : string) (max_len : Z)
  (st : lattice) (cell : dict key R) (phrase : string) (c : R) :
  let N := (List.length tokens + 1)%nat in
  forward self (bracket tokens start_symbol end_symbol) start_symbol max_len
    = Ok st ->
  nth_error (best st) N = Some cell ->
  SpecPath.select_min_state (dict_items cell) None = Some ((phrase, (N, N)), c) ->
  search self tokens start_symbol end_symbol max_len =
  SpecPath.search self tokens start_symbol end_symbol max_len.
Proof.
  intros N Hrun Hcell Hsel.
  unfold search, SpecPath.search. rewrite Hrun.
  unfold backtrace, SpecPath.backtrace.
  rewrite bracket_length.
  replace (List.length tokens + 2 - 1)%nat with N by lia.
  unfold list_getitem at 1 3. rewrite Hcell.
  pose proof (select_min_state_phrase (dict_items cell) None) as Hphrase.
  rewrite Hsel in Hphrase. simpl in Hphrase. rewrite <- Hphrase, Hsel.
  cbn [fst].
  destruct (pcell <- list_getitem (before_pos st) N;;
            dict_getitem pcell (phrase, (N, N))) as [[p [s e]] | err];
    reflexivity.
Qed.

(** * Further properties of the code *)

(** ** The scoring functions at any parameters *)





(** A query that no table entry applies to gets the highest cost there is:
    no query costs more than the floor alone, and a query that meets no
    entry costs exactly that. *)
Theorem unseen_queries_cost_most (self : KovLang) (Hok : tables_ok self)
  (w0 w1 p1 p2 : string) :
  (exists c,
     bigram_cost self w0 w1 = Ok c /\ (c <= - ln bigram_floor)%R /\
     (dict_get (bimodel self) (w0, w1) = None ->
      dict_get (bimodel self) (w0, "*") = None ->
      dict_get (unimodel self) w1 = None ->
      c = (- ln bigram_floor)%R)) /\
  (exists c,
     phrase_cost self p1 p2 = Ok c /\ (c <= - ln phrase_floor)%R /\
     (phrasemodel_get (phrasemodel self) p1 p2 = None ->
      c = (- ln phrase_floor)%R)).
Proof.
  assert (Hbf : (0 < bigram_floor)%R) by (unfold bigram_floor; lra).
  assert (Hpf : (0 < phrase_floor)%R) by (unfold phrase_floor; lra).
  split.
  - exists (- ln (bigram_p self w0 w1))%R.
    split; [now apply bigram_cost_ok |].
    pose proof (bigram_term_bounds self Hok w0 w1) as Hbt.
    pose proof (unigram_term_bounds self Hok w1) as Hut.
    split; [apply neg_ln_antitone; unfold bigram_p; lra |].
    intros E1 E2 E3. unfold bigram_p, bigram_term, unigram_term.
    rewrite E1, E2, E3. do 2 f_equal. lra.
  - exists (- ln (phrase_p self p1 p2))%R.
    split; [now apply phrase_cost_ok |].
    pose proof (phrase_term_bounds self Hok p1 p2) as Hpt.
    split; [apply neg_ln_antitone; unfold phrase_p; lra |].
    intros E. unfold phrase_p, phrase_term. unfold phrasemodel_get in E.
    destruct (dict_get (phrasemodel self) p1) as [targets |];
      [rewrite E |]; do 2 f_equal; lra.
Qed.

Lemma unseen_queries_cost_most_witness :
  (exists c,
     bigram_cost small_model "x" "y" = Ok c /\ (c <= - ln bigram_floor)%R /\
     (dict_get (bimodel small_model) ("x", "y") = None ->
      dict_get (bimodel small_model) ("x", "*") = None ->
      dict_get (unimodel small_model) "y" = None ->
      c = (- ln bigram_floor)%R)) /\
  (exists c,
     phrase_cost small_model "a" "b" = Ok c /\ (c <= - ln phrase_floor)%R /\
     (phrasemodel_get (phrasemodel small_model) "a" "b" = None ->
      c = (- ln phrase_floor)%R)).
Proof.
  exact (unseen_queries_cost_most small_model small_model_ok "x" "y" "a" "b").
Defined.

(** ** The maximum phrase length *)

Lemma for_each_ext {A S : Type} (body body' : S -> A -> result S) (xs : list A) :
  (forall s x, In x xs -> body s x = body' s x) ->
  forall s, for_each xs body s = for_each xs body' s.
Proof.
  induction xs as [| x xs IH]; intros Hext s; simpl; [reflexivity |].
  rewrite (Hext s x) by now left.
  destruct (body' s x) as [s' |]; simpl; [| reflexivity].
  apply IH. intros s0 x0 Hin. apply Hext. now right.
Qed.

Lemma for_each_skip {A S : Type} (body : S -> A -> result S) (xs : list A) :
  (forall s x, body s x = Ok s) -> forall s, for_each xs body s = Ok s.
Proof.
  intros Hskip. induction xs as [| x xs IH]; intros s; simpl; [reflexivity |].
  rewrite Hskip. simpl. apply IH.
Qed.

Lemma search_skips_all_spans (self : KovLang) (tokens : list string)
  (start_symbol end_symbol : string) (max_len : Z) :
  (max_len <= 0)%Z ->
  search self tokens start_symbol end_symbol max_len = Some (Raise KeyError).
Proof.
  intros Hlen.
  unfold search, forward.
  rewrite bracket_length.
  replace (List.length tokens + 2)%nat with (S (S (List.length tokens))) by lia.
  rewrite initial_lattice_Ok. cbn [bind].
  rewrite for_each_skip.
  - set (n := List.length tokens).
    assert (Hb : forall x : dict key R,
               nth_error (x :: repeat [] (S n)) (S n) = Some []).
    { intros x.
      change (nth_error (x :: repeat [] (S n)) (S n))
        with (nth_error (repeat ([] : dict key R) (S n)) n).
      rewrite nth_error_repeat_if.
      destruct (Nat.ltb_spec n (S n)); [reflexivity | lia]. }
    unfold backtrace, list_getitem, dict_getitem.
    replace (S (S n) - 1)%nat with (S n) by lia.
    cbn [best before_pos]. rewrite Hb, nth_error_repeat_if.
    destruct (Nat.ltb_spec (S n) (S (S n))); [reflexivity | lia].
  - intros st c. unfold scan_position, next_ends, py_range.
    replace (Z.to_nat _) with 0%nat by lia. reflexivity.
Qed.

(** With a maximum phrase length of 0 or less no span is ever tried, the
    final position holds no state, and the backtrace fails on its first
    lookup: [search] raises [KeyError] on every input. *)
Theorem search_without_spans_raises (self : KovLang) (tokens : list string)
  (start_symbol end_symbol : string) (max_len : Z)
  (Hlen : (max_len <= 0)%Z) :
  search self tokens start_symbol end_symbol max_len = Some (Raise KeyError).
Proof.
  now apply search_skips_all_spans.
Qed.

Lemma search_without_spans_raises_witness :
  search small_model ["a"; "b"] "<s>" "</s>" 0 = Some (Raise KeyError).
Proof.
  apply (search_without_spans_raises small_model ["a"; "b"] "<s>" "</s>" 0). lia.
Defined.

(** A maximum phrase length that reaches from the first token to the end
    marker is as good as any larger one: the result of [search] is the same.
    In particular the default 100 of [convert] bounds nothing on inputs of at
    most 99 tokens. *)
Theorem max_len_saturates (self : KovLang) (tokens : list string)
  (start_symbol end_symbol : string) (max_len max_len' : Z)
  (H : (Z.of_nat (List.length tokens) + 1 <= max_len)%Z)
  (H' : (Z.of_nat (List.length tokens) + 1 <= max_len')%Z) :
  search self tokens start_symbol end_symbol max_len =
  search self tokens start_symbol end_symbol max_len'.
Proof.
  unfold search.
  assert (E : forward self (bracket tokens start_symbol end_symbol) start_symbol max_len =
              forward self (bracket tokens start_symbol end_symbol) start_symbol max_len').
  { unfold forward.
    destruct (initial_lattice _ start_symbol) as [st0 |]; [| reflexivity]. cbn [bind].
    apply for_each_ext. intros st c _.
    unfold scan_position, next_ends. rewrite bracket_length. do 2 f_equal. lia. }
  now rewrite E.
Qed.

Lemma max_len_saturates_witness :
  search small_model ["a"; "b"] "<s>" "</s>" 3 =
  search small_model ["a"; "b"] "<s>" "</s>" 100.
Proof.
  apply (max_len_saturates small_model ["a"; "b"] "<s>" "</s>" 3 100); simpl; lia.
Defined.

(** ** The forward pass, by induction over its loops *)

Lemma span_limit_spec (sent_len curpos : nat) (max_len : Z) (e : nat) :
  (curpos + 1 <= sent_len)%nat ->
  (curpos + 1 <= e)%nat ->
  ((e < span_limit sent_len curpos max_len)%nat <->
   (e < sent_len)%nat /\ (Z.of_nat e < Z.of_nat (curpos + 1) + max_len)%Z).
Proof.
  intros Hc He. unfold span_limit, next_ends, py_range. rewrite length_seq. lia.
Qed.

Lemma next_ends_seq (sent_len curpos : nat) (max_len : Z) :
  next_ends sent_len curpos max_len =
  seq (curpos + 1) (span_limit sent_len curpos max_len - (curpos + 1)).
Proof.
  unfold span_limit, next_ends, py_range. rewrite length_seq. f_equal. lia.
Qed.

Lemma word_nth_error (sent : list string) (i : nat) (w : string) :
  nth_error sent i = Some w -> word sent i = w.
Proof.
  intros E. unfold word. now apply nth_error_nth.
Qed.

Section SpanRun.

Variable self : KovLang.
Variable sent : list string.

Lemma scan_span_trace (curpos e : nat) (st st' : lattice) (cp : cells)
  (cell0 : dict key R) :
  cells_at st e cp ->
  nth_error (best st) curpos = Some cell0 ->
  scan_span self sent curpos st e = Ok st' ->
  exists ts,
    st' = put_cells st e (fold_left relax_cell ts cp) /\
    trace_of self (curpos + 1) e (join (slice sent (curpos + 1) (e + 1)))
      (dict_items cell0)
      (candidates self (curpos + 1) e (join (slice sent (curpos + 1) (e + 1)))
         (word sent (curpos + 1))) ts.
Proof.
  intros Hat Hcell Hrun. unfold scan_span in Hrun.
  apply bind_Ok in Hrun as (nw & Hnw & Hrun).
  apply list_getitem_Ok in Hnw.
  unfold list_getitem in Hrun. rewrite Hcell in Hrun. simpl in Hrun.
  destruct (items_cells self _ _ _ _ _ _ _ _ Hat Hrun) as (ts & -> & Htr).
  exists ts. split; [reflexivity |].
  now rewrite (word_nth_error _ _ _ Hnw).
Qed.

End SpanRun.

Section ForwardInduction.

Variable self : KovLang.
Variable sent : list string.
Variable max_len : Z.

(** [I c st]: the state after the positions below [c]; [J c e st]: the state
    at position [c] after the end positions below [e]. *)
Variable I : nat -> lattice -> Prop.
Variable J : nat -> nat -> lattice -> Prop.

Hypothesis Henter : forall c st,
  (c + 1 < List.length sent)%nat ->
  lattice_inv self sent st c -> I c st -> J c (c + 1) st.

Hypothesis Hstep : forall c e st cp cell0 ts,
  (c < e)%nat -> (e < List.length sent)%nat ->
  (Z.of_nat e < Z.of_nat (c + 1) + max_len)%Z ->
  lattice_inv self sent st (c + 1) ->
  fresh_from st (c + 1) e ->
  cells_at st e cp ->
  nth_error (best st) c = Some cell0 ->
  trace_of self (c + 1) e (join (slice sent (c + 1) (e + 1))) (dict_items cell0)
    (candidates self (c + 1) e (join (slice sent (c + 1) (e + 1)))
       (word sent (c + 1))) ts ->
  J c e st -> J c (e + 1) (put_cells st e (fold_left relax_cell ts cp)).

Hypothesis Hleave : forall c st,
  (c + 1 < List.length sent)%nat ->
  lattice_inv self sent st (c + 1) ->
  J c (span_limit (List.length sent) c max_len) st -> I (c + 1) st.

Lemma scan_spans_induction (c : nat) :
  forall (len e0 : nat) (st st' : lattice),
    (c < e0)%nat -> (e0 + len <= List.length sent)%nat ->
    (forall e, (e0 <= e)%nat -> (e < e0 + len)%nat ->
       (Z.of_nat e < Z.of_nat (c + 1) + max_len)%Z) ->
    lattice_inv self sent st (c + 1) ->
    fresh_from st (c + 1) e0 ->
    J c e0 st ->
    for_each (seq e0 len) (scan_span self sent c) st = Ok st' ->
    J c (e0 + len) st'.
Proof.
  induction len as [| len IH]; intros e0 st st' Hlt Hlen Hmax Hinv Hfresh HJ; simpl.
  - intros [= <-]. now rewrite Nat.add_0_r.
  - intros Hrun. apply bind_Ok in Hrun as (st1 & Hspan & Hrest).
    destruct (scan_span_inv self sent c e0 st st1) as [Hinv1 Hfresh1];
      try assumption; [lia |].
    pose proof Hinv as [L1 L2 _ _ _ _].
    destruct (nth_error_in_range (best st) e0) as [bc Hbc]; [lia |].
    destruct (nth_error_in_range (before_pos st) e0) as [pc Hpc]; [lia |].
    destruct (nth_error_in_range (best st) c) as [cell0 Hcell0]; [lia |].
    assert (Hat : cells_at st e0 (bc, pc)) by (split; assumption).
    destruct (scan_span_trace self sent c e0 st st1 (bc, pc) cell0 Hat Hcell0 Hspan)
      as (ts & E & Htr).
    replace (e0 + S len)%nat with (S e0 + len)%nat by lia.
    apply (IH (S e0) st1 st'); try assumption; try lia.
    + intros e H1 H2. apply Hmax; lia.
    + now replace (S e0) with (e0 + 1)%nat by lia.
    + replace (S e0) with (e0 + 1)%nat by lia. rewrite E.
      apply (Hstep c e0 st (bc, pc) cell0 ts); try assumption; try lia.
      apply Hmax; lia.
Qed.

Lemma scan_position_induction (c : nat) (st st' : lattice) :
  (c + 1 < List.length sent)%nat ->
  lattice_inv self sent st c -> I c st ->
  scan_position self sent max_len st c = Ok st' ->
  I (c + 1) st'.
Proof.
  intros Hlt Hinv HI Hrun.
  pose proof (scan_position_inv self sent max_len c st st' Hlt Hinv Hrun) as Hinv'.
  apply (Hleave c st' Hlt Hinv').
  unfold scan_position in Hrun. rewrite next_ends_seq in Hrun.
  set (n := (span_limit (List.length sent) c max_len - (c + 1))%nat) in *.
  assert (Hn : (span_limit (List.length sent) c max_len = c + 1 + n)%nat).
  { unfold n, span_limit. lia. }
  rewrite Hn.
  assert (Hlim : forall e, (c + 1 <= e)%nat -> (e < c + 1 + n)%nat ->
            (e < List.length sent)%nat /\
            (Z.of_nat e < Z.of_nat (c + 1) + max_len)%Z).
  { intros e H1 H2. rewrite <- Hn in H2.
    apply span_limit_spec in H2; [assumption | lia | assumption]. }
  clearbody n.
  apply (scan_spans_induction c n (c + 1) st st'); try lia.
  - destruct n as [| n']; [lia |].
    pose proof (Hlim (c + 1 + n')%nat ltac:(lia) ltac:(lia)) as [? ?]. lia.
  - intros e H1 H2. now apply Hlim.
  - apply (lattice_inv_weaken self sent st c); [lia | assumption].
  - intros e cell k c0 _ Hcell Hin.
    destruct (inv_span self sent st c Hinv e cell k c0 Hcell Hin). lia.
  - now apply Henter.
  - exact Hrun.
Qed.

Lemma scan_positions_induction :
  forall (len c : nat) (st st' : lattice),
    (c + len < List.length sent)%nat ->
    lattice_inv self sent st c -> I c st ->
    for_each (seq c len) (scan_position self sent max_len) st = Ok st' ->
    I (c + len) st'.
Proof.
  induction len as [| len IH]; intros c st st' Hlen Hinv HI; simpl.
  - intros [= <-]. now rewrite Nat.add_0_r.
  - intros Hrun. apply bind_Ok in Hrun as (st1 & Hpos & Hrest).
    pose proof (scan_position_inv self sent max_len c st st1) as Hinv1.
    pose proof (scan_position_induction c st st1) as HI1.
    replace (c + S len)%nat with (S c + len)%nat by lia.
    apply (IH (S c) st1 st'); try assumption; try lia.
    + replace (S c) with (c + 1)%nat by lia. apply Hinv1; try assumption. lia.
    + replace (S c) with (c + 1)%nat by lia. apply HI1; try assumption. lia.
Qed.

Lemma forward_induction (start_symbol : string) (st : lattice) :
  (forall st0, initial_lattice (List.length sent) start_symbol = Ok st0 -> I 0 st0) ->
  forward self sent start_symbol max_len = Ok st ->
  I (List.length sent - 1) st.
Proof.
  intros Hinit. unfold forward. intros Hrun.
  apply bind_Ok in Hrun as (st0 & Hst0 & Hrun).
  pose proof (initial_lattice_inv self sent start_symbol st0 Hst0) as Hinv0.
  pose proof (Hinit st0 Hst0) as HI0.
  assert (Hpos : (1 <= List.length sent)%nat).
  { clear - Hst0. destruct (List.length sent); [discriminate | lia]. }
  rewrite positions_pred in Hrun by assumption.
  replace (List.length sent - 1)%nat with (0 + (List.length sent - 1))%nat by lia.
  apply (scan_positions_induction (List.length sent - 1) 0 st0 st);
    try assumption. lia.
Qed.

End ForwardInduction.

Lemma rewrites_spec (self : KovLang) (sent : list string) (s e : nat)
  (conv : string) :
  In conv (rewrites self sent s e) <-> is_rewrite self sent s e conv.
Proof.
  unfold rewrites, is_rewrite, candidates. rewrite map_app, in_app_iff.
  set (np := join (slice sent s (e + 1))).
  assert (Hor : forall A B C D : Prop, (A <-> C) -> (B <-> D) -> (A \/ B <-> C \/ D))
    by tauto.
  apply Hor; clear Hor.
  - destruct (Nat.eqb_spec s e) as [E | E]; simpl.
    + destruct (not_self_mapped self np (word sent s)); simpl.
      * split; [intros [<- | []]; auto | intros (_ & _ & ->); auto].
      * split; [intros [] | intros (_ & F & _); discriminate].
    + split; [intros [] | intros (F & _); contradiction].
  - destruct (dict_get (phrasemodel self) np) as [targets |].
    + rewrite map_map. simpl. rewrite map_id.
      split; [intros Hin; eauto | intros (t & [= <-] & Hin); exact Hin].
    + split; [intros [] | intros (t & F & _); discriminate].
Qed.

(** ** What the forward pass stores *)

Lemma fold_relax_keeps (ts : list transition) (cp : cells) (k : key) (o : R) :
  dict_get (fst cp) k = Some o ->
  exists c, dict_get (fst (fold_left relax_cell ts cp)) k = Some c.
Proof.
  intros Hget. destruct (fold_relax_stored ts cp k o Hget) as (c & Hc & _). eauto.
Qed.

Lemma relax_cell_stores (cp : cells) (k : key) (c : R) (pk : key) :
  exists c', dict_get (fst (relax_cell cp (k, c, pk))) k = Some c'.
Proof.
  destruct cp as [bc pc]. simpl.
  destruct (dict_get bc k) as [stored |] eqn:E; [destruct (Rge_dec stored c) |];
    simpl; rewrite ?dict_get_set_same; eauto.
Qed.

Lemma fold_relax_stores (ts : list transition) : forall (cp : cells) (k : key)
  (c : R) (pk : key),
  In (k, c, pk) ts ->
  exists c', dict_get (fst (fold_left relax_cell ts cp)) k = Some c'.
Proof.
  induction ts as [| t ts IH]; intros cp k c pk; simpl; [intros [] |].
  intros [-> | Hin].
  - destruct (relax_cell_stores cp k c pk) as (c' & Hc').
    now apply (fold_relax_keeps ts _ k c').
  - now apply (IH _ k c pk).
Qed.

(** A run of relaxations at one position removes no state anywhere. *)
Lemma put_cells_keeps (st : lattice) (e : nat) (cp : cells)
  (ts : list transition) (e' : nat) (cell : dict key R) (k : key) (c : R) :
  cells_at st e cp ->
  nth_error (best st) e' = Some cell -> dict_get cell k = Some c ->
  exists cell' c',
    nth_error (best (put_cells st e (fold_left relax_cell ts cp))) e' = Some cell' /\
    dict_get cell' k = Some c'.
Proof.
  intros [Hb Hp] Hcell Hget.
  rewrite nth_error_put_best by (eapply nth_error_lt; eassumption).
  destruct (Nat.eqb_spec e e') as [<- | Hne].
  - assert (cell = fst cp) by congruence. subst cell.
    destruct (fold_relax_keeps ts cp k c Hget) as (c' & Hc'). eauto.
  - eauto.
Qed.

Section Stored.

Variable self : KovLang.
Variable sent : list string.
Variable start_symbol : string.
Variable max_len : Z.

Lemma initial_states_admissible (st0 : lattice) :
  initial_lattice (List.length sent) start_symbol = Ok st0 ->
  states_admissible self sent start_symbol max_len st0.
Proof.
  intros Hst0.
  assert (Hpos : exists n, List.length sent = S n).
  { clear - Hst0. destruct (List.length sent) as [| n]; [discriminate | eauto]. }
  destruct Hpos as [n En]. rewrite En, initial_lattice_Ok in Hst0.
  injection Hst0 as <-. split; [reflexivity |].
  intros [| e] cell k c He; [lia |]. simpl.
  intros Hc Hin. apply nth_error_repeat_Some in Hc. subst cell. destruct Hin.
Qed.

Lemma forward_states_admissible (st : lattice) :
  forward self sent start_symbol max_len = Ok st ->
  states_admissible self sent start_symbol max_len st.
Proof.
  apply (forward_induction self sent max_len
           (fun _ st => states_admissible self sent start_symbol max_len st)
           (fun _ _ st => states_admissible self sent start_symbol max_len st)).
  - auto.
  - intros c e st0 cp cell0 ts Hce He Hmax Hinv Hfresh Hat Hcell0 [T1 T2] [HA HB].
    pose proof Hat as [Hbc Hpc].
    assert (Hlt : (e < List.length (best st0))%nat) by (eapply nth_error_lt; eassumption).
    split.
    + rewrite nth_error_put_best by assumption.
      destruct (Nat.eqb_spec e 0); [lia | assumption].
    + intros e' cell k c0 He'. rewrite nth_error_put_best by assumption.
      destruct (Nat.eqb_spec e e') as [<- | Hne]; [| now apply HB].
      intros [= <-] Hin.
      destruct (fold_relax_In_best ts cp (k, c0) Hin) as [Hold | (pk & Hts)].
      * exact (HB e (fst cp) k c0 He' Hbc Hold).
      * destruct (T1 _ Hts) as (item & cand & c1 & _ & Hcand & _ & E).
        injection E as -> _ _. unfold admissible_state.
        repeat split; try lia.
        apply rewrites_spec. unfold rewrites. now apply in_map.
  - auto.
  - apply initial_states_admissible.
Qed.

Lemma forward_states_complete (st : lattice) :
  forward self sent start_symbol max_len = Ok st ->
  states_complete self sent max_len (List.length sent) 0 st.
Proof.
  intros Hrun.
  assert (Hpos : (1 <= List.length sent)%nat).
  { unfold forward in Hrun. apply bind_Ok in Hrun as (st0 & Hst0 & _).
    clear - Hst0. destruct (List.length sent); [discriminate | lia]. }
  cut (states_complete self sent max_len (List.length sent - 1 + 1) 0 st).
  { now replace (List.length sent - 1 + 1)%nat with (List.length sent) by lia. }
  revert Hrun.
  apply (forward_induction self sent max_len
           (fun c st => states_complete self sent max_len (c + 1) 0 st)
           (fun c e st => states_complete self sent max_len (c + 1) e st)).
  - intros c st0 _ _ HI conv s e' prev Hadm Hrange.
    apply HI; [exact Hadm |]. destruct Hadm as (Hs & _). lia.
  - intros c e st0 cp cell0 ts Hce He Hmax Hinv Hfresh Hat Hcell0 [T1 T2] HJ.
    pose proof Hat as [Hbc Hpc].
    assert (Hlt : (e < List.length (best st0))%nat) by (eapply nth_error_lt; eassumption).
    intros conv s e' prev Hadm Hrange.
    rewrite nth_error_put_best by assumption.
    destruct (Nat.eqb_spec e (s - 1)) as [E | _]; [lia |].
    intros Hprev Hne.
    assert (Hcase : (s < c + 1 \/ (s = c + 1 /\ e' < e) \/ (s = c + 1 /\ e' = e))%nat) by lia.
    destruct Hcase as [Hc | [Hc | [-> ->]]].
    + destruct (HJ conv s e' prev Hadm (or_introl Hc) Hprev Hne) as (cell & c0 & Hcell & Hget).
      apply (put_cells_keeps st0 e cp ts e' cell _ c0 Hat Hcell Hget).
    + destruct (HJ conv s e' prev Hadm (or_intror Hc) Hprev Hne) as (cell & c0 & Hcell & Hget).
      apply (put_cells_keeps st0 e cp ts e' cell _ c0 Hat Hcell Hget).
    + replace (c + 1 - 1)%nat with c in Hprev by lia.
      assert (prev = cell0) by congruence. subst prev.
      destruct cell0 as [| item items]; [contradiction |].
      destruct Hadm as (_ & _ & _ & Hrw).
      apply rewrites_spec in Hrw. unfold rewrites in Hrw.
      apply in_map_iff in Hrw as (cand & <- & Hcand).
      destruct (T2 item cand (or_introl eq_refl) Hcand) as (c1 & _ & Hts).
      destruct (fold_relax_stores ts cp _ _ _ Hts) as (c' & Hc').
      exists (fst (fold_left relax_cell ts cp)), c'.
      rewrite nth_error_put_best, Nat.eqb_refl by assumption. auto.
  - intros c st0 Hlt _ HJ conv s e' prev Hadm Hrange.
    apply HJ; [exact Hadm |].
    assert (Hc : (s < c + 1 \/ s = c + 1)%nat) by lia.
    destruct Hc as [Hc | ->]; [now left | right]. split; [reflexivity |].
    destruct Hadm as (Hs & He' & Hmax & _).
    apply span_limit_spec; [lia | lia | auto].
  - intros st0 _ conv s e' prev Hadm Hrange.
    destruct Hadm as (Hs & _). lia.
Qed.

End Stored.

(** ** Every position is reached *)

Lemma some_rewrite (self : KovLang) (sent : list string) (e : nat) :
  exists conv, is_rewrite self sent e e conv.
Proof.
  unfold is_rewrite. set (np := join (slice sent e (e + 1))).
  destruct (not_self_mapped self np (word sent e)) eqn:E.
  - exists np. left. auto.
  - unfold not_self_mapped in E.
    destruct (dict_get (phrasemodel self) np) as [targets |]; [| discriminate].
    exists (word sent e). right. exists targets. split; [reflexivity |].
    apply dict_in_keys. unfold dict_in in E.
    destruct (dict_get targets (word sent e)); [discriminate | discriminate].
Qed.

Lemma forward_reaches (self : KovLang) (sent : list string)
  (start_symbol : string) (max_len : Z) (st : lattice) :
  forward self sent start_symbol max_len = Ok st ->
  (1 <= max_len)%Z ->
  forall e, (e < List.length sent)%nat ->
    exists cell, nth_error (best st) e = Some cell /\ cell <> [].
Proof.
  intros Hrun Hmax.
  destruct (forward_states_admissible self sent start_symbol max_len st Hrun) as [HA _].
  pose proof (forward_states_complete self sent start_symbol max_len st Hrun) as HC.
  induction e as [| e IH]; intros He.
  - eexists. split; [exact HA | discriminate].
  - destruct IH as (prev & Hprev & Hne); [lia |].
    destruct (some_rewrite self sent (S e)) as [conv Hconv].
    destruct (HC conv (S e) (S e) prev) as (cell & c & Hcell & Hget).
    + unfold admissible_state. repeat split; try lia. exact Hconv.
    + left. exact He.
    + simpl. now rewrite Nat.sub_0_r.
    + exact Hne.
    + exists cell. split; [exact Hcell |]. intros ->. discriminate.
Qed.

(** ** The stored costs are the least costs of paths *)

Section Paths.

Variable self : KovLang.
Variable sent : list string.
Variable max_len : Z.

Lemma transition_cost_shift (pk : key) (pc pc' : R) (k : key) (c : R) :
  transition_cost self sent pk pc k = Ok c ->
  transition_cost self sent pk pc' k = Ok (c - pc + pc')%R.
Proof.
  destruct k as [conv [s e]]. unfold transition_cost.
  destruct (str_last (fst pk)) as [w0 |]; simpl; [| discriminate].
  destruct (str_first conv) as [w1 |]; simpl; [| discriminate].
  destruct (bigram_cost self w0 w1) as [bp |]; simpl; [| discriminate].
  destruct (phrase_cost self _ conv) as [pp |]; simpl; [| discriminate].
  intros [= <-]. f_equal. lra.
Qed.

Lemma is_path_app (p q : list key) : forall (pk : key),
  is_path self sent max_len pk (p ++ q) <->
  is_path self sent max_len pk p /\
  is_path self sent max_len (end_state pk p) q.
Proof.
  induction p as [| k p IH]; intros pk; simpl; [tauto |].
  rewrite IH. tauto.
Qed.

Lemma chain_cost_app (p q : list key) : forall (pk : key) (pc : R),
  chain_cost self sent pk pc (p ++ q) =
  (c <- chain_cost self sent pk pc p ;; chain_cost self sent (end_state pk p) c q).
Proof.
  induction p as [| k p IH]; intros pk pc; simpl; [reflexivity |].
  destruct (transition_cost self sent pk pc k) as [c |]; simpl; [| reflexivity].
  apply IH.
Qed.

Lemma end_state_app (p : list key) (k pk : key) : end_state pk (p ++ [k]) = k.
Proof.
  revert pk. induction p as [| k1 p IH]; intros pk; simpl; [reflexivity | apply IH].
Qed.

End Paths.

(** ** Keys are unique *)

Section DictKeys.

Context {K V : Type} `{HashableLaws K}.

Lemma dict_set_keys (d : dict K V) (k : K) (v : V) :
  dict_keys (dict_set d k v) =
  if dict_in k d then dict_keys d else dict_keys d ++ [k].
Proof.
  unfold dict_in, dict_keys. induction d as [| [k0 v0] d IH]; simpl; [reflexivity |].
  destruct (key_eqb k k0) eqn:E; simpl.
  - apply key_eqb_eq in E. now subst k0.
  - rewrite IH. now destruct (dict_get d k).
Qed.

Lemma dict_set_NoDup (d : dict K V) (k : K) (v : V) :
  NoDup (dict_keys d) -> NoDup (dict_keys (dict_set d k v)).
Proof.
  intros Hnd. rewrite dict_set_keys. destruct (dict_in k d) eqn:E; [assumption |].
  apply NoDup_app; [assumption | repeat constructor; intros [] |].
  intros x Hx [<- | []]. apply dict_in_keys in Hx. unfold dict_in in E.
  destruct (dict_get d k); [discriminate | now elim Hx].
Qed.

Lemma In_dict_get (d : dict K V) (k : K) (v : V) :
  NoDup (dict_keys d) -> In (k, v) d -> dict_get d k = Some v.
Proof.
  unfold dict_keys. induction d as [| [k0 v0] d IH]; simpl; [intros _ [] |].
  intros Hnd [[= -> ->] | Hin].
  - now rewrite key_eqb_refl.
  - inversion Hnd as [| ? ? Hnot Hnd']. subst.
    destruct (key_eqb k k0) eqn:E; [| now apply IH].
    apply key_eqb_eq in E. subst k0. elim Hnot.
    change k with (fst (k, v)). now apply in_map.
Qed.

End DictKeys.

Lemma relax_cell_NoDup (cp : cells) (t : transition) :
  NoDup (dict_keys (fst cp)) -> NoDup (dict_keys (fst (relax_cell cp t))).
Proof.
  destruct cp as [bc pc], t as [[k c] pk]. simpl. intros Hnd.
  destruct (dict_get bc k) as [stored |]; [destruct (Rge_dec stored c) |];
    simpl; try assumption; now apply dict_set_NoDup.
Qed.

Lemma fold_relax_NoDup (ts : list transition) : forall (cp : cells),
  NoDup (dict_keys (fst cp)) ->
  NoDup (dict_keys (fst (fold_left relax_cell ts cp))).
Proof.
  induction ts as [| t ts IH]; intros cp Hnd; simpl; [assumption |].
  apply IH. now apply relax_cell_NoDup.
Qed.

Lemma forward_keys_unique (self : KovLang) (sent : list string)
  (start_symbol : string) (max_len : Z) (st : lattice) :
  forward self sent start_symbol max_len = Ok st -> keys_unique st.
Proof.
  apply (forward_induction self sent max_len
           (fun _ st => keys_unique st) (fun _ _ st => keys_unique st)).
  - auto.
  - intros c e st0 cp cell0 ts Hce He Hmax Hinv Hfresh Hat Hcell0 _ HU.
    pose proof Hat as [Hbc Hpc].
    assert (Hlt : (e < List.length (best st0))%nat) by (eapply nth_error_lt; eassumption).
    intros e' cell. rewrite nth_error_put_best by assumption.
    destruct (Nat.eqb_spec e e') as [<- | Hne]; [| apply HU].
    intros [= <-]. apply fold_relax_NoDup. now apply (HU e).
  - auto.
  - intros st0 Hst0.
    assert (Hpos : exists n, List.length sent = S n).
    { clear - Hst0. destruct (List.length sent) as [| n]; [discriminate | eauto]. }
    destruct Hpos as [n En]. rewrite En, initial_lattice_Ok in Hst0.
    injection Hst0 as <-. intros [| e] cell; simpl.
    + intros [= <-]. repeat constructor. intros [].
    + intros Hc. apply nth_error_repeat_Some in Hc. subst cell. constructor.
Qed.

(** ** Least costs *)

Section Optimal.

Variable self : KovLang.
Variable sent : list string.
Variable start_symbol : string.
Variable max_len : Z.
Variable st : lattice.

Hypothesis Hrun : forward self sent start_symbol max_len = Ok st.

Lemma path_bound : forall (path : list key) (pk : key) (pc pc0 : R)
  (cellp : dict key R),
  nth_error (best st) (snd (snd pk)) = Some cellp ->
  dict_get cellp pk = Some pc0 -> (pc0 <= pc)%R ->
  is_path self sent max_len pk path ->
  exists C cell c,
    chain_cost self sent pk pc path = Ok C /\
    nth_error (best st) (snd (snd (end_state pk path))) = Some cell /\
    dict_get cell (end_state pk path) = Some c /\ (c <= C)%R.
Proof.
  pose proof (forward_inv self sent start_symbol max_len st Hrun) as Hinv.
  pose proof (forward_states_complete self sent start_symbol max_len st Hrun) as HC.
  induction path as [| k path IH]; intros pk pc pc0 cellp Hcellp Hget Hle;
    cbn [chain_cost is_path end_state].
  - intros _. exists pc, cellp, pc0. auto.
  - intros (Hadm & Hs & Hrest). destruct k as [conv [s e]]. simpl in Hs.
    pose proof Hadm as (Hse & He & _).
    destruct (HC conv s e cellp Hadm) as (cell & c & Hcell & Hc).
    + left. lia.
    + rewrite Hs. now replace (snd (snd pk) + 1 - 1)%nat with (snd (snd pk)) by lia.
    + intros ->. discriminate.
    + destruct (inv_opt self sent st _ Hinv e cell _ c ltac:(lia) Hcell Hc)
        as (conv' & s' & prev & pcell & pk1 & pc1 & E & _ & Hprev & _ & _ & _ & _ & Hmin).
      injection E as <- <-.
      assert (prev = cellp).
      { rewrite Hs in Hprev.
        replace (snd (snd pk) + 1 - 1)%nat with (snd (snd pk)) in Hprev by lia.
        congruence. }
      subst prev.
      destruct (Hmin pk pc0 (dict_get_Some_In _ _ _ Hget)) as (c' & Hc' & Hcc').
      pose proof (transition_cost_shift self sent pk pc0 pc _ c' Hc') as Hshift.
      destruct (IH (conv, (s, e)) (c' - pc0 + pc)%R c cell Hcell Hc ltac:(lra) Hrest)
        as (C & cell1 & c1 & HC1 & Hrest1).
      exists C, cell1, c1. unfold span in *. rewrite Hshift. cbn [bind]. auto.
Qed.

Lemma path_exists : forall (e : nat) (cell : dict key R) (k : key) (c : R),
  (1 <= e)%nat -> nth_error (best st) e = Some cell ->
  dict_get cell k = Some c ->
  exists path,
    is_path self sent max_len (start_symbol, (0, 0)) (path ++ [k]) /\
    chain_cost self sent (start_symbol, (0, 0)) 0 (path ++ [k]) = Ok c.
Proof.
  pose proof (forward_inv self sent start_symbol max_len st Hrun) as Hinv.
  pose proof (forward_keys_unique self sent start_symbol max_len st Hrun) as HU.
  destruct (forward_states_admissible self sent start_symbol max_len st Hrun)
    as [HA HB].
  induction e as [e IH] using lt_wf_ind. intros cell k c He Hcell Hget.
  pose proof (HB e cell k c He Hcell (dict_get_Some_In _ _ _ Hget)) as Hadm.
  destruct (inv_opt self sent st _ Hinv e cell k c He Hcell Hget)
    as (conv & s & prev & pcell & pk & pc & -> & Hse & Hprev & _ & _ & Hin & Hcost & _).
  destruct (inv_span self sent st _ Hinv (s - 1) prev pk pc Hprev Hin) as [Hend _].
  destruct (Nat.eq_dec (s - 1) 0) as [E0 | E0].
  - rewrite E0, HA in Hprev. injection Hprev as <-.
    destruct Hin as [[= <- <-] | []].
    exists []. cbn [app chain_cost is_path]. split.
    + split; [exact Hadm |]. split; [simpl; lia | exact I].
    + unfold span in *. rewrite Hcost. reflexivity.
  - pose proof (In_dict_get prev pk pc (HU _ _ Hprev) Hin) as Hgetp.
    destruct (IH (s - 1)%nat ltac:(lia) prev pk pc ltac:(lia) Hprev Hgetp)
      as (path & Hpath & Hc).
    exists (path ++ [pk]). split.
    + apply is_path_app. split; [exact Hpath |].
      rewrite end_state_app. cbn [is_path]. split; [exact Hadm |].
      split; [simpl; lia | exact I].
    + rewrite chain_cost_app, Hc, end_state_app. cbn [bind chain_cost].
      unfold span in *. rewrite Hcost. reflexivity.
Qed.

End Optimal.

(** ** The backtrace from a stored state *)

Section Backtrace.

Variable self : KovLang.
Variable sent : list string.
Variable start_symbol : string.
Variable max_len : Z.
Variable st : lattice.

Hypothesis Hrun : forward self sent start_symbol max_len = Ok st.

(** From a stored state the loop follows the predecessors down to the start
    state and never fails; the phrases it collects are those of a path from
    the start state, whose cost is the stored cost. *)
Lemma walk_back_stored : forall (e : nat) (cell : dict key R) (k : key) (c : R)
  (fuel : nat) (ans : list string),
  nth_error (best st) e = Some cell -> dict_get cell k = Some c ->
  (e <= fuel)%nat ->
  exists path,
    is_path self sent max_len (start_symbol, (0, 0)) path /\
    end_state (start_symbol, (0, 0)) path = k /\
    chain_cost self sent (start_symbol, (0, 0)) 0 path = Ok c /\
    walk_back fuel (before_pos st) (fst k) (fst (snd k)) e (ans ++ [fst k]) =
    Some (Ok (ans ++ rev (start_symbol :: map fst path))).
Proof.
  pose proof (forward_inv self sent start_symbol max_len st Hrun) as Hinv.
  pose proof (forward_keys_unique self sent start_symbol max_len st Hrun) as HU.
  destruct (forward_states_admissible self sent start_symbol max_len st Hrun)
    as [HA HB].
  induction e as [e IH] using lt_wf_ind. intros cell k c fuel ans Hcell Hget Hfuel.
  destruct (Nat.eq_dec e 0) as [-> | He].
  - rewrite HA in Hcell. injection Hcell as <-.
    apply dict_get_Some_In in Hget. destruct Hget as [[= <- <-] | []].
    exists []. cbn [is_path end_state chain_cost map rev app fst snd].
    repeat split. destruct fuel; reflexivity.
  - pose proof (HB e cell k c ltac:(lia) Hcell (dict_get_Some_In _ _ _ Hget)) as Hadm.
    destruct (inv_opt self sent st _ Hinv e cell k c ltac:(lia) Hcell Hget)
      as (conv & s & prev & pcell & pk & pc & -> & Hse & Hprev & Hpcell & Hpk & Hin
          & Hcost & _).
    destruct (inv_span self sent st _ Hinv (s - 1) prev pk pc Hprev Hin) as [Hend _].
    pose proof (In_dict_get prev pk pc (HU _ _ Hprev) Hin) as Hgetp.
    destruct fuel as [| fuel]; [lia |].
    destruct (IH (s - 1)%nat ltac:(lia) prev pk pc fuel (ans ++ [conv]) Hprev Hgetp
                ltac:(lia)) as (path & Hpath & Hlast & Hc & Hwalk).
    exists (path ++ [(conv, (s, e))]).
    split; [| split; [| split]].
    + apply is_path_app. split; [exact Hpath |].
      rewrite Hlast. cbn [is_path]. split; [exact Hadm |].
      split; [simpl; lia | exact I].
    + apply end_state_app.
    + rewrite chain_cost_app, Hc, Hlast. cbn [bind chain_cost].
      unfold span in *. rewrite Hcost. reflexivity.
    + cbn [walk_back fst snd].
      destruct (Nat.eqb_spec e 0) as [| _]; [lia |].
      unfold list_getitem, dict_getitem. rewrite Hpcell. cbn [bind].
      rewrite Hpk. destruct pk as [phrase [s' e']]. simpl in Hend. subst e'.
      cbn [fst snd] in Hwalk. rewrite Hwalk. do 2 f_equal.
      rewrite map_app. cbn [map fst rev]. rewrite rev_app_distr.
      cbn [rev app]. now rewrite <- app_assoc.
Qed.

End Backtrace.

(** ** The forward pass returns *)

Lemma for_each_returns {A S : Type} (P : S -> Prop) (Q : A -> Prop)
  (body : S -> A -> result S) (xs : list A) :
  (forall s x, P s -> Q x -> exists s', body s x = Ok s' /\ P s') ->
  (forall x, In x xs -> Q x) ->
  forall s, P s -> exists s', for_each xs body s = Ok s' /\ P s'.
Proof.
  intros Hbody. induction xs as [| x xs IH]; intros HQ s Hs; simpl; [eauto |].
  destruct (Hbody s x Hs) as (s1 & -> & Hs1); [apply HQ; now left |].
  simpl. apply IH; [intros y Hy; apply HQ; now right | exact Hs1].
Qed.

Section Progress.

Variable self : KovLang.
Variable sent : list string.

Hypothesis Hok : tables_ok self.
Hypothesis Htargets : targets_nonempty self.
Hypothesis Hwords : forall w, In w sent -> w <> "".

Lemma extend_returns (st : lattice) (prob : R) (conv_w0 : string)
  (cur_key : key) (s e : nat) (np conv target : string) :
  phrases_nonempty sent st -> (e < List.length sent)%nat -> conv <> "" ->
  exists st',
    extend self st prob conv_w0 cur_key s e np conv target = Ok st' /\
    phrases_nonempty sent st'.
Proof.
  intros (L1 & L2 & Hne) He Hconv. unfold extend.
  rewrite (str_first_Ok conv Hconv). cbn [bind].
  rewrite (bigram_cost_ok self Hok), (phrase_cost_ok self Hok). cbn [bind].
  destruct (nth_error_in_range (best st) e) as [bc Hbc]; [lia |].
  destruct (nth_error_in_range (before_pos st) e) as [pc Hpc]; [lia |].
  rewrite (relax_cells st e (bc, pc)) by (split; assumption).
  set (cp' := relax_cell _ _).
  exists (put_cells st e cp'). split; [reflexivity |].
  split; [| split].
  - unfold put_cells. simpl. now rewrite length_list_update.
  - unfold put_cells. simpl. now rewrite length_list_update.
  - intros e' cell k c. rewrite nth_error_put_best by lia.
    destruct (Nat.eqb_spec e e') as [<- | _]; [| apply Hne].
    intros [= <-] Hin. unfold cp' in Hin.
    apply relax_cell_In_best in Hin as [Hold | E].
    + exact (Hne e bc k c Hbc Hold).
    + simpl in E. injection E as -> _. exact Hconv.
Qed.

Lemma candidates_nonempty (s e : nat) (cand : string * string) :
  (s < List.length sent)%nat ->
  In cand (candidates self s e (join (slice sent s (e + 1))) (word sent s)) ->
  fst cand <> "".
Proof.
  intros Hs Hin.
  assert (Hrw : is_rewrite self sent s e (fst cand)).
  { apply rewrites_spec. unfold rewrites. now apply in_map. }
  destruct Hrw as [(<- & _ & ->) | (targets & Hget & Hin')].
  - destruct (nth_error_in_range sent s Hs) as [w Hw].
    rewrite (slice_single sent s w Hw). apply Hwords.
    eapply nth_error_In. eassumption.
  - exact (Htargets _ _ _ Hget Hin').
Qed.

Lemma visit_returns (st : lattice) (s e : nat) (item : key * R) :
  phrases_nonempty sent st -> (s < List.length sent)%nat ->
  (e < List.length sent)%nat -> fst (fst item) <> "" ->
  exists st',
    visit self s e (join (slice sent s (e + 1))) (word sent s) st item = Ok st' /\
    phrases_nonempty sent st'.
Proof.
  intros HP Hs He Hitem. destruct item as [cur_key prob]. simpl in Hitem.
  rewrite visit_candidates, (str_last_Ok _ Hitem). cbn [bind].
  apply (for_each_returns (phrases_nonempty sent) (fun cand => fst cand <> "")).
  - intros st1 cand HP1 Hcand. now apply extend_returns.
  - intros cand. now apply candidates_nonempty.
  - exact HP.
Qed.

Lemma scan_span_returns (st : lattice) (c e : nat) :
  phrases_nonempty sent st -> (c < e)%nat -> (e < List.length sent)%nat ->
  exists st', scan_span self sent c st e = Ok st' /\ phrases_nonempty sent st'.
Proof.
  intros HP Hce He. pose proof HP as (L1 & L2 & Hne). unfold scan_span.
  destruct (nth_error_in_range sent (c + 1)) as [nw Hnw]; [lia |].
  destruct (nth_error_in_range (best st) c) as [cell Hcell]; [lia |].
  unfold list_getitem. rewrite Hnw, Hcell. cbn [bind].
  rewrite <- (word_nth_error sent (c + 1) nw Hnw).
  apply (for_each_returns (phrases_nonempty sent) (fun item => fst (fst item) <> "")).
  - intros st1 item HP1 Hitem. apply visit_returns; auto. lia.
  - intros [k c0] Hin. exact (Hne c cell k c0 Hcell Hin).
  - exact HP.
Qed.

Lemma scan_position_returns (max_len : Z) (st : lattice) (c : nat) :
  phrases_nonempty sent st ->
  exists st',
    scan_position self sent max_len st c = Ok st' /\ phrases_nonempty sent st'.
Proof.
  intros HP. unfold scan_position.
  apply (for_each_returns (phrases_nonempty sent)
           (fun e => (c < e)%nat /\ (e < List.length sent)%nat)).
  - intros st1 e HP1 [H1 H2]. now apply scan_span_returns.
  - intros e Hin. apply next_ends_In in Hin. lia.
  - exact HP.
Qed.

Lemma forward_returns (start_symbol : string) (max_len : Z) :
  sent <> [] -> start_symbol <> "" ->
  exists st, forward self sent start_symbol max_len = Ok st.
Proof.
  intros Hsent Hstart. unfold forward.
  assert (Hlen : exists n, List.length sent = S n).
  { clear - Hsent. destruct sent; [contradiction | simpl; eauto]. }
  destruct Hlen as [n En].
  assert (Hinit : initial_lattice (List.length sent) start_symbol =
                  Ok {| best := [((start_symbol, (0, 0)), 0%R)] :: repeat [] n;
                        before_pos := repeat [] (S n) |})
    by (rewrite En; apply initial_lattice_Ok).
  cbv zeta. rewrite Hinit. cbn [bind].
  destruct (for_each_returns (phrases_nonempty sent) (fun _ => True)
              (scan_position self sent max_len) (positions (List.length sent)))
    with (s := {| best := [((start_symbol, (0, 0)), 0%R)] :: repeat [] n;
                  before_pos := repeat [] (S n) |})
    as (st & Hst & _).
  - intros st1 c HP1 _. now apply scan_position_returns.
  - auto.
  - split; [| split]; simpl.
    + now rewrite repeat_length.
    + now rewrite repeat_length.
    + intros [| e] cell k c; simpl.
      * intros [= <-] [[= <- _] | []]. exact Hstart.
      * intros Hc Hin. apply nth_error_repeat_Some in Hc. subst cell. destruct Hin.
  - eauto.
Qed.

End Progress.

(** ** The outcome of [search] *)

Lemma search_outcome (self : KovLang) (tokens : list string)
  (start_symbol end_symbol : string) (max_len : Z) (st : lattice) :
  let sent := bracket tokens start_symbol end_symbol in
  let N := (List.length tokens + 1)%nat in
  let outcome := search self tokens start_symbol end_symbol max_len in
  forward self sent start_symbol max_len = Ok st ->
  exists cell min_key min_val,
    nth_error (best st) N = Some cell /\
    select_min (dict_items cell) "" PInf = (min_key, min_val) /\
    match dict_get cell (min_key, (N, N)) with
    | None => outcome = Some (Raise KeyError)
    | Some c =>
        exists path,
          is_path self sent max_len (start_symbol, (0, 0))
            (path ++ [(min_key, (N, N))]) /\
          chain_cost self sent (start_symbol, (0, 0)) 0
            (path ++ [(min_key, (N, N))]) = Ok c /\
          outcome = Some (Ok (start_symbol :: map fst path ++ [min_key]))
    end.
Proof.
  intros sent N outcome Hrun.
  pose proof (forward_inv self sent start_symbol max_len st Hrun) as Hinv.
  pose proof (forward_keys_unique self sent start_symbol max_len st Hrun) as HU.
  destruct (forward_states_admissible self sent start_symbol max_len st Hrun)
    as [HA HB].
  assert (Hlen : List.length sent = (N + 1)%nat).
  { unfold sent, N. rewrite bracket_length. lia. }
  destruct (nth_error_in_range (best st) N) as [cell Hcell];
    [rewrite (inv_len_best self _ st _ Hinv); lia |].
  destruct (nth_error_in_range (before_pos st) N) as [pcell Hpcell];
    [rewrite (inv_len_before self _ st _ Hinv); lia |].
  destruct (select_min (dict_items cell) "" PInf) as [min_key min_val] eqn:Emin.
  exists cell, min_key, min_val. split; [exact Hcell |]. split; [exact Emin |].
  assert (Hkeys : same_keys (cell, pcell))
    by (apply (inv_keys self _ st _ Hinv N); [lia | assumption | assumption]).
  assert (Hout : outcome =
            match dict_get pcell (min_key, (N, N)) with
            | None => Some (Raise KeyError)
            | Some pred => finish_backtrace st (N + 1) min_key pred
            end).
  { unfold outcome, search. fold sent. rewrite Hrun. unfold backtrace.
    rewrite Hlen. replace (N + 1 - 1)%nat with N by lia.
    unfold list_getitem, dict_getitem. rewrite Hcell, Hpcell. cbn [bind].
    rewrite Emin.
    destruct (dict_get pcell (min_key, (N, N))) as [[phrase [s e]] |];
      reflexivity. }
  destruct (dict_get cell (min_key, (N, N))) as [c |] eqn:Eget.
  - pose proof (HB N cell _ c ltac:(lia) Hcell (dict_get_Some_In _ _ _ Eget)) as Hadm.
    destruct (inv_opt self sent st _ Hinv N cell _ c ltac:(lia) Hcell Eget)
      as (conv & s & prev & pcell' & pk & pc & E & Hse & Hprev & Hpcell' & Hpk & Hin
          & Hcost & _).
    injection E as <- <-.
    assert (pcell' = pcell) by congruence. subst pcell'.
    destruct (inv_span self sent st _ Hinv (N - 1) prev pk pc Hprev Hin) as [Hend _].
    pose proof (In_dict_get prev pk pc (HU _ _ Hprev) Hin) as Hgetp.
    destruct (walk_back_stored self sent start_symbol max_len st Hrun
                (N - 1) prev pk pc (N + 1) [min_key] Hprev Hgetp ltac:(lia))
      as (path & Hpath & Hlast & Hc & Hwalk).
    exists path. split; [| split].
    + apply is_path_app. split; [exact Hpath |].
      rewrite Hlast. cbn [is_path]. split; [exact Hadm |].
      split; [simpl; lia | exact I].
    + rewrite chain_cost_app, Hc, Hlast. cbn [bind chain_cost].
      unfold span in *. rewrite Hcost. reflexivity.
    + rewrite Hout, Hpk. unfold finish_backtrace.
      destruct pk as [phrase [s' e']]. simpl in Hend. subst e'.
      cbn [fst snd] in Hwalk. cbn [app] in Hwalk |- *. rewrite Hwalk.
      do 2 f_equal.
      change (rev (min_key :: rev (start_symbol :: map fst path)))
        with (rev (rev (start_symbol :: map fst path)) ++ [min_key]).
      now rewrite rev_involutive.
  - apply Hkeys in Eget. simpl in Eget. now rewrite Hout, Eget.
Qed.

(** ** When [search] and [convert] return *)

Lemma length_chars (s : string) : List.length (chars s) = String.length s.
Proof.
  unfold chars. rewrite length_map.
  induction s as [| c s IH]; simpl; [reflexivity | now rewrite IH].
Qed.

Lemma join_skipn_chars (s : string) : forall (n : nat),
  join (skipn n (chars s)) = drop n s.
Proof.
  induction s as [| c s IH]; intros [| n]; try reflexivity.
  - apply (join_chars (String c s)).
  - change (chars (String c s)) with (String c EmptyString :: chars s).
    simpl. apply IH.
Qed.

(** The phrase of a span that ends at the end marker: the rest of the input
    and the marker. *)
Lemma final_phrase (input start_symbol end_symbol : string) (n : nat) :
  (n <= String.length input)%nat ->
  join (slice (bracket (chars input) start_symbol end_symbol) (n + 1)
          (String.length input + 1 + 1)) =
  String.append (drop n input) end_symbol.
Proof.
  intros Hn. unfold slice, bracket.
  replace (n + 1)%nat with (S n) by lia. cbn [app skipn].
  rewrite skipn_app, length_chars.
  replace (n - String.length input)%nat with 0%nat by lia. cbn [skipn].
  rewrite firstn_all2.
  - rewrite join_app, join_skipn_chars. reflexivity.
  - rewrite length_app, length_skipn, length_chars. simpl. lia.
Qed.

Lemma start_state_stored (start_symbol : string) :
  dict_get [((start_symbol, (0, 0)%nat), 0%R)] (start_symbol, (0, 0)%nat) = Some 0%R.
Proof.
  cbn [dict_get]. now rewrite key_eqb_refl.
Qed.

Section Returns.

Variable self : KovLang.
Variable tokens : list string.
Variables start_symbol end_symbol : string.
Variable max_len : Z.

Let sent : list string := bracket tokens start_symbol end_symbol.
Let N : nat := (List.length tokens + 1)%nat.

Hypothesis Hok : tables_ok self.
Hypothesis Htargets : targets_nonempty self.
Hypothesis Htokens : Forall (fun w => w <> "") tokens.
Hypothesis Hstart : start_symbol <> "".
Hypothesis Hend : end_symbol <> "".
Hypothesis Hmax : (1 <= max_len)%Z.
Hypothesis Hnarrow : forall s, (1 <= s < N)%nat ->
  dict_get (phrasemodel self) (join (slice sent s (N + 1))) = None.

Lemma search_returns :
  exists path min_key c,
    is_path self sent max_len (start_symbol, (0, 0))
      (path ++ [(min_key, (N, N))]) /\
    chain_cost self sent (start_symbol, (0, 0)) 0
      (path ++ [(min_key, (N, N))]) = Ok c /\
    (forall path' k,
       is_path self sent max_len (start_symbol, (0, 0)) (path' ++ [k]) ->
       snd (snd k) = N ->
       exists C,
         chain_cost self sent (start_symbol, (0, 0)) 0 (path' ++ [k]) = Ok C /\
         (c <= C)%R) /\
    search self tokens start_symbol end_symbol max_len =
    Some (Ok (start_symbol :: map fst path ++ [min_key])).
Proof.
  assert (Hwords : forall w, In w sent -> w <> "").
  { unfold sent, bracket. intros w Hin.
    apply in_app_or in Hin as [[<- | []] | Hin]; [exact Hstart |].
    apply in_app_or in Hin as [Hin | [<- | []]]; [| exact Hend].
    revert w Hin. now apply Forall_forall. }
  destruct (forward_returns self sent Hok Htargets Hwords start_symbol max_len)
    as [st Hrun]; [unfold sent, bracket; discriminate | exact Hstart |].
  pose proof (forward_inv self sent start_symbol max_len st Hrun) as Hinv.
  pose proof (forward_keys_unique self sent start_symbol max_len st Hrun) as HU.
  destruct (forward_states_admissible self sent start_symbol max_len st Hrun)
    as [HA HB].
  assert (Hlen : List.length sent = (N + 1)%nat).
  { unfold sent, N. rewrite bracket_length. lia. }
  destruct (search_outcome self tokens start_symbol end_symbol max_len st Hrun)
    as (cell & min_key & min_val & Hcell & Emin & Hout).
  fold sent N in Hcell, Hout.
  destruct (forward_reaches self sent start_symbol max_len st Hrun Hmax N)
    as (cell' & Hcell' & Hne); [lia |].
  assert (cell' = cell) by congruence. subst cell'.
  destruct cell as [| item items] eqn:Ecell; [contradiction |].
  rewrite <- Ecell in *.
  assert (Hitems : dict_items cell = item :: items) by (now rewrite Ecell).
  destruct (select_min_first item items) as ([[phrase [s e]] c] & Hfirst & Heq).
  rewrite <- Hitems in Hfirst, Heq. rewrite Emin in Heq. injection Heq as <- _.
  cbn [fst snd] in *.
  assert (Hin : In ((min_key, (s, e)), c) cell).
  { destruct Hfirst as (pre & post & Hsplit & _).
    unfold dict_items in Hsplit. rewrite Hsplit.
    apply in_or_app. right. now left. }
  destruct (inv_span self sent st _ Hinv N cell _ c Hcell Hin) as [He _].
  simpl in He. subst e.
  assert (Hs : s = N).
  { destruct (HB N cell _ c ltac:(lia) Hcell Hin)
      as (Hse & _ & _ & [(E & _) | (targets & Hget & _)]); [exact E |].
    destruct (Nat.eq_dec s N) as [E | E]; [exact E |].
    rewrite Hnarrow in Hget by lia. discriminate. }
  subst s.
  rewrite (In_dict_get cell _ c (HU _ _ Hcell) Hin) in Hout.
  destruct Hout as (path & Hpath & Hc & Hout).
  exists path, min_key, c. split; [exact Hpath |]. split; [exact Hc |].
  split; [| exact Hout].
  intros path' k Hpath' Hk.
  destruct (path_bound self sent start_symbol max_len st Hrun (path' ++ [k])
              (start_symbol, (0, 0)) 0 0 _ HA (start_state_stored start_symbol)
              (Rle_refl 0) Hpath')
    as (C & cellk & ck & HC & Hcellk & Hgetk & Hle).
  rewrite end_state_app in Hcellk, Hgetk. rewrite Hk in Hcellk.
  assert (cellk = cell) by congruence. subst cellk.
  exists C. split; [exact HC |].
  apply dict_get_Some_In in Hgetk.
  destruct Hfirst as (pre & post & Hsplit & Hpre & Hpost).
  unfold dict_items in Hsplit. rewrite Hsplit in Hgetk.
  apply in_app_or in Hgetk as [Hk1 | [Hk1 | Hk1]].
  - pose proof (Hpre _ _ Hk1). simpl in *. lra.
  - injection Hk1 as _ <-. lra.
  - pose proof (Hpost _ _ Hk1). simpl in *. lra.
Qed.

End Returns.

(** ** The search as a whole *)

(** [search] always comes to an end: the backtrace loop moves to a strictly
    smaller position at every step, so on every input the call returns or
    raises. *)
Theorem search_always_ends (self : KovLang) (tokens : list string)
  (start_symbol end_symbol : string) (max_len : Z) :
  exists outcome,
    search self tokens start_symbol end_symbol max_len = Some outcome.
Proof.
  destruct (search self tokens start_symbol end_symbol max_len) as [outcome |] eqn:E;
    [eauto |].
  now apply search_halts in E.
Qed.

(** In the lattice of a forward pass that returns, position 0 holds the start
    state alone, at cost 0; no dictionary of [best] holds a key twice; and
    every state stored at a position [e >= 1] is a state [(conv, (s, e))] with
    [1 <= s <= e], a span of at most [max_len] tokens, and [conv] a rewrite
    tried for that span: the token itself or a phrase-table target. *)
Theorem lattice_holds_admissible_states (self : KovLang) (sent : list string)
  (start_symbol : string) (max_len : Z) (st : lattice)
  (Hrun : forward self sent start_symbol max_len = Ok st) :
  nth_error (best st) 0 = Some [((start_symbol, (0, 0)), 0%R)] /\
  (forall e cell, nth_error (best st) e = Some cell -> NoDup (dict_keys cell)) /\
  (forall e cell k c,
      (1 <= e)%nat -> nth_error (best st) e = Some cell -> In (k, c) cell ->
      snd (snd k) = e /\ admissible_state self sent max_len k).
Proof.
  destruct (forward_states_admissible self sent start_symbol max_len st Hrun)
    as [HA HB].
  split; [exact HA |].
  split; [exact (forward_keys_unique self sent start_symbol max_len st Hrun) |].
  intros e cell k c He Hcell Hin. split; [| now apply (HB e cell k c)].
  pose proof (forward_inv self sent start_symbol max_len st Hrun) as Hinv.
  now destruct (inv_span self sent st _ Hinv e cell k c Hcell Hin).
Qed.

Lemma lattice_holds_admissible_states_witness :
  nth_error (best empty_sentence_lattice) 0 = Some [(("<s>", (0, 0)), 0%R)] /\
  (forall e cell,
      nth_error (best empty_sentence_lattice) e = Some cell ->
      NoDup (dict_keys cell)) /\
  (forall e cell k c,
      (1 <= e)%nat -> nth_error (best empty_sentence_lattice) e = Some cell ->
      In (k, c) cell ->
      snd (snd k) = e /\ admissible_state empty_model ["<s>"; "</s>"] 100 k).
Proof.
  exact (lattice_holds_admissible_states empty_model ["<s>"; "</s>"] "<s>" 100
           empty_sentence_lattice forward_empty_sentence).
Defined.

(** The states stored at a position [e >= 1] are exactly the ends of the
    paths from the start state: no state is stored that no path reaches, and
    no path is missed. *)
Theorem lattice_holds_the_path_ends (self : KovLang) (sent : list string)
  (start_symbol : string) (max_len : Z) (st : lattice) (e : nat) (k : key)
  (Hrun : forward self sent start_symbol max_len = Ok st)
  (He : (1 <= e)%nat) :
  (exists cell c, nth_error (best st) e = Some cell /\ dict_get cell k = Some c)
  <->
  (snd (snd k) = e /\
   exists path,
     is_path self sent max_len (start_symbol, (0, 0)) (path ++ [k])).
Proof.
  pose proof (forward_inv self sent start_symbol max_len st Hrun) as Hinv.
  destruct (forward_states_admissible self sent start_symbol max_len st Hrun)
    as [HA _].
  split.
  - intros (cell & c & Hcell & Hget). split.
    + now destruct (inv_span self sent st _ Hinv e cell k c Hcell
                      (dict_get_Some_In _ _ _ Hget)).
    + destruct (path_exists self sent start_symbol max_len st Hrun e cell k c
                  He Hcell Hget) as (path & Hpath & _).
      eauto.
  - intros (Hk & path & Hpath).
    destruct (path_bound self sent start_symbol max_len st Hrun (path ++ [k])
                (start_symbol, (0, 0)) 0 0 _ HA (start_state_stored start_symbol)
                (Rle_refl 0) Hpath)
      as (C & cell & c & _ & Hcell & Hget & _).
    rewrite end_state_app in Hcell, Hget. rewrite Hk in Hcell. eauto.
Qed.

Lemma lattice_holds_the_path_ends_witness :
  (exists cell c,
      nth_error (best empty_sentence_lattice) 1 = Some cell /\
      dict_get cell ("</s>", (1, 1)) = Some c)
  <->
  (snd (snd ("</s>", (1, 1))) = 1 /\
   exists path,
     is_path empty_model ["<s>"; "</s>"] 100 ("<s>", (0, 0))
       (path ++ [("</s>", (1, 1))])).
Proof.
  apply (lattice_holds_the_path_ends empty_model ["<s>"; "</s>"] "<s>" 100
           empty_sentence_lattice 1 ("</s>", (1, 1)) forward_empty_sentence).
  apply Nat.le_refl.
Defined.

Lemma token_is_rewrite (self : KovLang) (sent : list string) (e : nat) :
  (e < List.length sent)%nat -> is_rewrite self sent e e (word sent e).
Proof.
  intros He. destruct (nth_error_in_range sent e He) as [w Hw].
  unfold is_rewrite.
  rewrite (slice_single sent e w Hw), (word_nth_error sent e w Hw).
  destruct (not_self_mapped self w w) eqn:E; [left; auto | right].
  unfold not_self_mapped in E.
  destruct (dict_get (phrasemodel self) w) as [targets |]; [| discriminate].
  exists targets. split; [reflexivity |].
  apply dict_in_keys. unfold dict_in in E.
  destruct (dict_get targets w); discriminate.
Qed.

(** With a maximum phrase length of at least 1, a forward pass that returns
    has stored, at every position after the start, the state that leaves the
    token of that position unchanged: whether through the fallback for a
    token the phrase table does not map to itself or through the phrase
    table, the token itself is always among the rewrites. *)
Theorem unchanged_token_is_always_stored (self : KovLang) (sent : list string)
  (start_symbol : string) (max_len : Z) (st : lattice) (e : nat)
  (Hrun : forward self sent start_symbol max_len = Ok st)
  (Hmax : (1 <= max_len)%Z) (He : (1 <= e < List.length sent)%nat) :
  exists cell c,
    nth_error (best st) e = Some cell /\
    dict_get cell (word sent e, (e, e)) = Some c.
Proof.
  destruct (forward_reaches self sent start_symbol max_len st Hrun Hmax (e - 1))
    as (prev & Hprev & Hne); [lia |].
  apply (forward_states_complete self sent start_symbol max_len st Hrun
           (word sent e) e e prev); auto.
  - unfold admissible_state. repeat split; try lia.
    apply token_is_rewrite. lia.
  - left. lia.
Qed.

Lemma unchanged_token_is_always_stored_witness :
  exists cell c,
    nth_error (best empty_sentence_lattice) 1 = Some cell /\
    dict_get cell (word ["<s>"; "</s>"] 1, (1, 1)%nat) = Some c.
Proof.
  apply (unchanged_token_is_always_stored empty_model ["<s>"; "</s>"] "<s>" 100
           empty_sentence_lattice 1 forward_empty_sentence); simpl; lia.
Defined.

(** The cost stored with a state is the least cost of the paths from the
    start state to it: some path has exactly that cost, and every path to the
    state costs at least as much. *)
Theorem stored_cost_is_least_path_cost (self : KovLang) (sent : list string)
  (start_symbol : string) (max_len : Z) (st : lattice) (e : nat)
  (cell : dict key R) (k : key) (c : R)
  (Hrun : forward self sent start_symbol max_len = Ok st)
  (He : (1 <= e)%nat) (Hcell : nth_error (best st) e = Some cell)
  (Hget : dict_get cell k = Some c) :
  (exists path,
      is_path self sent max_len (start_symbol, (0, 0)) (path ++ [k]) /\
      chain_cost self sent (start_symbol, (0, 0)) 0 (path ++ [k]) = Ok c) /\
  (forall path,
      is_path self sent max_len (start_symbol, (0, 0)) (path ++ [k]) ->
      exists C,
        chain_cost self sent (start_symbol, (0, 0)) 0 (path ++ [k]) = Ok C /\
        (c <= C)%R).
Proof.
  pose proof (forward_inv self sent start_symbol max_len st Hrun) as Hinv.
  destruct (forward_states_admissible self sent start_symbol max_len st Hrun)
    as [HA _].
  split.
  - exact (path_exists self sent start_symbol max_len st Hrun e cell k c He Hcell Hget).
  - intros path Hpath.
    destruct (path_bound self sent start_symbol max_len st Hrun (path ++ [k])
                (start_symbol, (0, 0)) 0 0 _ HA (start_state_stored start_symbol)
                (Rle_refl 0) Hpath)
      as (C & cell' & c' & HC & Hcell' & Hget' & Hle).
    rewrite end_state_app in Hcell', Hget'.
    destruct (inv_span self sent st _ Hinv e cell k c Hcell
                (dict_get_Some_In _ _ _ Hget)) as [Hk _].
    rewrite Hk in Hcell'.
    assert (cell' = cell) by congruence. subst cell'.
    assert (c' = c) by congruence. subst c'.
    exists C. split; assumption.
Qed.

Lemma stored_cost_is_least_path_cost_witness :
  (exists path,
      is_path small_model ["<s>"; "a"; "</s>"] 100 ("<s>", (0, 0))
        (path ++ [("</s>", (2, 2))]) /\
      chain_cost small_model ["<s>"; "a"; "</s>"] ("<s>", (0, 0)) 0
        (path ++ [("</s>", (2, 2))]) = Ok small_via_b_cost) /\
  (forall path,
      is_path small_model ["<s>"; "a"; "</s>"] 100 ("<s>", (0, 0))
        (path ++ [("</s>", (2, 2))]) ->
      exists C,
        chain_cost small_model ["<s>"; "a"; "</s>"] ("<s>", (0, 0)) 0
          (path ++ [("</s>", (2, 2))]) = Ok C /\
        (small_via_b_cost <= C)%R).
Proof.
  apply (stored_cost_is_least_path_cost small_model ["<s>"; "a"; "</s>"] "<s>" 100
           small_lattice 2 [(("</s>", (2, 2)), small_via_b_cost)]
           ("</s>", (2, 2)) small_via_b_cost forward_small).
  - lia.
  - reflexivity.
  - reflexivity.
Defined.

(** After a forward pass that returns, [search] raises the [KeyError] of the
    first backtrace lookup or returns; when it returns, the backtrace loop
    has failed at no lookup, and the result is the start symbol followed by
    the phrases of a path of the lattice from the start state to a state
    that spans the end marker alone. Which path is followed depends on the
    comparisons of costs; that it is a path does not. *)
Theorem search_follows_a_lattice_path (self : KovLang) (tokens : list string)
  (start_symbol end_symbol : string) (max_len : Z) (st : lattice)
  (Hok : tables_ok self)
  (Hrun : forward self (bracket tokens start_symbol end_symbol) start_symbol
            max_len = Ok st) :
  let sent := bracket tokens start_symbol end_symbol in
  let N := (List.length tokens + 1)%nat in
  let outcome := search self tokens start_symbol end_symbol max_len in
  outcome = Some (Raise KeyError) \/
  exists path min_key,
    is_path self sent max_len (start_symbol, (0, 0))
      (path ++ [(min_key, (N, N))]) /\
    outcome = Some (Ok (start_symbol :: map fst path ++ [min_key])).
Proof.
  intros sent N outcome.
  destruct (search_outcome self tokens start_symbol end_symbol max_len st Hrun)
    as (cell & min_key & min_val & _ & _ & Hout).
  fold sent N outcome in Hout.
  destruct (dict_get cell (min_key, (N, N))) as [c |]; [right | left; exact Hout].
  destruct Hout as (path & Hpath & _ & Hout).
  exists path, min_key. split; assumption.
Qed.

Lemma search_small :
  search small_model ["a"] "<s>" "</s>" 100 = Some (Ok ["<s>"; "b"; "</s>"]).
Proof.
  unfold search.
  change (bracket ["a"] "<s>" "</s>") with ["<s>"; "a"; "</s>"].
  rewrite forward_small. reflexivity.
Qed.

Lemma search_follows_a_lattice_path_witness :
  search small_model ["a"] "<s>" "</s>" 100 = Some (Ok ["<s>"; "b"; "</s>"]) /\
  (search small_model ["a"] "<s>" "</s>" 100 = Some (Raise KeyError) \/
   exists path min_key,
     is_path small_model ["<s>"; "a"; "</s>"] 100 ("<s>", (0, 0))
       (path ++ [(min_key, (2, 2)%nat)]) /\
     search small_model ["a"] "<s>" "</s>" 100 =
     Some (Ok ("<s>" :: map fst path ++ [min_key]))).
Proof.
  split; [exact search_small |].
  exact (search_follows_a_lattice_path small_model ["a"] "<s>" "</s>" 100
           small_lattice small_model_ok forward_small).
Defined.

(** With probabilities in (0, 1] in the tables, no empty token, marker or
    phrase-table target, [search] raises nothing but the [KeyError] of the
    first backtrace lookup: it returns a path or raises [KeyError]. *)
Theorem search_returns_or_raises_key_error (self : KovLang)
  (tokens : list string) (start_symbol end_symbol : string) (max_len : Z)
  (Hok : tables_ok self) (Htargets : targets_nonempty self)
  (Htokens : Forall (fun w => w <> "") tokens)
  (Hstart : start_symbol <> "") (Hend : end_symbol <> "") :
  (exists ans,
      search self tokens start_symbol end_symbol max_len = Some (Ok ans)) \/
  search self tokens start_symbol end_symbol max_len = Some (Raise KeyError).
Proof.
  set (sent := bracket tokens start_symbol end_symbol).
  assert (Hwords : forall w, In w sent -> w <> "").
  { unfold sent, bracket. intros w Hin.
    apply in_app_or in Hin as [[<- | []] | Hin]; [exact Hstart |].
    apply in_app_or in Hin as [Hin | [<- | []]]; [| exact Hend].
    revert w Hin. now apply Forall_forall. }
  destruct (forward_returns self sent Hok Htargets Hwords start_symbol max_len)
    as [st Hrun]; [unfold sent, bracket; discriminate | exact Hstart |].
  destruct (search_outcome self tokens start_symbol end_symbol max_len st Hrun)
    as (cell & min_key & min_val & _ & _ & Hout).
  destruct (dict_get cell _) as [c |]; [left | right; exact Hout].
  destruct Hout as (path & _ & _ & Hout). eauto.
Qed.

Lemma small_model_targets : targets_nonempty small_model.
Proof.
  intros p targets t. simpl.
  destruct (String.eqb p "a"); [| discriminate].
  intros [= <-] [<- | []]. discriminate.
Qed.

Lemma search_returns_or_raises_key_error_witness :
  (exists ans, search small_model ["a"] "<s>" "</s>" 100 = Some (Ok ans)) \/
  search small_model ["a"] "<s>" "</s>" 100 = Some (Raise KeyError).
Proof.
  apply (search_returns_or_raises_key_error small_model ["a"] "<s>" "</s>" 100
           small_model_ok small_model_targets).
  - repeat constructor. discriminate.
  - discriminate.
  - discriminate.
Defined.

(** If moreover the maximum phrase length is at least 1 and no span that
    ends at the end marker and holds more than the marker is a key of the
    phrase table, every path of the lattice to the last position ends in a
    state that spans the end marker alone, and [search] returns: the result
    is the start symbol followed by the phrases of such a path from the
    start state. *)
Theorem search_returns_a_lattice_path (self : KovLang) (tokens : list string)
  (start_symbol end_symbol : string) (max_len : Z)
  (Hok : tables_ok self) (Htargets : targets_nonempty self)
  (Htokens : Forall (fun w => w <> "") tokens)
  (Hstart : start_symbol <> "") (Hend : end_symbol <> "")
  (Hmax : (1 <= max_len)%Z)
  (Hnarrow : forall s, (1 <= s < List.length tokens + 1)%nat ->
     dict_get (phrasemodel self)
       (join (slice (bracket tokens start_symbol end_symbol) s
                (List.length tokens + 1 + 1))) = None) :
  let sent := bracket tokens start_symbol end_symbol in
  let N := (List.length tokens + 1)%nat in
  (forall path' k,
     is_path self sent max_len (start_symbol, (0, 0)) (path' ++ [k]) ->
     snd (snd k) = N -> fst (snd k) = N) /\
  exists path min_key,
    is_path self sent max_len (start_symbol, (0, 0))
      (path ++ [(min_key, (N, N))]) /\
    search self tokens start_symbol end_symbol max_len =
    Some (Ok (start_symbol :: map fst path ++ [min_key])).
Proof.
  intros sent N. split.
  - intros path' [conv [s e]] Hpath He. cbn [fst snd] in *. subst e.
    apply is_path_app in Hpath as [_ (Hadm & _)].
    destruct Hadm as (Hse & _ & _ & [(E & _) | (targets & Hget & _)]);
      [exact E |].
    destruct (Nat.eq_dec s N) as [E | E]; [exact E |].
    unfold sent, N in Hget. rewrite Hnarrow in Hget by (fold N; lia).
    discriminate.
  - destruct (search_returns self tokens start_symbol end_symbol max_len Hok
                Htargets Htokens Hstart Hend Hmax Hnarrow)
      as (path & min_key & c & Hpath & _ & _ & Hsearch).
    exists path, min_key. split; assumption.
Qed.

Lemma search_returns_a_lattice_path_witness :
  search small_model ["a"] "<s>" "</s>" 100 = Some (Ok ["<s>"; "b"; "</s>"]) /\
  (forall path' k,
     is_path small_model ["<s>"; "a"; "</s>"] 100 ("<s>", (0, 0)) (path' ++ [k]) ->
     snd (snd k) = 2%nat -> fst (snd k) = 2%nat) /\
  exists path min_key,
    is_path small_model ["<s>"; "a"; "</s>"] 100 ("<s>", (0, 0))
      (path ++ [(min_key, (2, 2)%nat)]) /\
    search small_model ["a"] "<s>" "</s>" 100 =
    Some (Ok ("<s>" :: map fst path ++ [min_key])).
Proof.
  split; [exact search_small |].
  apply (search_returns_a_lattice_path small_model ["a"] "<s>" "</s>" 100
           small_model_ok small_model_targets).
  - repeat constructor. discriminate.
  - discriminate.
  - discriminate.
  - lia.
  - intros s Hs. simpl in Hs. assert (s = 1%nat) by lia. subst s. reflexivity.
Defined.

(** ** [convert] *)

Section ConvertReturns.

Variable self : KovLang.
Variable input : string.

Hypothesis Hok : tables_ok self.
Hypothesis Htargets : targets_nonempty self.

Lemma convert_search_returns :
  (forall n, (n < String.length input)%nat ->
     dict_get (phrasemodel self) (String.append (drop n input) "</s>") = None) ->
  let sent := bracket (chars input) "<s>" "</s>" in
  let N := (String.length input + 1)%nat in
  exists path min_key c,
    is_path self sent 100 ("<s>", (0, 0)) (path ++ [(min_key, (N, N))]) /\
    chain_cost self sent ("<s>", (0, 0)) 0 (path ++ [(min_key, (N, N))]) = Ok c /\
    (forall path' k,
       is_path self sent 100 ("<s>", (0, 0)) (path' ++ [k]) ->
       snd (snd k) = N ->
       exists C,
         chain_cost self sent ("<s>", (0, 0)) 0 (path' ++ [k]) = Ok C /\
         (c <= C)%R) /\
    search self (chars input) "<s>" "</s>" 100 =
    Some (Ok ("<s>" :: map fst path ++ [min_key])).
Proof.
  intros Hnarrow sent N.
  pose proof (search_returns self (chars input) "<s>" "</s>" 100 Hok Htargets
                (chars_nonempty input)) as H.
  cbv zeta in H. rewrite length_chars in H. apply H; try discriminate.
  intros s Hs.
  replace s with (s - 1 + 1)%nat at 1 by lia.
  rewrite final_phrase by lia. apply Hnarrow. lia.
Qed.

End ConvertReturns.

(** With probabilities in (0, 1] in the tables and no empty phrase-table
    target, [convert] returns a text whenever no non-empty rest of the input
    followed by the end marker is a key of the phrase table. *)
Theorem convert_returns (self : KovLang) (input : string)
  (Hok : tables_ok self) (Htargets : targets_nonempty self)
  (Hnarrow : forall n, (n < String.length input)%nat ->
     dict_get (phrasemodel self) (String.append (drop n input) "</s>") = None) :
  exists text, convert self input = Some (Ok text).
Proof.
  destruct (convert_search_returns self input Hok Htargets Hnarrow)
    as (path & min_key & c & _ & _ & _ & Hsearch).
  unfold convert. rewrite Hsearch. eauto.
Qed.

Lemma convert_returns_witness :
  exists text, convert small_model "a" = Some (Ok text).
Proof.
  apply (convert_returns small_model "a" small_model_ok small_model_targets).
  intros n Hn. simpl in Hn. assert (n = 0%nat) by lia. subst n. reflexivity.
Defined.

(** If the end marker itself is no key of the phrase table either, every
    path of the lattice to the last position ends in one and the same
    state, that of the end marker left unchanged, so that the choice of the
    final state has a single candidate, and [convert] returns the
    concatenated phrases of such a path, both markers stripped. *)
Theorem convert_returns_a_path_to_the_marker (self : KovLang) (input : string)
  (Hok : tables_ok self) (Htargets : targets_nonempty self)
  (Hnarrow : forall n, (n <= String.length input)%nat ->
     dict_get (phrasemodel self) (String.append (drop n input) "</s>") = None) :
  let sent := bracket (chars input) "<s>" "</s>" in
  let N := (String.length input + 1)%nat in
  (forall path' k,
     is_path self sent 100 ("<s>", (0, 0)) (path' ++ [k]) ->
     snd (snd k) = N -> k = ("</s>", (N, N))) /\
  exists path,
    is_path self sent 100 ("<s>", (0, 0)) (path ++ [("</s>", (N, N))]) /\
    convert self input = Some (Ok (join (map fst path))).
Proof.
  intros sent N.
  assert (Hlast : forall path' k,
            is_path self sent 100 ("<s>", (0, 0)) (path' ++ [k]) ->
            snd (snd k) = N -> k = ("</s>", (N, N))).
  { intros path' [conv [s e]] Hpath He. cbn [fst snd] in *. subst e.
    apply is_path_app in Hpath as [_ (Hadm & _)].
    destruct Hadm as (Hse & _ & _ & Hrw).
    assert (Hphrase : join (slice sent s (N + 1)) =
                      String.append (drop (s - 1) input) "</s>").
    { unfold sent, N. replace s with (s - 1 + 1)%nat at 1 by lia.
      apply final_phrase. unfold N in Hse. lia. }
    assert (Hnone : dict_get (phrasemodel self) (join (slice sent s (N + 1))) = None).
    { rewrite Hphrase. apply Hnarrow. unfold N in Hse. lia. }
    destruct Hrw as [(E & _ & ->) | (targets & Hget & _)];
      [| rewrite Hnone in Hget; discriminate].
    subst s. rewrite Hphrase. unfold N.
    replace (String.length input + 1 - 1)%nat with (String.length input) by lia.
    assert (Hdrop : forall t, drop (String.length t) t = "")
      by (intros t; induction t as [| a t IH]; [reflexivity | exact IH]).
    now rewrite Hdrop. }
  split; [exact Hlast |].
  destruct (convert_search_returns self input Hok Htargets)
    as (path & min_key & c & Hpath & _ & _ & Hsearch);
    [intros n Hn; apply Hnarrow; lia |].
  fold sent N in Hpath.
  assert (Hkey : min_key = "</s>").
  { pose proof (Hlast path (min_key, (N, N)) Hpath eq_refl) as E.
    now injection E. }
  subst min_key.
  exists path. split; [exact Hpath |].
  unfold convert. rewrite Hsearch. do 2 f_equal.
  change ("<s>" :: map fst path ++ ["</s>"])
    with (["<s>"] ++ map fst path ++ ["</s>"]).
  rewrite !join_app. apply re_sub_markers_bracketed.
Qed.

Lemma convert_small : convert small_model "a" = Some (Ok "b").
Proof.
  unfold convert. change (chars "a") with ["a"]. rewrite search_small. reflexivity.
Qed.

Lemma convert_returns_a_path_to_the_marker_witness :
  convert small_model "a" = Some (Ok "b") /\
  (forall path' k,
     is_path small_model ["<s>"; "a"; "</s>"] 100 ("<s>", (0, 0)) (path' ++ [k]) ->
     snd (snd k) = 2%nat -> k = ("</s>", (2, 2)%nat)) /\
  exists path,
    is_path small_model ["<s>"; "a"; "</s>"] 100 ("<s>", (0, 0))
      (path ++ [("</s>", (2, 2)%nat)]) /\
    convert small_model "a" = Some (Ok (join (map fst path))).
Proof.
  split; [exact convert_small |].
  apply (convert_returns_a_path_to_the_marker small_model "a" small_model_ok
           small_model_targets).
  intros n Hn. simpl in Hn.
  assert (Hcases : n = 0%nat \/ n = 1%nat) by lia.
  destruct Hcases as [-> | ->]; reflexivity.
Defined.

(** ** The exceptions of the forward pass *)

Lemma list_getitem_error {A : Type} (l : list A) (i : nat) (e : exn) :
  list_getitem l i = Raise e -> e = IndexError.
Proof.
  unfold list_getitem. destruct (nth_error l i); [discriminate | now intros [= <-]].
Qed.

Lemma list_setitem_error {A : Type} (l : list A) (i : nat) (x : A) (e : exn) :
  list_setitem l i x = Raise e -> e = IndexError.
Proof.
  unfold list_setitem. destruct (Nat.ltb i (List.length l));
    [discriminate | now intros [= <-]].
Qed.

Lemma bind_error {A B : Type} (c : result A) (k : A -> result B) (err e : exn) :
  (forall e', c = Raise e' -> e' = err) ->
  (forall a e', c = Ok a -> k a = Raise e' -> e' = err) ->
  bind c k = Raise e -> e = err.
Proof.
  intros Hc Hk. destruct c as [a | e0]; simpl.
  - now apply Hk.
  - intros [= <-]. now apply Hc.
Qed.

Lemma store_error (st : lattice) (e : nat) (k : key) (c : R) (pk : key)
  (err : exn) :
  store st e k c pk = Raise err -> err = IndexError.
Proof.
  unfold store.
  apply bind_error; [apply list_getitem_error | intros b ? _].
  apply bind_error; [apply list_setitem_error | intros best' ? _].
  apply bind_error; [apply list_getitem_error | intros p ? _].
  apply bind_error; [apply list_setitem_error | intros before' ? _].
  discriminate.
Qed.

Lemma relax_error (st : lattice) (e : nat) (k : key) (c : R) (pk : key)
  (err : exn) :
  relax st e k c pk = Raise err -> err = IndexError.
Proof.
  unfold relax.
  apply bind_error; [apply list_getitem_error | intros b ? _].
  destruct (dict_get b k) as [stored |]; [destruct (Rge_dec stored c) |];
    try apply store_error. discriminate.
Qed.

Lemma str_first_error (s : string) (e : exn) :
  str_first s = Raise e -> e = IndexError.
Proof.
  destruct s; simpl; [now intros [= <-] | discriminate].
Qed.

Lemma str_last_error (s : string) (e : exn) :
  str_last s = Raise e -> e = IndexError.
Proof.
  unfold str_last. destruct (last_char s); [discriminate | now intros [= <-]].
Qed.

Section ForwardErrors.

Variable self : KovLang.
Hypothesis Hok : tables_ok self.

Lemma extend_error (st : lattice) (prob : R) (conv_w0 : string) (cur_key : key)
  (s e : nat) (np conv target : string) (err : exn) :
  extend self st prob conv_w0 cur_key s e np conv target = Raise err ->
  err = IndexError.
Proof.
  unfold extend.
  apply bind_error; [apply str_first_error | intros w1 ? _].
  rewrite (bigram_cost_ok self Hok), (phrase_cost_ok self Hok). cbn [bind].
  apply relax_error.
Qed.

Lemma visit_error (s e : nat) (np nw : string) (st : lattice) (item : key * R)
  (err : exn) :
  visit self s e np nw st item = Raise err -> err = IndexError.
Proof.
  destruct item as [cur_key prob]. rewrite visit_candidates.
  apply bind_error; [apply str_last_error | intros w0 ? _].
  apply for_each_error. intros st1 cand e1. apply extend_error.
Qed.

Lemma scan_span_error (sent : list string) (c : nat) (st : lattice) (e : nat)
  (err : exn) :
  scan_span self sent c st e = Raise err -> err = IndexError.
Proof.
  unfold scan_span.
  apply bind_error; [apply list_getitem_error | intros nw ? _].
  apply bind_error; [apply list_getitem_error | intros cell ? _].
  apply for_each_error. intros st1 item e1. apply visit_error.
Qed.

Lemma forward_error (sent : list string) (start_symbol : string) (max_len : Z)
  (err : exn) :
  forward self sent start_symbol max_len = Raise err -> err = IndexError.
Proof.
  unfold forward.
  apply bind_error.
  - unfold initial_lattice. intros e'.
    apply bind_error; [apply list_getitem_error | intros cell ? _].
    apply bind_error; [apply list_setitem_error | intros b ? _]. discriminate.
  - intros st0 e' _. apply for_each_error. intros st1 c e1.
    unfold scan_position. apply for_each_error. intros st2 e2 e3.
    apply scan_span_error.
Qed.

(** A state stored by a forward pass that returns has a phrase that is not
    empty: its first character was read. *)
Lemma stored_phrase_nonempty (sent : list string) (start_symbol : string)
  (max_len : Z) (st : lattice) (e : nat) (cell : dict key R) (k : key) (c : R) :
  forward self sent start_symbol max_len = Ok st ->
  (1 <= e)%nat -> nth_error (best st) e = Some cell ->
  dict_get cell k = Some c -> fst k <> "".
Proof.
  intros Hrun He Hcell Hget.
  pose proof (forward_inv self sent start_symbol max_len st Hrun) as Hinv.
  destruct (inv_opt self sent st _ Hinv e cell k c He Hcell Hget)
    as (conv & s & prev & pcell & pk & pc & -> & _ & _ & _ & _ & _ & Hcost & _).
  simpl. intros ->. unfold transition_cost in Hcost.
  destruct (str_last (fst pk)); simpl in Hcost; discriminate.
Qed.

End ForwardErrors.

Lemma search_error (self : KovLang) (tokens : list string)
  (start_symbol end_symbol : string) (max_len : Z) (err : exn) :
  tables_ok self ->
  search self tokens start_symbol end_symbol max_len = Some (Raise err) ->
  err = IndexError \/ err = KeyError.
Proof.
  intros Hok Hsearch.
  destruct (forward self (bracket tokens start_symbol end_symbol) start_symbol max_len)
    as [st | e] eqn:Hrun.
  - right.
    destruct (search_outcome self tokens start_symbol end_symbol max_len st Hrun)
      as (cell & min_key & min_val & _ & _ & Hout).
    destruct (dict_get cell _) as [c |].
    + destruct Hout as (path & _ & _ & Hout). congruence.
    + congruence.
  - left. unfold search in Hsearch. rewrite Hrun in Hsearch.
    injection Hsearch as <-. exact (forward_error self Hok _ _ _ _ Hrun).
Qed.

(** With probabilities in (0, 1] in the tables, [search] raises neither
    [ValueError] nor [ZeroDivisionError], whatever its input: the only
    exceptions are the [IndexError] of an empty string in the forward pass
    and the [KeyError] of the first backtrace lookup. *)
Theorem search_raises_index_or_key_error (self : KovLang)
  (tokens : list string) (start_symbol end_symbol : string) (max_len : Z)
  (err : exn) (Hok : tables_ok self)
  (Hraise : search self tokens start_symbol end_symbol max_len = Some (Raise err)) :
  err = IndexError \/ err = KeyError.
Proof.
  exact (search_error self tokens start_symbol end_symbol max_len err Hok Hraise).
Qed.

Lemma search_raises_index_or_key_error_witness :
  KeyError = IndexError \/ KeyError = KeyError.
Proof.
  apply (search_raises_index_or_key_error small_model ["a"; "b"] "<s>" "</s>" 0
           KeyError small_model_ok).
  apply (search_skips_all_spans small_model ["a"; "b"] "<s>" "</s>" 0). lia.
Defined.

Lemma search_hits_empty_target (self : KovLang) (tokens : list string)
  (start_symbol end_symbol : string) (max_len : Z) (s e : nat)
  (targets : dict string R) :
  tables_ok self ->
  (1 <= s <= e)%nat -> (e <= List.length tokens + 1)%nat ->
  (Z.of_nat e < Z.of_nat s + max_len)%Z ->
  dict_get (phrasemodel self)
    (join (slice (bracket tokens start_symbol end_symbol) s (e + 1))) =
  Some targets ->
  In "" (dict_keys targets) ->
  search self tokens start_symbol end_symbol max_len = Some (Raise IndexError).
Proof.
  intros Hok Hse He Hlen Hkey Hempty.
  set (sent := bracket tokens start_symbol end_symbol) in *.
  assert (Hsent : List.length sent = (List.length tokens + 2)%nat)
    by apply bracket_length.
  unfold search. fold sent.
  destruct (forward self sent start_symbol max_len) as [st | err] eqn:Hrun.
  - exfalso.
    destruct (forward_reaches self sent start_symbol max_len st Hrun ltac:(lia)
                (s - 1)%nat ltac:(lia)) as (prev & Hprev & Hne).
    destruct (forward_states_complete self sent start_symbol max_len st Hrun
                "" s e prev) as (cell & c & Hcell & Hget); auto.
    + unfold admissible_state. repeat split; try lia.
      right. exists targets. auto.
    + left. lia.
    + now apply (stored_phrase_nonempty self sent start_symbol max_len st e cell
                   ("", (s, e)) c Hrun ltac:(lia) Hcell Hget).
  - now rewrite (forward_error self Hok _ _ _ _ Hrun).
Qed.

(** A phrase-table entry whose target is the empty string makes [search]
    raise [IndexError] on every input in which its source phrase occurs
    within the maximum phrase length: the first character of the empty
    target is read. *)
Theorem empty_target_raises_index_error (self : KovLang)
  (tokens : list string) (start_symbol end_symbol : string) (max_len : Z)
  (s e : nat) (targets : dict string R)
  (Hok : tables_ok self)
  (Hse : (1 <= s <= e)%nat) (He : (e <= List.length tokens + 1)%nat)
  (Hlen : (Z.of_nat e < Z.of_nat s + max_len)%Z)
  (Hkey : dict_get (phrasemodel self)
            (join (slice (bracket tokens start_symbol end_symbol) s (e + 1))) =
          Some targets)
  (Hempty : In "" (dict_keys targets)) :
  search self tokens start_symbol end_symbol max_len = Some (Raise IndexError).
Proof.
  exact (search_hits_empty_target self tokens start_symbol end_symbol max_len
           s e targets Hok Hse He Hlen Hkey Hempty).
Qed.

Lemma deleting_model_ok : tables_ok deleting_model.
Proof.
  constructor; simpl; try discriminate.
  intros p1 targets p2 p. destruct (String.eqb p1 "a"); [| discriminate].
  intros [= <-]. simpl. destruct (String.eqb p2 ""); [| discriminate].
  intros [= <-]. unfold is_probability. lra.
Qed.

Lemma empty_target_raises_index_error_witness :
  search deleting_model ["a"] "<s>" "</s>" 100 = Some (Raise IndexError).
Proof.
  apply (empty_target_raises_index_error deleting_model ["a"] "<s>" "</s>" 100
           1 1 [("", 0.5%R)] deleting_model_ok).
  - lia.
  - simpl. lia.
  - lia.
  - reflexivity.
  - now left.
Defined.

(** ** What the loaders return *)

Section LastValue.

Context {K : Type} `{HashableLaws K}.

Lemma last_value_In (recs : list (K * R)) (k : K) (p : R) :
  last_value recs k = Some p -> In (k, p) recs.
Proof.
  induction recs as [| [k' q] recs IH]; simpl; [discriminate |].
  destruct (last_value recs k) as [q' |].
  - intros [= ->]. right. now apply IH.
  - destruct (key_eqb k k') eqn:E; [| discriminate].
    apply key_eqb_eq in E. subst k'. intros [= ->]. now left.
Qed.

End LastValue.

Lemma records_of_lines {A B : Type} (f : A -> option B) (lines : list A)
  (recs : list B) (r : B) :
  map f lines = map Some recs -> In r recs ->
  exists line, In line lines /\ f line = Some r.
Proof.
  intros Hmap Hin. apply (in_map Some) in Hin. rewrite <- Hmap in Hin.
  apply in_map_iff in Hin as (line & Hf & Hline). eauto.
Qed.

Section Loaded.

Variable float_of_str : string -> option R.

Lemma load_phrase_line_Ok (pm pm' : dict string (dict string R)) (line : string) :
  load_phrase_line float_of_str pm line = Ok pm' ->
  exists w1 w2 p,
    phrase_record float_of_str line = Some ((w1, w2), p) /\
    forall a b,
      phrasemodel_get pm' a b =
      if key_eqb (a, b) (w1, w2) then Some p else phrasemodel_get pm a b.
Proof.
  unfold load_phrase_line, phrase_record, fields, py_float.
  destruct (split tab (rstrip line)) as [| words [| prob [| x l]]]; simpl;
    try discriminate.
  destruct (float_of_str prob) as [p |]; simpl; [| discriminate].
  destruct (split comma words) as [| w1 [| w2 [| y l]]]; simpl; try discriminate.
  intros Hload. exists w1, w2, p. split; [reflexivity |].
  set (pm1 := if negb (dict_in w1 pm) then dict_set pm w1 [] else pm) in *.
  assert (Hpm1 : exists inner,
            dict_get pm1 w1 = Some inner /\
            (forall b, dict_get inner b = phrasemodel_get pm w1 b) /\
            forall a, a <> w1 -> dict_get pm1 a = dict_get pm a).
  { unfold pm1, dict_in, phrasemodel_get.
    destruct (dict_get pm w1) as [inner |] eqn:E; simpl.
    - exists inner. rewrite E. auto.
    - exists []. rewrite dict_get_set_same. split; [reflexivity |].
      split; [reflexivity |]. intros a Ha. now apply dict_get_set_other. }
  destruct Hpm1 as (inner & Hinner & Hsame & Hother).
  unfold dict_getitem in Hload. rewrite Hinner in Hload. simpl in Hload.
  injection Hload as <-.
  intros a b. unfold phrasemodel_get at 1.
  destruct (String.eqb_spec a w1) as [-> | Ha]; simpl.
  - rewrite dict_get_set_same.
    destruct (String.eqb_spec b w2) as [-> | Hb].
    + apply dict_get_set_same.
    + rewrite dict_get_set_other by assumption. apply Hsame.
  - rewrite dict_get_set_other by assumption. rewrite Hother by assumption.
    reflexivity.
Qed.

Lemma load_phrase_lines_Ok (lines : list string) :
  forall (pm0 pm : dict string (dict string R)),
    for_each lines (load_phrase_line float_of_str) pm0 = Ok pm ->
    exists recs,
      map (phrase_record float_of_str) lines = map Some recs /\
      forall w1 w2,
        phrasemodel_get pm w1 w2 =
        match last_value recs (w1, w2) with
        | Some q => Some q
        | None => phrasemodel_get pm0 w1 w2
        end.
Proof.
  induction lines as [| line lines IH]; intros pm0 pm; simpl.
  - intros [= <-]. exists []. split; reflexivity.
  - intros Hrun. apply bind_Ok in Hrun as (pm1 & Hline & Hrest).
    apply load_phrase_line_Ok in Hline as (w1 & w2 & p & Hrec & Hget1).
    apply IH in Hrest as (recs & Hmap & Hget).
    exists (((w1, w2), p) :: recs). split; [simpl; now rewrite Hrec, Hmap |].
    intros a b. rewrite Hget. cbn [last_value].
    destruct (last_value recs (a, b)); [reflexivity |].
    rewrite Hget1. now destruct (key_eqb (a, b) (w1, w2)).
Qed.

Lemma load_bigram_line_Ok
  (um um' : dict string R) (bm bm' : dict (string * string) R) (line : string) :
  load_bigram_line float_of_str (um, bm) line = Ok (um', bm') ->
  exists r,
    bigram_record float_of_str line = Some r /\
    match r with
    | Unigram w p =>
        bm' = bm /\
        forall a, dict_get um' a = if key_eqb a w then Some p else dict_get um a
    | Bigram w0 w1 p =>
        um' = um /\
        forall a, dict_get bm' a =
                  if key_eqb a (w0, w1) then Some p else dict_get bm a
    end.
Proof.
  unfold load_bigram_line, bigram_record, fields, py_float.
  destruct (split tab (rstrip line)) as [| words [| prob [| x l]]]; simpl;
    try discriminate.
  destruct (float_of_str prob) as [p |]; simpl; [| discriminate].
  destruct (contains blank words); simpl.
  - destruct (split blank words) as [| w0 [| w1 [| y l]]]; simpl; try discriminate.
    intros [= <- <-]. exists (Bigram w0 w1 p). split; [reflexivity |].
    split; [reflexivity |]. intros a.
    change ((fst a =? w0) && (snd a =? w1)) with (key_eqb a (w0, w1)).
    destruct (key_eqb a (w0, w1)) eqn:E.
    + apply key_eqb_eq in E. subst a. apply dict_get_set_same.
    + apply dict_get_set_other. intros ->. rewrite key_eqb_refl in E. discriminate.
  - intros [= <- <-]. exists (Unigram words p). split; [reflexivity |].
    split; [reflexivity |]. intros a.
    change (a =? words) with (key_eqb a words).
    destruct (key_eqb a words) eqn:E.
    + apply key_eqb_eq in E. subst a. apply dict_get_set_same.
    + apply dict_get_set_other. intros ->. rewrite key_eqb_refl in E. discriminate.
Qed.

Lemma load_bigram_lines_Ok (lines : list string) :
  forall (um0 um : dict string R) (bm0 bm : dict (string * string) R),
    for_each lines (load_bigram_line float_of_str) (um0, bm0) = Ok (um, bm) ->
    exists recs,
      map (bigram_record float_of_str) lines = map Some recs /\
      (forall w,
         dict_get um w =
         match last_value (unigrams recs) w with
         | Some q => Some q
         | None => dict_get um0 w
         end) /\
      (forall w0 w1,
         dict_get bm (w0, w1) =
         match last_value (bigrams recs) (w0, w1) with
         | Some q => Some q
         | None => dict_get bm0 (w0, w1)
         end).
Proof.
  induction lines as [| line lines IH]; intros um0 um bm0 bm; simpl.
  - intros [= <- <-]. exists []. split; [reflexivity |]. split; reflexivity.
  - intros Hrun. apply bind_Ok in Hrun as ([um1 bm1] & Hline & Hrest).
    apply load_bigram_line_Ok in Hline as (r & Hrec & Hr).
    apply IH in Hrest as (recs & Hmap & Hum & Hbm).
    exists (r :: recs). split; [simpl; now rewrite Hrec, Hmap |].
    destruct r as [w p | w0 w1 p]; destruct Hr as [-> Hget1];
      unfold unigrams, bigrams in *; cbn [flat_map app]; split.
    + intros a. rewrite Hum. cbn [last_value].
      destruct (last_value _ a); [reflexivity |].
      rewrite Hget1. now destruct (key_eqb a w).
    + exact Hbm.
    + exact Hum.
    + intros a b. rewrite Hbm. cbn [last_value].
      destruct (last_value _ (a, b)); [reflexivity |].
      rewrite Hget1. now destruct (key_eqb (a, b) (w0, w1)).
Qed.

Lemma phrase_record_prob (line : string) (k : string * string) (p : R) :
  phrase_record float_of_str line = Some (k, p) ->
  line_prob float_of_str line = Some p.
Proof.
  unfold phrase_record, line_prob.
  destruct (fields line) as [| words [| prob [| x l]]]; try discriminate.
  destruct (float_of_str prob) as [q |]; [| discriminate].
  destruct (split comma words) as [| w1 [| w2 [| y l]]]; try discriminate.
  now intros [= _ ->].
Qed.

Lemma bigram_record_prob (line : string) (r : lm_record) :
  bigram_record float_of_str line = Some r ->
  line_prob float_of_str line =
  Some match r with Unigram _ p => p | Bigram _ _ p => p end.
Proof.
  unfold bigram_record, line_prob.
  destruct (fields line) as [| words [| prob [| x l]]]; try discriminate.
  destruct (float_of_str prob) as [q |]; [| discriminate].
  destruct (contains blank words).
  - destruct (split blank words) as [| w0 [| w1 [| y l]]]; try discriminate.
    now intros [= <-].
  - now intros [= <-].
Qed.

Lemma In_unigrams (recs : list lm_record) (w : string) (p : R) :
  In (w, p) (unigrams recs) -> In (Unigram w p) recs.
Proof.
  unfold unigrams. intros Hin. apply in_flat_map in Hin as (r & Hr & Hin).
  destruct r as [w' p' | w0 w1 p']; simpl in Hin; [| destruct Hin].
  destruct Hin as [[= -> ->] | []]. exact Hr.
Qed.

Lemma In_bigrams (recs : list lm_record) (k : string * string) (p : R) :
  In (k, p) (bigrams recs) -> In (Bigram (fst k) (snd k) p) recs.
Proof.
  unfold bigrams. intros Hin. apply in_flat_map in Hin as (r & Hr & Hin).
  destruct r as [w' p' | w0 w1 p']; simpl in Hin; [destruct Hin |].
  destruct Hin as [[= <- ->] | []]. exact Hr.
Qed.

End Loaded.

(** When [load_phrase_model] returns, every line was a record
    [w1,w2<TAB>prob] and the table maps each pair to the probability of the
    last line that holds it; pairs of no line are absent. *)
Theorem loaded_phrase_table_holds_last_records
  (float_of_str : string -> option R) (lines : list string)
  (pm : dict string (dict string R))
  (Hload : load_phrase_model float_of_str lines = Ok pm) :
  exists recs,
    map (phrase_record float_of_str) lines = map Some recs /\
    forall w1 w2, phrasemodel_get pm w1 w2 = last_value recs (w1, w2).
Proof.
  destruct (load_phrase_lines_Ok float_of_str lines [] pm Hload)
    as (recs & Hmap & Hget).
  exists recs. split; [exact Hmap |].
  intros w1 w2. rewrite Hget. now destruct (last_value recs (w1, w2)).
Qed.

Lemma loaded_phrase_table_holds_last_records_witness :
  exists recs,
    map (phrase_record sample_float) sample_phrase_lines = map Some recs /\
    forall w1 w2,
      phrasemodel_get [("a", [("b", 0.9%R)])] w1 w2 = last_value recs (w1, w2).
Proof.
  apply (loaded_phrase_table_holds_last_records sample_float sample_phrase_lines
           [("a", [("b", 0.9%R)])]).
  reflexivity.
Defined.

(** When [load_bigram_model] returns, every line was a unigram record
    [w<TAB>prob] or a bigram record [w0 w1<TAB>prob]; the unigram table maps
    each token, and the bigram table each pair, to the probability of the
    last line that holds it. *)
Theorem loaded_bigram_tables_hold_last_records
  (float_of_str : string -> option R) (lines : list string)
  (um : dict string R) (bm : dict (string * string) R)
  (Hload : load_bigram_model float_of_str lines = Ok (um, bm)) :
  exists recs,
    map (bigram_record float_of_str) lines = map Some recs /\
    (forall w, dict_get um w = last_value (unigrams recs) w) /\
    (forall w0 w1, dict_get bm (w0, w1) = last_value (bigrams recs) (w0, w1)).
Proof.
  destruct (load_bigram_lines_Ok float_of_str lines [] um [] bm Hload)
    as (recs & Hmap & Hum & Hbm).
  exists recs. split; [exact Hmap |]. split.
  - intros w. rewrite Hum. now destruct (last_value (unigrams recs) w).
  - intros w0 w1. rewrite Hbm. now destruct (last_value (bigrams recs) (w0, w1)).
Qed.

Lemma loaded_bigram_tables_hold_last_records_witness :
  exists recs,
    map (bigram_record sample_float) sample_bigram_lines = map Some recs /\
    (forall w, dict_get [("b", 0.25%R)] w = last_value (unigrams recs) w) /\
    (forall w0 w1,
       dict_get [(("a", "b"), 0.5%R)] (w0, w1) =
       last_value (bigrams recs) (w0, w1)).
Proof.
  apply (loaded_bigram_tables_hold_last_records sample_float sample_bigram_lines
           [("b", 0.25%R)] [(("a", "b"), 0.5%R)]).
  reflexivity.
Defined.

(** A model built by [__init__] from files whose probabilities all lie in
    (0, 1] satisfies the invariant of the data model; if moreover no line of
    the phrase table has an empty target, no target of the model is empty. *)
Theorem loaded_model_is_valid (float_of_str : string -> option R)
  (phrase_lines bigram_lines : list string) (self : KovLang)
  (Hinit : init float_of_str phrase_lines bigram_lines = Ok self)
  (Hprobs : forall line p,
      In line phrase_lines \/ In line bigram_lines ->
      line_prob float_of_str line = Some p -> is_probability p) :
  tables_ok self /\
  ((forall line w1 w2 p,
       In line phrase_lines ->
       phrase_record float_of_str line = Some ((w1, w2), p) -> w2 <> "") ->
   targets_nonempty self).
Proof.
  unfold init in Hinit.
  apply bind_Ok in Hinit as (pm & Hpm & Hinit).
  apply bind_Ok in Hinit as ([um bm] & Hlm & Hinit).
  injection Hinit as <-.
  destruct (load_phrase_lines_Ok float_of_str phrase_lines [] pm Hpm)
    as (precs & Hpmap & Hpget).
  destruct (load_bigram_lines_Ok float_of_str bigram_lines [] um [] bm Hlm)
    as (lrecs & Hlmap & Hum & Hbm).
  assert (Hphrase : forall w1 w2 p,
            phrasemodel_get pm w1 w2 = Some p ->
            exists line, In line phrase_lines /\
                         phrase_record float_of_str line = Some ((w1, w2), p)).
  { intros w1 w2 p Hget. rewrite Hpget in Hget.
    destruct (last_value precs (w1, w2)) as [q |] eqn:E; [| discriminate].
    injection Hget as ->. apply last_value_In in E.
    exact (records_of_lines _ _ _ _ Hpmap E). }
  split; [constructor |]; cbn [phrasemodel unimodel bimodel].
  - intros w p Hget. rewrite Hum in Hget.
    destruct (last_value (unigrams lrecs) w) as [q |] eqn:E; [| discriminate].
    injection Hget as ->. apply last_value_In, In_unigrams in E.
    destruct (records_of_lines _ _ _ _ Hlmap E) as (line & Hline & Hrec).
    apply (Hprobs line p (or_intror Hline)).
    exact (bigram_record_prob float_of_str line _ Hrec).
  - intros [w0 w1] p Hget. rewrite Hbm in Hget.
    destruct (last_value (bigrams lrecs) (w0, w1)) as [q |] eqn:E; [| discriminate].
    injection Hget as ->. apply last_value_In, In_bigrams in E.
    destruct (records_of_lines _ _ _ _ Hlmap E) as (line & Hline & Hrec).
    apply (Hprobs line p (or_intror Hline)).
    exact (bigram_record_prob float_of_str line _ Hrec).
  - intros p1 targets p2 p Htargets Hget. simpl in Htargets.
    destruct (Hphrase p1 p2 p) as (line & Hline & Hrec).
    { unfold phrasemodel_get. now rewrite Htargets. }
    apply (Hprobs line p (or_introl Hline)).
    exact (phrase_record_prob float_of_str line _ p Hrec).
  - intros Hnonempty p1 targets t Htargets Hin. simpl in Htargets.
    apply dict_in_keys in Hin.
    destruct (dict_get targets t) as [p |] eqn:E; [| now elim Hin].
    destruct (Hphrase p1 t p) as (line & Hline & Hrec).
    { unfold phrasemodel_get. now rewrite Htargets. }
    exact (Hnonempty line p1 t p Hline Hrec).
Qed.

Lemma loaded_model_is_valid_witness :
  tables_ok small_model /\
  ((forall line w1 w2 p,
       In line sample_phrase_lines ->
       phrase_record sample_float line = Some ((w1, w2), p) -> w2 <> "") ->
   targets_nonempty small_model).
Proof.
  apply (loaded_model_is_valid sample_float sample_phrase_lines
           sample_bigram_lines small_model).
  - reflexivity.
  - intros line p [[<- | [<- | []]] | [<- | [<- | []]]];
      intros [= <-]; unfold is_probability; lra.
Defined.

(** ** Separators never end up in a key *)

Lemma split_no_sep (sep : ascii) (s field : string) :
  In field (split sep s) -> contains sep field = false.
Proof.
  unfold contains. revert field.
  induction s as [| c s IH]; intros field; simpl.
  - intros [<- | []]. reflexivity.
  - destruct (Ascii.eqb c sep) eqn:E.
    + intros [<- | Hin]; [reflexivity | now apply IH].
    + destruct (split sep s) as [| f fs]; simpl.
      * intros [<- | []]. simpl. rewrite Ascii.eqb_sym, E. reflexivity.
      * intros [<- | Hin].
        -- simpl. rewrite Ascii.eqb_sym, E. simpl. apply IH. now left.
        -- apply IH. now right.
Qed.

Lemma split_chars (sep : ascii) (s field : string) (c : ascii) :
  In field (split sep s) -> In c (list_ascii_of_string field) ->
  In c (list_ascii_of_string s).
Proof.
  revert field. induction s as [| a s IH]; intros field; simpl.
  - intros [<- | []] [].
  - destruct (Ascii.eqb a sep).
    + intros [<- | Hin]; [intros [] |]. intros Hc. right. now apply (IH field).
    + destruct (split sep s) as [| f fs]; simpl.
      * intros [<- | []]. simpl. intros [<- | []]. now left.
      * intros [<- | Hin].
        -- simpl. intros [<- | Hc]; [now left |]. right. apply (IH f); auto. now left.
        -- intros Hc. right. apply (IH field); auto. now right.
Qed.

Lemma split_keeps_absent (sep other : ascii) (s field : string) :
  In field (split sep s) -> contains other s = false ->
  contains other field = false.
Proof.
  intros Hin Hs. unfold contains in *.
  destruct (existsb (Ascii.eqb other) (list_ascii_of_string field)) eqn:E;
    [| reflexivity].
  apply existsb_exists in E as (c & Hc & Heq).
  rewrite <- Hs. symmetry. apply existsb_exists. exists c.
  split; [| exact Heq]. now apply (split_chars sep s field).
Qed.

Section Separators.

Variable float_of_str : string -> option R.

Lemma phrase_record_keys (line : string) (w1 w2 : string) (p : R) :
  phrase_record float_of_str line = Some ((w1, w2), p) ->
  contains comma w1 = false /\ contains comma w2 = false /\
  contains tab w1 = false /\ contains tab w2 = false.
Proof.
  unfold phrase_record, fields.
  destruct (split tab (rstrip line)) as [| words [| prob [| x l]]] eqn:Et;
    try discriminate.
  destruct (float_of_str prob) as [q |]; [| discriminate].
  destruct (split comma words) as [| a [| b [| y l]]] eqn:Ec; try discriminate.
  intros [= <- <- _].
  assert (Hwords : contains tab words = false).
  { apply (split_no_sep tab (rstrip line)). rewrite Et. now left. }
  assert (Ha : In a (split comma words)) by (rewrite Ec; now left).
  assert (Hb : In b (split comma words)) by (rewrite Ec; right; now left).
  repeat split.
  - now apply (split_no_sep comma words).
  - now apply (split_no_sep comma words).
  - now apply (split_keeps_absent comma tab words).
  - now apply (split_keeps_absent comma tab words).
Qed.

Lemma bigram_record_keys (line : string) (r : lm_record) :
  bigram_record float_of_str line = Some r ->
  match r with
  | Unigram w _ => contains blank w = false /\ contains tab w = false
  | Bigram w0 w1 _ =>
      contains blank w0 = false /\ contains blank w1 = false /\
      contains tab w0 = false /\ contains tab w1 = false
  end.
Proof.
  unfold bigram_record, fields.
  destruct (split tab (rstrip line)) as [| words [| prob [| x l]]] eqn:Et;
    try discriminate.
  destruct (float_of_str prob) as [q |]; [| discriminate].
  assert (Hwords : contains tab words = false).
  { apply (split_no_sep tab (rstrip line)). rewrite Et. now left. }
  destruct (contains blank words) eqn:Eb.
  - destruct (split blank words) as [| a [| b [| y l]]] eqn:Ec; try discriminate.
    intros [= <-].
    assert (Ha : In a (split blank words)) by (rewrite Ec; now left).
    assert (Hb : In b (split blank words)) by (rewrite Ec; right; now left).
    repeat split.
    + now apply (split_no_sep blank words).
    + now apply (split_no_sep blank words).
    + now apply (split_keeps_absent blank tab words).
    + now apply (split_keeps_absent blank tab words).
  - intros [= <-]. auto.
Qed.

End Separators.

(** No key of a loaded table holds a separator: the phrases of the phrase
    table hold neither a comma nor a tab, the tokens of the unigram and of
    the bigram table neither a blank nor a tab. *)
Theorem loaded_keys_hold_no_separator (float_of_str : string -> option R)
  (phrase_lines bigram_lines : list string) (self : KovLang)
  (Hinit : init float_of_str phrase_lines bigram_lines = Ok self) :
  (forall w1 w2 p,
      phrasemodel_get (phrasemodel self) w1 w2 = Some p ->
      contains comma w1 = false /\ contains comma w2 = false /\
      contains tab w1 = false /\ contains tab w2 = false) /\
  (forall w p,
      dict_get (unimodel self) w = Some p ->
      contains blank w = false /\ contains tab w = false) /\
  (forall w0 w1 p,
      dict_get (bimodel self) (w0, w1) = Some p ->
      contains blank w0 = false /\ contains blank w1 = false /\
      contains tab w0 = false /\ contains tab w1 = false).
Proof.
  unfold init in Hinit.
  apply bind_Ok in Hinit as (pm & Hpm & Hinit).
  apply bind_Ok in Hinit as ([um bm] & Hlm & Hinit).
  injection Hinit as <-. cbn [phrasemodel unimodel bimodel].
  destruct (load_phrase_lines_Ok float_of_str phrase_lines [] pm Hpm)
    as (precs & Hpmap & Hpget).
  destruct (load_bigram_lines_Ok float_of_str bigram_lines [] um [] bm Hlm)
    as (lrecs & Hlmap & Hum & Hbm).
  split; [| split].
  - intros w1 w2 p Hget. rewrite Hpget in Hget.
    destruct (last_value precs (w1, w2)) as [q |] eqn:E; [| discriminate].
    apply last_value_In in E.
    destruct (records_of_lines _ _ _ _ Hpmap E) as (line & _ & Hrec).
    exact (phrase_record_keys float_of_str line w1 w2 q Hrec).
  - intros w p Hget. rewrite Hum in Hget.
    destruct (last_value (unigrams lrecs) w) as [q |] eqn:E; [| discriminate].
    apply last_value_In, In_unigrams in E.
    destruct (records_of_lines _ _ _ _ Hlmap E) as (line & _ & Hrec).
    exact (bigram_record_keys float_of_str line _ Hrec).
  - intros w0 w1 p Hget. rewrite Hbm in Hget.
    destruct (last_value (bigrams lrecs) (w0, w1)) as [q |] eqn:E; [| discriminate].
    apply last_value_In, In_bigrams in E.
    destruct (records_of_lines _ _ _ _ Hlmap E) as (line & _ & Hrec).
    exact (bigram_record_keys float_of_str line _ Hrec).
Qed.

Lemma loaded_keys_hold_no_separator_witness :
  (forall w1 w2 p,
      phrasemodel_get (phrasemodel small_model) w1 w2 = Some p ->
      contains comma w1 = false /\ contains comma w2 = false /\
      contains tab w1 = false /\ contains tab w2 = false) /\
  (forall w p,
      dict_get (unimodel small_model) w = Some p ->
      contains blank w = false /\ contains tab w = false) /\
  (forall w0 w1 p,
      dict_get (bimodel small_model) (w0, w1) = Some p ->
      contains blank w0 = false /\ contains blank w1 = false /\
      contains tab w0 = false /\ contains tab w1 = false).
Proof.
  apply (loaded_keys_hold_no_separator sample_float sample_phrase_lines
           sample_bigram_lines small_model).
  reflexivity.
Defined.

(** ** Costs along the predecessors *)

Lemma transition_cost_grows (self : KovLang) (sent : list string) (pk : key)
  (pc : R) (k : key) (c : R) :
  tables_ok self -> transition_cost self sent pk pc k = Ok c -> (pc < c)%R.
Proof.
  intros Hok. destruct k as [conv [s e]]. unfold transition_cost.
  destruct (str_last (fst pk)) as [w0 |]; simpl; [| discriminate].
  destruct (str_first conv) as [w1 |]; simpl; [| discriminate].
  rewrite (bigram_cost_ok self Hok), (phrase_cost_ok self Hok). simpl.
  intros [= <-].
  pose proof (neg_ln_pos _ (bigram_p_bounds self Hok w0 w1)).
  pose proof (neg_ln_pos _ (phrase_p_bounds self Hok
                              (join (slice sent s (e + 1))) conv)).
  lra.
Qed.

(** Every back pointer leads to a state stored at the position right before
    the span it was set for, and that state is strictly cheaper: with
    probabilities in (0, 1] in the tables, costs grow along every path of
    the lattice. *)
Theorem costs_grow_along_predecessors (self : KovLang) (sent : list string)
  (start_symbol : string) (max_len : Z) (st : lattice) (e : nat)
  (cell : dict key R) (pcell : dict key key) (k pk : key) (c : R)
  (Hok : tables_ok self)
  (Hrun : forward self sent start_symbol max_len = Ok st)
  (He : (1 <= e)%nat)
  (Hcell : nth_error (best st) e = Some cell)
  (Hget : dict_get cell k = Some c)
  (Hpcell : nth_error (before_pos st) e = Some pcell)
  (Hpk : dict_get pcell k = Some pk) :
  exists prev pc,
    (snd (snd pk) + 1)%nat = fst (snd k) /\
    nth_error (best st) (snd (snd pk)) = Some prev /\
    dict_get prev pk = Some pc /\ (pc < c)%R.
Proof.
  pose proof (forward_inv self sent start_symbol max_len st Hrun) as Hinv.
  pose proof (forward_keys_unique self sent start_symbol max_len st Hrun) as HU.
  destruct (inv_opt self sent st _ Hinv e cell k c He Hcell Hget)
    as (conv & s & prev & pcell' & pk' & pc & -> & Hse & Hprev & Hpcell' & Hpk' & Hin
        & Hcost & _).
  assert (pcell' = pcell) by congruence. subst pcell'.
  assert (pk' = pk) by congruence. subst pk'.
  destruct (inv_span self sent st _ Hinv (s - 1) prev pk pc Hprev Hin) as [Hend _].
  exists prev, pc. rewrite Hend. cbn [fst snd].
  split; [lia |]. split; [exact Hprev |].
  split; [exact (In_dict_get prev pk pc (HU _ _ Hprev) Hin) |].
  exact (transition_cost_grows self sent pk pc _ c Hok Hcost).
Qed.

Lemma costs_grow_along_predecessors_witness :
  exists prev pc,
    (snd (snd ("<s>", (0, 0)%nat)) + 1)%nat = fst (snd ("</s>", (1, 1)%nat)) /\
    nth_error (best empty_sentence_lattice) (snd (snd ("<s>", (0, 0)%nat))) =
    Some prev /\
    dict_get prev ("<s>", (0, 0)%nat) = Some pc /\
    (pc < 0 + - ln (bigram_p empty_model ">" "<")
            + - ln (phrase_p empty_model "</s>" "</s>"))%R.
Proof.
  apply (costs_grow_along_predecessors empty_model ["<s>"; "</s>"] "<s>" 100
           empty_sentence_lattice 1
           [(("</s>", (1, 1)),
             (0 + - ln (bigram_p empty_model ">" "<")
                + - ln (phrase_p empty_model "</s>" "</s>"))%R)]
           [(("</s>", (1, 1)), ("<s>", (0, 0)))]
           ("</s>", (1, 1)) ("<s>", (0, 0)) _ empty_model_ok
           forward_empty_sentence).
  - apply Nat.le_refl.
  - reflexivity.
  - reflexivity.
  - reflexivity.
  - reflexivity.
Defined.

(** ** A larger maximum phrase length *)

Lemma is_path_longer (self : KovLang) (sent : list string) (max_len max_len' : Z)
  (path : list key) :
  (max_len <= max_len')%Z ->
  forall pk, is_path self sent max_len pk path -> is_path self sent max_len' pk path.
Proof.
  intros Hle. induction path as [| k path IH]; intros pk; simpl; [auto |].
  intros (Hadm & Hs & Hrest). split; [| split; [exact Hs | now apply IH]].
  destruct k as [conv [s e]]. unfold admissible_state in *.
  destruct Hadm as (H1 & H2 & H3 & H4). repeat split; try assumption; lia.
Qed.

(** Allowing longer phrases never makes a state costlier: a state stored
    under one maximum phrase length is stored under every larger one, at a
    cost that is at most the same. *)
Theorem longer_phrases_never_cost_more (self : KovLang) (sent : list string)
  (start_symbol : string) (max_len max_len' : Z) (st st' : lattice) (e : nat)
  (cell : dict key R) (k : key) (c : R)
  (Hle : (max_len <= max_len')%Z)
  (Hrun : forward self sent start_symbol max_len = Ok st)
  (Hrun' : forward self sent start_symbol max_len' = Ok st')
  (He : (1 <= e)%nat)
  (Hcell : nth_error (best st) e = Some cell)
  (Hget : dict_get cell k = Some c) :
  exists cell' c',
    nth_error (best st') e = Some cell' /\ dict_get cell' k = Some c' /\
    (c' <= c)%R.
Proof.
  pose proof (forward_inv self sent start_symbol max_len st Hrun) as Hinv.
  destruct (forward_states_admissible self sent start_symbol max_len' st' Hrun')
    as [HA' _].
  destruct (path_exists self sent start_symbol max_len st Hrun e cell k c
              He Hcell Hget) as (path & Hpath & Hc).
  apply (is_path_longer self sent max_len max_len' _ Hle) in Hpath.
  destruct (path_bound self sent start_symbol max_len' st' Hrun' (path ++ [k])
              (start_symbol, (0, 0)) 0 0 _ HA' (start_state_stored start_symbol)
              (Rle_refl 0) Hpath)
    as (C & cell' & c' & HC & Hcell' & Hget' & Hle').
  rewrite end_state_app in Hcell', Hget'.
  destruct (inv_span self sent st _ Hinv e cell k c Hcell
              (dict_get_Some_In _ _ _ Hget)) as [Hk _].
  rewrite Hk in Hcell'.
  assert (C = c) by congruence. subst C.
  exists cell', c'. auto.
Qed.

Lemma pair_model_ok : tables_ok pair_model.
Proof.
  constructor; simpl; try discriminate.
  intros p1 targets p2 p. destruct (String.eqb p1 "ab"); [| discriminate].
  intros [= <-]. simpl. destruct (String.eqb p2 "Z"); [| discriminate].
  intros [= <-]. unfold is_probability. lra.
Qed.

Lemma pair_costs : (pair_via_Z_cost < pair_via_b_cost)%R.
Proof.
  unfold pair_via_Z_cost, pair_via_b_cost, pair_Z_cost, pair_b_cost, pair_a_cost.
  pose proof (neg_ln_pos _ (bigram_p_bounds pair_model pair_model_ok "a" "b")).
  pose proof (neg_ln_pos _ (phrase_p_bounds pair_model pair_model_ok "b" "b")).
  assert (H2 : (- ln (phrase_p pair_model "ab" "Z")
                <= - ln (phrase_p pair_model "a" "a"))%R).
  { apply neg_ln_antitone. split.
    - apply (phrase_p_bounds pair_model pair_model_ok).
    - unfold phrase_p, phrase_term, phrase_floor. simpl. lra. }
  change (bigram_p pair_model ">" "Z") with (bigram_p pair_model ">" "a").
  change (bigram_p pair_model "Z" "<") with (bigram_p pair_model "b" "<").
  lra.
Qed.

Lemma forward_pair_short :
  forward pair_model ["<s>"; "a"; "b"; "</s>"] "<s>" 1 = Ok pair_short_lattice.
Proof.
  unfold forward, scan_position, scan_span, visit, extend.
  run_search pair_model_ok. reflexivity.
Qed.

Lemma forward_pair_long :
  forward pair_model ["<s>"; "a"; "b"; "</s>"] "<s>" 100 = Ok pair_long_lattice.
Proof.
  unfold forward, scan_position, scan_span, visit, extend.
  run_search pair_model_ok.
  fold pair_a_cost pair_Z_cost. fold pair_b_cost.
  fold pair_via_Z_cost pair_via_b_cost.
  destruct (Rge_dec pair_via_Z_cost pair_via_b_cost) as [Hge | _].
  - pose proof pair_costs. lra.
  - reflexivity.
Qed.

Lemma longer_phrases_never_cost_more_witness :
  forward pair_model ["<s>"; "a"; "b"; "</s>"] "<s>" 1 = Ok pair_short_lattice /\
  forward pair_model ["<s>"; "a"; "b"; "</s>"] "<s>" 100 = Ok pair_long_lattice /\
  exists cell' c',
    nth_error (best pair_long_lattice) 3 = Some cell' /\
    dict_get cell' ("</s>", (3, 3)%nat) = Some c' /\
    (c' <= pair_via_b_cost)%R.
Proof.
  split; [exact forward_pair_short |]. split; [exact forward_pair_long |].
  apply (longer_phrases_never_cost_more pair_model ["<s>"; "a"; "b"; "</s>"] "<s>"
           1 100 pair_short_lattice pair_long_lattice 3
           [(("</s>", (3, 3)), pair_via_b_cost)] ("</s>", (3, 3)) pair_via_b_cost
           ltac:(lia) forward_pair_short forward_pair_long).
  - lia.
  - reflexivity.
  - reflexivity.
Defined.

(** ** The pieces of a rewriting *)

Lemma firstn_add {A : Type} (n m : nat) (l : list A) :
  firstn (n + m) l = firstn n l ++ firstn m (skipn n l).
Proof.
  revert l. induction n as [| n IH]; intros l; [reflexivity |].
  destruct l as [| x l]; simpl.
  - now rewrite firstn_nil.
  - now rewrite IH.
Qed.

Lemma slice_app {A : Type} (l : list A) (a b c : nat) :
  (a <= b)%nat -> (b <= c)%nat -> slice l a b ++ slice l b c = slice l a c.
Proof.
  intros Hab Hbc. unfold slice.
  replace (c - a)%nat with ((b - a) + (c - b))%nat by lia.
  rewrite firstn_add, skipn_skipn.
  now replace (b - a + a)%nat with b by lia.
Qed.

Lemma join_flat_map {A : Type} (f : A -> list string) (l : list A) :
  join (flat_map f l) = join (map (fun x => join (f x)) l).
Proof.
  induction l as [| x l IH]; [reflexivity |].
  cbn [flat_map map]. now rewrite join_app, join_cons, IH.
Qed.

Section Pieces.

Variable self : KovLang.
Variable sent : list string.
Variable max_len : Z.

Lemma is_path_Forall (path : list key) : forall pk,
  is_path self sent max_len pk path ->
  Forall (admissible_state self sent max_len) path.
Proof.
  induction path as [| k path IH]; intros pk; simpl; [constructor |].
  intros (Hadm & _ & Hrest). constructor; [exact Hadm | now apply (IH k)].
Qed.

(** The spans of a path lie side by side. *)
Lemma path_tiles (path : list key) : forall pk,
  is_path self sent max_len pk path ->
  (snd (snd pk) <= snd (snd (end_state pk path)))%nat /\
  flat_map (fun k => slice sent (fst (snd k)) (snd (snd k) + 1)) path =
  slice sent (snd (snd pk) + 1) (snd (snd (end_state pk path)) + 1).
Proof.
  induction path as [| k path IH]; intros pk; cbn [is_path end_state flat_map].
  - intros _. split; [lia |]. unfold slice. now rewrite Nat.sub_diag.
  - intros (Hadm & Hs & Hrest). destruct (IH k Hrest) as [Hle Htile].
    destruct k as [conv [s e]]. destruct Hadm as (Hse & _). cbn [fst snd] in *.
    split; [lia |]. rewrite Htile, <- Hs. apply slice_app; lia.
Qed.

Lemma path_ends_bound (path : list key) (k : key) : forall pk,
  is_path self sent max_len pk path -> In k path ->
  (snd (snd k) <= snd (snd (end_state pk path)))%nat.
Proof.
  induction path as [| k1 path IH]; intros pk; cbn [is_path end_state];
    [intros _ [] |].
  intros (_ & _ & Hrest) [-> | Hin].
  - now destruct (path_tiles path k Hrest).
  - now apply IH.
Qed.

End Pieces.

Lemma final_marker_state (self : KovLang) (input min_key : string) :
  let sent := bracket (chars input) "<s>" "</s>" in
  let N := (String.length input + 1)%nat in
  dict_get (phrasemodel self) "</s>" = None ->
  is_rewrite self sent N N min_key -> min_key = "</s>".
Proof.
  intros sent N Hnone Hrw.
  assert (Hphrase : join (slice sent N (N + 1)) = "</s>").
  { unfold sent, N.
    rewrite (final_phrase input "<s>" "</s>" (String.length input)) by lia.
    clear. induction input as [| a s IH]; [reflexivity | exact IH]. }
  destruct Hrw as [(_ & _ & ->) | (targets & Hget & _)]; [exact Hphrase |].
  rewrite Hphrase, Hnone in Hget. discriminate.
Qed.

Lemma drop_all (s : string) : drop (String.length s) s = "".
Proof.
  induction s as [| a s IH]; [reflexivity | exact IH].
Qed.

Lemma convert_pieces (self : KovLang) (input : string) :
  tables_ok self -> targets_nonempty self ->
  (forall n, (n <= String.length input)%nat ->
     dict_get (phrasemodel self) (String.append (drop n input) "</s>") = None) ->
  exists pieces,
    join (map fst pieces) = input /\
    Forall (is_piece self) pieces /\
    convert self input = Some (Ok (join (map snd pieces))).
Proof.
  intros Hok Htargets Hnarrow.
  set (sent := bracket (chars input) "<s>" "</s>").
  set (N := (String.length input + 1)%nat).
  destruct (convert_search_returns self input Hok Htargets)
    as (path & min_key & c & Hpath & _ & _ & Hsearch);
    [intros n Hn; apply Hnarrow; lia |].
  fold sent N in Hpath.
  apply is_path_app in Hpath as [Hpath (Hadm & Hstart & _)].
  cbn [fst snd] in Hstart.
  assert (Hkey : min_key = "</s>").
  { destruct Hadm as (_ & _ & _ & Hrw).
    apply (final_marker_state self input min_key); [| exact Hrw].
    pose proof (Hnarrow (String.length input) (Nat.le_refl _)) as Hnone.
    now rewrite drop_all in Hnone. }
  subst min_key.
  exists (map (fun k => (source_phrase sent k, fst k)) path).
  rewrite !map_map. cbn [fst snd].
  split; [| split].
  - destruct (path_tiles self sent 100 path _ Hpath) as [_ Htile].
    apply (f_equal join) in Htile. rewrite join_flat_map in Htile.
    cbn [fst snd] in Htile. rewrite <- Hstart in Htile.
    etransitivity; [exact Htile |].
    unfold slice, sent, bracket. cbn [Nat.add app skipn].
    replace (N - 1)%nat with (List.length (chars input) + 0)%nat
      by (rewrite length_chars; unfold N; lia).
    rewrite firstn_app_2. cbn [firstn]. rewrite app_nil_r. apply join_chars.
  - apply Forall_forall. intros piece Hin.
    apply in_map_iff in Hin as ([conv [s e]] & <- & Hk).
    pose proof (is_path_Forall self sent 100 path _ Hpath) as Hall.
    rewrite Forall_forall in Hall.
    destruct (Hall _ Hk) as (Hse & He & _ & Hrw).
    pose proof (path_ends_bound self sent 100 path _ _ Hpath Hk) as Hbound.
    cbn [fst snd] in Hbound.
    unfold is_piece, source_phrase. cbn [fst snd].
    destruct Hrw as [(<- & _ & ->) | Hrw]; [left | right; exact Hrw].
    split; [reflexivity |].
    assert (Hw : exists w, nth_error sent s = Some w /\ In w (chars input)).
    { destruct s as [| s']; [lia |].
      destruct (nth_error_in_range (chars input) s') as [w Hw];
        [rewrite length_chars; unfold N in Hstart; lia |].
      exists w. split; [| eapply nth_error_In; eassumption].
      unfold sent, bracket. cbn [app nth_error].
      rewrite nth_error_app1; [exact Hw |].
      rewrite length_chars. unfold N in Hstart. lia. }
    destruct Hw as (w & Hw & Hin).
    rewrite (slice_single sent s w Hw).
    unfold chars in Hin. apply in_map_iff in Hin as (a & <- & _). reflexivity.
  - unfold convert. rewrite Hsearch. do 2 f_equal.
    change ("<s>" :: map fst path ++ ["</s>"])
      with (["<s>"] ++ map fst path ++ ["</s>"]).
    rewrite !join_app. apply re_sub_markers_bracketed.
Qed.

(** Under the conditions under which [convert] returns a cheapest
    rewriting, its result is a piecewise rewriting of the input: the input
    splits into consecutive phrases, each replaced by one of its targets in
    the phrase table or, if it is a single character, left as it is, and
    the result is the concatenation of the replacements. *)
Theorem convert_rewrites_piecewise (self : KovLang) (input : string)
  (Hok : tables_ok self) (Htargets : targets_nonempty self)
  (Hnarrow : forall n, (n <= String.length input)%nat ->
     dict_get (phrasemodel self) (String.append (drop n input) "</s>") = None) :
  exists pieces,
    join (map fst pieces) = input /\
    Forall (is_piece self) pieces /\
    convert self input = Some (Ok (join (map snd pieces))).
Proof.
  exact (convert_pieces self input Hok Htargets Hnarrow).
Qed.

Lemma convert_rewrites_piecewise_witness :
  exists pieces,
    join (map fst pieces) = "a" /\
    Forall (is_piece small_model) pieces /\
    convert small_model "a" = Some (Ok (join (map snd pieces))).
Proof.
  apply (convert_rewrites_piecewise small_model "a" small_model_ok
           small_model_targets).
  intros n Hn. simpl in Hn.
  assert (Hn' : n = 0%nat \/ n = 1%nat) by lia.
  destruct Hn' as [-> | ->]; reflexivity.
Defined.

(** ** The verbose mode *)

Lemma log_for_each_returns {A : Type} (body : A -> logging unit) (xs : list A) :
  (forall x log, In x xs -> exists lines, body x log = (log ++ lines, Ok tt)) ->
  forall log, exists lines, log_for_each xs body log = (log ++ lines, Ok tt).
Proof.
  induction xs as [| x xs IH]; intros Hbody log; cbn [log_for_each].
  - exists []. unfold log_ret. now rewrite app_nil_r.
  - unfold log_bind.
    destruct (Hbody x log (or_introl eq_refl)) as (l1 & ->).
    destruct (IH (fun y log' Hy => Hbody y log' (or_intror Hy)) (log ++ l1))
      as (l2 & ->).
    exists (l1 ++ l2). now rewrite app_assoc.
Qed.

Section VerboseReturns.

Variable self : KovLang.
Variable round4 : R -> R.
Variable sent : list string.
Variable start_symbol : string.
Variable max_len : Z.
Variable st : lattice.

Hypothesis Hok : tables_ok self.
Hypothesis Hrun : forward self sent start_symbol max_len = Ok st.

Lemma log_state_returns (i : nat) (cell : dict key R) (item : key * R)
  (log : list log_line) :
  (1 <= i)%nat -> nth_error (best st) i = Some cell -> In item cell ->
  exists lines, log_state self round4 sent st i item log = (log ++ lines, Ok tt).
Proof.
  intros Hi Hcell Hin. destruct item as [k c].
  pose proof (forward_inv self sent start_symbol max_len st Hrun) as Hinv.
  pose proof (forward_keys_unique self sent start_symbol max_len st Hrun) as HU.
  pose proof (In_dict_get cell k c (HU _ _ Hcell) Hin) as Hget.
  destruct (inv_opt self sent st _ Hinv i cell k c Hi Hcell Hget)
    as (conv & s & prev & pcell & pk & pc & -> & _ & _ & Hpcell & Hpk & _ & Hcost & _).
  destruct pk as [b_key [b_start b_end]].
  unfold transition_cost in Hcost. cbn [fst] in Hcost.
  destruct (str_last b_key) as [b1 |] eqn:Eb; [| discriminate].
  destruct (str_first conv) as [k0 |] eqn:Ek; [| discriminate].
  unfold log_state, log_bind, log_lift, debug, list_getitem, dict_getitem.
  rewrite Hpcell, Hpk, Ek, Eb.
  fold (phrase_cost self (join (slice sent s (i + 1))) conv).
  fold (bigram_cost self b1 k0).
  rewrite (phrase_cost_ok self Hok), (bigram_cost_ok self Hok).
  eexists. rewrite <- !app_assoc. reflexivity.
Qed.

Lemma log_position_returns (i : nat) (log : list log_line) :
  (1 <= i)%nat -> (i < List.length sent)%nat ->
  exists lines, log_position self round4 sent st i log = (log ++ lines, Ok tt).
Proof.
  intros Hi Hlt.
  pose proof (forward_inv self sent start_symbol max_len st Hrun) as Hinv.
  destruct (nth_error_in_range sent i Hlt) as [token Htoken].
  destruct (nth_error_in_range (best st) i) as [cell Hcell];
    [rewrite (inv_len_best self sent st _ Hinv); exact Hlt |].
  unfold log_position, log_bind, log_lift, debug, list_getitem.
  rewrite Htoken, Hcell.
  destruct (log_for_each_returns (log_state self round4 sent st i) (dict_items cell))
    with (log := log ++ [LogToken token]) as (lines & ->).
  - intros item log' Hin. now apply (log_state_returns i cell).
  - exists (LogToken token :: lines). now rewrite <- app_assoc.
Qed.

Lemma log_lattice_returns (log : list log_line) :
  exists lines, log_lattice self round4 sent st log = (log ++ lines, Ok tt).
Proof.
  unfold log_lattice. apply log_for_each_returns.
  intros i log' Hin. apply py_range_In in Hin.
  apply log_position_returns; lia.
Qed.

End VerboseReturns.

Lemma search_logged_quiet (self : KovLang) (round4 : R -> R)
  (tokens : list string) (start_symbol end_symbol : string) (max_len : Z)
  (log : list log_line) :
  search_logged self round4 tokens start_symbol end_symbol max_len false log =
  (log, search self tokens start_symbol end_symbol max_len).
Proof.
  unfold search_logged, search, log_ret.
  now destruct (forward self _ start_symbol max_len).
Qed.

Lemma search_logged_verbose (self : KovLang) (round4 : R -> R)
  (tokens : list string) (start_symbol end_symbol : string) (max_len : Z)
  (log : list log_line) :
  tables_ok self ->
  exists lines,
    search_logged self round4 tokens start_symbol end_symbol max_len true log =
    (log ++ lines, search self tokens start_symbol end_symbol max_len).
Proof.
  intros Hok. unfold search_logged, search.
  destruct (forward self _ start_symbol max_len) as [st | e] eqn:Hrun.
  - destruct (log_lattice_returns self round4 _ start_symbol max_len st Hok Hrun log)
      as (lines & ->).
    now exists lines.
  - exists []. now rewrite app_nil_r.
Qed.

(** The verbose mode changes nothing but the log. Without it [search] logs
    nothing; with it, and with probabilities in (0, 1] in the tables, every
    lookup and every score of the verbose output succeeds after a forward
    pass that returns, so [search] and [convert] add lines to the log and
    have the outcome they have without it. *)
Theorem verbose_changes_only_the_log (self : KovLang) (round4 : R -> R)
  (tokens : list string) (start_symbol end_symbol : string) (max_len : Z)
  (input : string) (log : list log_line) (Hok : tables_ok self) :
  search_logged self round4 tokens start_symbol end_symbol max_len false log =
  (log, search self tokens start_symbol end_symbol max_len) /\
  (exists lines,
     search_logged self round4 tokens start_symbol end_symbol max_len true log =
     (log ++ lines, search self tokens start_symbol end_symbol max_len)) /\
  convert_logged self round4 input false log = (log, convert self input) /\
  (exists lines,
     convert_logged self round4 input true log =
     (log ++ lines, convert self input)).
Proof.
  split; [apply search_logged_quiet |].
  split; [now apply search_logged_verbose |].
  split.
  - unfold convert_logged, convert. rewrite search_logged_quiet.
    now destruct (search self (chars input) "<s>" "</s>" 100) as [[ans | e] |].
  - unfold convert_logged, convert.
    destruct (search_logged_verbose self round4 (chars input) "<s>" "</s>" 100 log Hok)
      as (lines & ->).
    exists lines.
    now destruct (search self (chars input) "<s>" "</s>" 100) as [[ans | e] |].
Qed.

Lemma verbose_changes_only_the_log_witness :
  search_logged small_model (fun x => x) ["a"] "<s>" "</s>" 100 false [] =
  ([], search small_model ["a"] "<s>" "</s>" 100) /\
  (exists lines,
     search_logged small_model (fun x => x) ["a"] "<s>" "</s>" 100 true [] =
     ([] ++ lines, search small_model ["a"] "<s>" "</s>" 100)) /\
  convert_logged small_model (fun x => x) "a" false [] =
  ([], convert small_model "a") /\
  (exists lines,
     convert_logged small_model (fun x => x) "a" true [] =
     ([] ++ lines, convert small_model "a")).
Proof.
  exact (verbose_changes_only_the_log small_model (fun x => x) ["a"] "<s>" "</s>"
           100 "a" [] small_model_ok).
Defined.
